(** * Forward-pass core of the inference server: a shallow embedding

    The development follows three source files:
    - [custom_modeling/qwen2_vl.py]  (multimodal position ids, vision-tower
      attention mask),
    - [custom_modeling/flash_llama_modeling.py]  (attention layer construction,
      attention forward, decoder layer forward),
    - [models/__init__.py]  (the sliding-window gate of [get_model]).

    Python integers are [Z]; one-dimensional integer tensors are [list Z],
    with the wrap-around of 32-bit sums written out where the code asks for
    them; a raised exception is the left injection of [result].  A float is
    kept as the real number it denotes, and the one float operation of the
    code, a power, is a function of the platform that the constructors take
    as a parameter. *)

From Stdlib Require Import String ZArith List Lia Bool Reals Lra.
From Stdlib Require Import Permutation.
Import ListNotations.
Open Scope Z_scope.

(** ** Python exceptions and the error monad *)

Module Py.

Inductive exn : Type :=
| IndexError
| RuntimeError
| ZeroDivisionError
| ValueError (msg : string).

Definition result (A : Type) : Type := (exn + A)%type.

Definition ret {A : Type} (a : A) : result A := inr a.
Definition raise {A : Type} (e : exn) : result A := inl e.

Definition bind {A B : Type} (m : result A) (k : A -> result B) : result B :=
  match m with
  | inl e => inl e
  | inr a => k a
  end.

Fixpoint mapM {A B : Type} (f : A -> result B) (l : list A) : result (list B) :=
  match l with
  | [] => ret []
  | x :: r =>
      bind (f x) (fun y => bind (mapM f r) (fun ys => ret (y :: ys)))
  end.

(** [l[i]] for a non-negative index. *)
Definition item {A : Type} (l : list A) (i : nat) : result A :=
  match nth_error l i with
  | Some x => ret x
  | None => raise IndexError
  end.

(** [l[-1]]. *)
Definition last_item {A : Type} (l : list A) : result A :=
  match rev l with
  | x :: _ => ret x
  | [] => raise IndexError
  end.

(** [enumerate(l)]. *)
Definition enumerate {A : Type} (l : list A) : list (nat * A) :=
  combine (seq 0 (length l)) l.

(** Python's [a // b] and [a % b] on integers. *)
Definition floordiv (a b : Z) : result Z :=
  if b =? 0 then raise ZeroDivisionError else ret (a / b).

Definition pymod (a b : Z) : result Z :=
  if b =? 0 then raise ZeroDivisionError else ret (a mod b).

End Py.

Import Py.

Notation "x <- m ;; k" := (bind m (fun x => k))
  (at level 61, m at next level, right associativity).

(** ** The tensor operations the sources use *)

Module Torch.

(** [torch.arange(n)]: a negative bound is refused. *)
Definition arange (n : Z) : result (list Z) :=
  if n <? 0 then raise RuntimeError
  else ret (map Z.of_nat (seq 0 (Z.to_nat n))).

(** [x.repeat_interleave(k)]: each element [k] times in place. *)
Definition repeat_interleave (x : list Z) (k : Z) : result (list Z) :=
  if k <? 0 then raise RuntimeError
  else ret (flat_map (fun a => repeat a (Z.to_nat k)) x).

(** [x.repeat(k)] on a one-dimensional tensor: the whole tensor [k] times. *)
Definition tensor_repeat (x : list Z) (k : Z) : result (list Z) :=
  if k <? 0 then raise RuntimeError
  else ret (concat (repeat x (Z.to_nat k))).

(** [torch.where(x == tok)[0]]: the increasing indices of the matches. *)
Fixpoint where_from (i : Z) (x : list Z) (tok : Z) : list Z :=
  match x with
  | [] => []
  | a :: r =>
      if a =? tok then i :: where_from (i + 1) r tok
      else where_from (i + 1) r tok
  end.

Definition where_eq (x : list Z) (tok : Z) : list Z := where_from 0 x tok.

(** Element-wise binary operation of two one-dimensional tensors with
    broadcasting: equal sizes, or one of the sizes is 1. *)
Definition broadcast2 (op : Z -> Z -> Z) (a b : list Z) : result (list Z) :=
  if (length a =? length b)%nat
  then ret (map (fun p => op (fst p) (snd p)) (combine a b))
  else match a, b with
       | [x], _ => ret (map (op x) b)
       | _, [y] => ret (map (fun x => op x y) a)
       | _, _ => raise RuntimeError
       end.

(** [x // k] of an integer tensor by a Python integer. *)
Definition tensor_floordiv (x : list Z) (k : Z) : result (list Z) :=
  if k =? 0 then raise ZeroDivisionError else ret (map (fun a => a / k) x).

(** [x.cumsum(dim=0)]. *)
Fixpoint cumsum_from (acc : Z) (x : list Z) : list Z :=
  match x with
  | [] => []
  | a :: r => (acc + a) :: cumsum_from (acc + a) r
  end.

Definition cumsum (x : list Z) : list Z := cumsum_from 0 x.

(** What a signed integer of 32 (of 64) bits holds when the exact result of
    an operation is [x]: the result wraps around. *)
Definition int32 (x : Z) : Z := (x + 2 ^ 31) mod 2 ^ 32 - 2 ^ 31.

Definition int64 (x : Z) : Z := (x + 2 ^ 63) mod 2 ^ 64 - 2 ^ 63.

(** [x.cumsum(dim=0, dtype=torch.int32)]: the elements are cast to 32 bits
    before the sums are taken, in 32 bits. *)
Fixpoint cumsum_int32_from (acc : Z) (x : list Z) : list Z :=
  match x with
  | [] => []
  | a :: r =>
      let acc := int32 (acc + int32 a) in
      acc :: cumsum_int32_from acc r
  end.

Definition cumsum_int32 (x : list Z) : list Z := cumsum_int32_from 0 x.

(** [torch.stack((a, b), dim=1)]: the sizes must agree. *)
Definition stack_pairs (a b : list Z) : result (list (Z * Z)) :=
  if (length a =? length b)%nat then ret (combine a b) else raise RuntimeError.

(** A tensor of shape [3, n] is kept as the list of its [n] columns, each a
    (temporal, height, width) triple. *)
Definition tensor3 : Type := list (Z * Z * Z).

(** [torch.stack([a, b, c], dim=0)]. *)
Definition stack3 (a b c : list Z) : result tensor3 :=
  if ((length a =? length b) && (length b =? length c))%nat
  then ret (combine (combine a b) c)
  else raise RuntimeError.

(** [m + k] for a scalar [k]. *)
Definition add_scalar (m : tensor3) (k : Z) : tensor3 :=
  map (fun c => match c with (a, b, d) => (a + k, b + k, d + k) end) m.

(** [x.view(1, -1).expand(3, -1)]. *)
Definition expand3 (x : list Z) : tensor3 := map (fun a => (a, a, a)) x.

Definition col_max (c : Z * Z * Z) : Z :=
  match c with (a, b, d) => Z.max a (Z.max b d) end.

(** [m.max()]: refused on a tensor without elements. *)
Definition tensor_max (m : tensor3) : result Z :=
  match m with
  | [] => raise RuntimeError
  | c :: r => ret (fold_left (fun acc c' => Z.max acc (col_max c')) r (col_max c))
  end.

(** [torch.cat(ms, dim=1)] of [3, n_i] tensors. *)
Definition cat (ms : list tensor3) : tensor3 := concat ms.

(** [m.reshape(3, -1).transpose(0, 1)]: the rows of the [n, 3] result. *)
Definition transpose (m : tensor3) : list (list Z) :=
  map (fun c => match c with (a, b, d) => [a; b; d] end) m.

End Torch.

Import Torch.

(** ** qwen2_vl.py *)

Module Qwen2VL.

(** One row of [image_grid_thw]. *)
Record grid_thw : Type := mk_grid { grid_t : Z; grid_h : Z; grid_w : Z }.

(** The fields of [Qwen2VLForConditionalGeneration] that [get_position_ids]
    reads. *)
Record Qwen2VLForConditionalGeneration : Type := mk_model {
  spatial_merge_size : Z;
  vision_start_token_id : Z;
  vision_end_token_id : Z
}.

(** The body of the loop over the vision segments, before the offset. *)
Definition image_position_ids (sms : Z) (g : grid_thw) : result tensor3 :=
  let t := grid_t g in
  h <- floordiv (grid_h g) sms ;;
  w <- floordiv (grid_w g) sms ;;
  ar_t <- arange t ;;
  t_indices <- repeat_interleave ar_t (h * w) ;;
  ar_h <- arange h ;;
  h_rep <- repeat_interleave ar_h w ;;
  h_indices <- tensor_repeat h_rep t ;;
  ar_w <- arange w ;;
  w_indices <- tensor_repeat ar_w (t * h) ;;
  stack3 t_indices h_indices w_indices.

(** [zip(text_ranges, llm_pos_ids_list)] flattened pair by pair. *)
Definition interleave (xs ys : list tensor3) : list tensor3 :=
  flat_map (fun p => [fst p; snd p]) (combine xs ys).

Definition get_position_ids (self : Qwen2VLForConditionalGeneration)
    (input_ids : list Z) (image_grid_thw : option (list grid_thw))
  : result (list (list Z)) :=
  match image_grid_thw with
  | None =>
      idx <- arange (Z.of_nat (length input_ids)) ;;
      ret (map (fun i => [i; i; i]) idx)
  | Some image_grid_thw =>
      let sms := spatial_merge_size self in
      let input_ids_len := Z.of_nat (length input_ids) in
      let vision_starts := where_eq input_ids (vision_start_token_id self) in
      let vision_ends := where_eq input_ids (vision_end_token_id self) in
      vision_segments <- stack_pairs vision_starts vision_ends ;;
      let prev_vision_end := 0 :: removelast vision_ends in
      gaps <- broadcast2 Z.sub (map fst vision_segments) prev_vision_end ;;
      let text_lengths_between_vision := map (fun d => d + 1) gaps in
      widths <- tensor_floordiv (map grid_w (removelast image_grid_thw)) sms ;;
      let vision_widths_max := 0 :: widths in
      summed <- broadcast2 Z.add vision_widths_max text_lengths_between_vision ;;
      let vision_segment_lengths := cumsum summed in
      text_segment_lengths <-
        broadcast2 Z.sub vision_segment_lengths text_lengths_between_vision ;;
      llm_pos_ids_list <-
        mapM (fun i =>
                g <- item image_grid_thw i ;;
                image_position_ids <- image_position_ids sms g ;;
                off <- item vision_segment_lengths i ;;
                ret (add_scalar image_position_ids off))
             (seq 0 (length vision_segments)) ;;
      text_ranges <-
        mapM (fun p =>
                r <- arange (snd p) ;;
                off <- item text_segment_lengths (fst p) ;;
                ret (add_scalar (expand3 r) off))
             (enumerate text_lengths_between_vision) ;;
      let full_llm_pos_ids_list := interleave text_ranges llm_pos_ids_list in
      last_pos <- last_item full_llm_pos_ids_list ;;
      mx <- tensor_max last_pos ;;
      let max_s := mx + 1 in
      last_end <- last_item vision_ends ;;
      let final_text_len := input_ids_len - last_end in
      tail <-
        (if 0 <? final_text_len
         then m <- arange final_text_len ;; ret [add_scalar (expand3 m) max_s]
         else ret []) ;;
      ret (transpose (cat (full_llm_pos_ids_list ++ tail)))
  end.

(** The number of tokens of a vision segment with grid [g], after the spatial
    merge. *)
Definition merged_tokens (sms : Z) (g : grid_thw) : Z :=
  grid_t g * (grid_h g / sms) * (grid_w g / sms).

(** A well-delimited input, read off the positions of the start markers, the
    positions of the end markers and the grids, pair by pair: a start marker
    does not come before the end marker of the previous pair ([prev], 0 for
    the first pair), the grid has positive merged extents, and the end marker
    follows the start marker after exactly [merged_tokens] vision tokens. *)
Inductive vision_layout (sms : Z) : Z -> list Z -> list Z -> list grid_thw -> Prop :=
| layout_done (prev : Z) : vision_layout sms prev [] [] []
| layout_segment (prev s e : Z) (g : grid_thw)
    (starts ends : list Z) (grids : list grid_thw) :
    prev <= s ->
    0 < grid_t g -> 0 < grid_h g / sms -> 0 < grid_w g / sms ->
    e = s + 1 + merged_tokens sms g ->
    vision_layout sms e starts ends grids ->
    vision_layout sms prev (s :: starts) (e :: ends) (g :: grids).

(** The row-major Cartesian product [range(t) x range(h) x range(w)], the
    temporal index varying slowest: the position ids the specification
    assigns to a vision segment, before the offset. *)
Definition grid_range (n : Z) : list Z := map Z.of_nat (seq 0 (Z.to_nat n)).

Definition cartesian (t h w : Z) : tensor3 :=
  flat_map (fun a =>
    flat_map (fun b => map (fun c => (a, b, c)) (grid_range w)) (grid_range h))
    (grid_range t).

(** *** The vision tower: cumulative segment lengths and the attention mask *)

(** [torch.repeat_interleave(x, reps)] with one repeat count per element. *)
Definition repeat_interleave_each (x reps : list Z) : result (list Z) :=
  if negb (length x =? length reps)%nat then raise RuntimeError
  else if existsb (fun k => k <? 0) reps then raise RuntimeError
  else ret (flat_map (fun p => repeat (fst p) (Z.to_nat (snd p))) (combine x reps)).

(** [torch.max(x)] of a one-dimensional tensor. *)
Definition vector_max (x : list Z) : result Z :=
  match x with
  | [] => raise RuntimeError
  | a :: r => ret (fold_left Z.max r a)
  end.

(** The last statements of [Qwen2VisionModel.forward] before the blocks,
    which compute what every block is handed: [cu_seqlens], the running sum
    in 32 bits of the frame sizes [h * w] (a product of 64-bit entries of
    [grid_thw]), padded with a leading 0, and [max_seqlen], the largest
    difference of neighbours, taken in 32 bits as well.  The call gets here
    only when the position-id loop before these statements has gone through
    (see [Qwen2Vision.vision_segments]). *)
Definition vision_cu_seqlens (grid : list grid_thw) : result (list Z) :=
  lens <- repeat_interleave_each
            (map (fun g => int64 (grid_h g * grid_w g)) grid)
            (map grid_t grid) ;;
  ret (0 :: cumsum_int32 lens).

Definition vision_max_seqlen (cu_seqlens : list Z) : result Z :=
  vector_max (map (fun p => int32 (fst p - snd p))
                  (combine (tl cu_seqlens) (removelast cu_seqlens))).

(** A boolean mask of shape [1, n, n], kept as its [n] rows. *)
Definition bool_mask : Type := list (list bool).

(** The bound of a Python slice on a dimension of size [n]. *)
Definition slice_index (n x : Z) : Z :=
  if x <? 0 then Z.max (x + n) 0 else Z.min x n.

Definition in_slice (n a b i : Z) : bool :=
  (slice_index n a <=? i) && (i <? slice_index n b).

Fixpoint mapi_from {A B : Type} (i : Z) (f : Z -> A -> B) (l : list A) : list B :=
  match l with
  | [] => []
  | x :: r => f i x :: mapi_from (i + 1) f r
  end.

(** [mask[:, a:b, a:b] = True]. *)
Definition fill_block (mask : bool_mask) (a b : Z) : bool_mask :=
  let n := Z.of_nat (length mask) in
  mapi_from 0
    (fun r row =>
       if in_slice n a b r
       then mapi_from 0
              (fun c v => if in_slice (Z.of_nat (length row)) a b c then true else v)
              row
       else row)
    mask.

(** The mask [Qwen2VLAttention.forward] builds before the fused attention
    call, which it runs with [is_causal = False]. *)
Definition attention_mask (cu_seqlens : list Z) (max_seqlen : Z) : result bool_mask :=
  if max_seqlen <? 0 then raise RuntimeError
  else
    let n := Z.to_nat max_seqlen in
    let zeros := repeat (repeat false n) n in
    ret (fold_left (fun m p => fill_block m (fst p) (snd p))
                   (combine cu_seqlens (tl cu_seqlens)) zeros).

Definition causal : bool := false.

(** The mask entry for query position [i] and key position [j], when the mask
    has one. *)
Definition mask_at (m : bool_mask) (i j : nat) : option bool :=
  match nth_error m i with
  | Some row => nth_error row j
  | None => None
  end.

(** Positions [i] and [j] lie in the same segment of [cu_seqlens]. *)
Definition same_segment (cu_seqlens : list Z) (i j : Z) : bool :=
  existsb (fun p => (fst p <=? i) && (i <? snd p) && (fst p <=? j) && (j <? snd p))
          (combine cu_seqlens (tl cu_seqlens)).

(** A mask with [n] rows of [n] entries. *)
Definition square (n : nat) (m : bool_mask) : Prop :=
  length m = n /\ Forall (fun row => length row = n) m.

(** The mask that [Qwen2VLAttention.forward] builds from the [cu_seqlens] and
    the [max_seqlen] that [Qwen2VisionModel.forward] computes for a batch of
    image grids: the two computations one after the other, for a call that
    has reached them. *)
Definition vision_attention_mask (grid : list grid_thw) : result bool_mask :=
  cu_seqlens <- vision_cu_seqlens grid ;;
  max_seqlen <- vision_max_seqlen cu_seqlens ;;
  attention_mask cu_seqlens max_seqlen.

End Qwen2VL.

Import Qwen2VL.

(** ** flash_llama_modeling.py *)

Module FlashLlama.

(** The attributes of the model configuration the layers read.  An attribute
    the configuration may lack ([getattr] with a default) is an [option]. *)
Record Config : Type := mk_config {
  num_attention_heads : Z;
  hidden_size : Z;
  num_key_value_heads : Z;
  attention_multiplier : option R;
  residual_multiplier : option R
}.

(** Python's [n ** -0.5] for an integer [n]: zero is refused; for positive [n]
    the result is the float that the platform's power function returns,
    [int_pow n (-0.5)], a float being kept as the real number it denotes (a
    negative [n] gives a complex number in Python and is outside this
    model). *)
Definition pow_neg_half (int_pow : Z -> R -> R) (n : Z) : result R :=
  if n =? 0 then raise ZeroDivisionError
  else ret (int_pow n (- (1 / 2))%R).


Definition msg_num_heads : string :=
  "`num_heads` must be divisible by `num_shards`"%string.

Definition msg_num_key_value_heads : string :=
  "`num_key_value_heads` must be divisible by `num_shards`"%string.

Section Layers.

(** Activations, the paged key/value cache and the bookkeeping objects that
    are only passed through. *)
Context {Tensor KVCache Seqlen AdapterData Meta Scales : Type}.

(** [n ** y] of Python for an integer [n] and a float [y], as the platform
    computes it. *)
Variable int_pow : Z -> R -> R.

Definition Linear : Type := Tensor -> AdapterData -> Tensor.
Definition Norm : Type := Tensor -> option Tensor -> Tensor * Tensor.
Definition Rotary : Type := Tensor -> Tensor -> Tensor -> Tensor -> Tensor * Tensor.

(** What the constructors obtain from [weights]: the size of the process group
    and the loaders of the collaborating layers, each of which may raise. *)
Record Weights : Type := mk_weights {
  process_group_size : Z;
  load_attention : Config -> string -> Z -> result Linear;
  get_kv_scales : string -> result Scales;
  load_o_proj : Config -> string -> Z -> result Linear;
  load_mlp : Config -> string -> Z -> result Linear;
  load_norm : string -> result Norm
}.

Record FlashLlamaAttention : Type := mk_attention {
  num_heads : Z;
  attn_hidden_size : Z;
  head_size : Z;
  rotary_emb : Rotary;
  softmax_scale : R;
  num_kv_heads : Z;
  query_key_value : Linear;
  index : Z;
  kv_scales : Scales;
  o_proj : Linear;
  num_groups : Z;
  kv_head_mapping : list Z
}.

(** [FlashLlamaAttention.__init__]. *)
Definition FlashLlamaAttention_init (index : Z) (prefix : string) (config : Config)
    (weights : Weights) (rotary_emb : Rotary) : result FlashLlamaAttention :=
  let num_heads := num_attention_heads config in
  let hidden_size := hidden_size config in
  head_size <- floordiv hidden_size num_heads ;;
  default_scale <- pow_neg_half int_pow head_size ;;
  let softmax_scale :=
    match attention_multiplier config with
    | Some m => m
    | None => default_scale
    end in
  r_heads <- pymod num_heads (process_group_size weights) ;;
  if negb (r_heads =? 0) then raise (ValueError msg_num_heads)
  else
    r_kv <- pymod (num_key_value_heads config) (process_group_size weights) ;;
    if negb (r_kv =? 0) then raise (ValueError msg_num_key_value_heads)
    else
      num_heads <- floordiv num_heads (process_group_size weights) ;;
      num_key_value_heads <-
        floordiv (num_key_value_heads config) (process_group_size weights) ;;
      query_key_value <- load_attention weights config prefix index ;;
      kv_scales <- get_kv_scales weights prefix ;;
      o_proj <- load_o_proj weights config prefix index ;;
      num_groups <- floordiv num_heads num_key_value_heads ;;
      heads <- arange num_key_value_heads ;;
      kv_head_mapping <- repeat_interleave heads num_groups ;;
      ret {| num_heads := num_heads;
             attn_hidden_size := hidden_size;
             head_size := head_size;
             rotary_emb := rotary_emb;
             softmax_scale := softmax_scale;
             num_kv_heads := num_key_value_heads;
             query_key_value := query_key_value;
             index := index;
             kv_scales := kv_scales;
             o_proj := o_proj;
             num_groups := num_groups;
             kv_head_mapping := kv_head_mapping |}.

(** The tensor primitives and the attention kernels of
    [text_generation_server.layers.attention], which [forward] calls. *)
Record Kernels : Type := mk_kernels {
  (* [qkv.split(...)] and the two [view]s: query, key and value *)
  split_qkv : Z -> Z -> Z -> Tensor -> Tensor * Tensor * Tensor;
  (* [attn_output.view(-1, num_heads * head_size)] *)
  view_output : Z -> Tensor -> Tensor;
  (* [x *= m] *)
  scale_by : Tensor -> R -> Tensor;
  (* [kv_cache.store(key, value, slots, kv_scales)] *)
  kv_store : KVCache -> Tensor -> Tensor -> Tensor -> Scales -> KVCache;
  (* [attention(query, key, value, kv_scales, kv_cache, seqlen, softmax_scale)] *)
  attention : Tensor -> Tensor -> Tensor -> Scales -> KVCache -> Seqlen -> R -> Tensor;
  (* [paged_attention(query, kv_cache, kv_head_mapping, softmax_scale, seqlen,
     kv_scales, hpu_attention_meta)] *)
  paged_attention :
    Tensor -> KVCache -> list Z -> R -> Seqlen -> Scales -> option Meta -> Tensor
}.

(** The calls one [forward] makes on the cache and the kernels, in program
    order, each with the arguments it receives. *)
Inductive event : Type :=
| EvStore (cache_before : KVCache) (key value slots : Tensor)
| EvAttention (query key value : Tensor) (cache : KVCache) (scale : R)
| EvPagedAttention (query : Tensor) (cache : KVCache) (mapping : list Z) (scale : R).

(** [FlashLlamaAttention.forward]: the output, the cache after the call and
    the calls made. *)
Definition FlashLlamaAttention_forward (K : Kernels) (self : FlashLlamaAttention)
    (hidden_states cos sin : Tensor) (cu_seqlen_prefill : option Tensor)
    (kv_cache : KVCache) (slots : Tensor) (seqlen : Seqlen)
    (adapter_data : AdapterData) (hpu_attention_meta : option Meta)
  : Tensor * KVCache * list event :=
  let qkv := query_key_value self hidden_states adapter_data in
  let '(query, key, value) :=
    split_qkv K (head_size self) (num_heads self) (num_kv_heads self) qkv in
  (* the rotary embedding rewrites query and key in place *)
  let '(query, key) := rotary_emb self query key cos sin in
  let cache0 := kv_cache in
  let kv_cache := kv_store K kv_cache key value slots (kv_scales self) in
  let ev_store := EvStore cache0 key value slots in
  let '(attn_output, ev_read) :=
    match cu_seqlen_prefill with
    | Some _ =>
        (attention K query key value (kv_scales self) kv_cache seqlen
                   (softmax_scale self),
         EvAttention query key value kv_cache (softmax_scale self))
    | None =>
        (paged_attention K query kv_cache (kv_head_mapping self)
                         (softmax_scale self) seqlen (kv_scales self)
                         hpu_attention_meta,
         EvPagedAttention query kv_cache (kv_head_mapping self)
                          (softmax_scale self))
    end in
  (o_proj self (view_output K (num_heads self * head_size self) attn_output)
          adapter_data,
   kv_cache,
   [ev_store; ev_read]).

Record FlashLlamaLayer : Type := mk_layer {
  self_attn : FlashLlamaAttention;
  mlp : Linear;
  input_layernorm : Norm;
  post_attention_layernorm : Norm;
  layer_residual_multiplier : option R
}.

(** [FlashLlamaLayer.__init__]. *)
Definition FlashLlamaLayer_init (index : Z) (prefix : string) (config : Config)
    (weights : Weights) (rotary_emb : Rotary) : result FlashLlamaLayer :=
  self_attn <-
    FlashLlamaAttention_init index (prefix ++ ".self_attn") config weights rotary_emb ;;
  mlp <- load_mlp weights config prefix index ;;
  input_layernorm <- load_norm weights (prefix ++ ".input_layernorm") ;;
  post_attention_layernorm <-
    load_norm weights (prefix ++ ".post_attention_layernorm") ;;
  ret {| self_attn := self_attn;
         mlp := mlp;
         input_layernorm := input_layernorm;
         post_attention_layernorm := post_attention_layernorm;
         layer_residual_multiplier := residual_multiplier config |}.

(** [x *= self.residual_multiplier] under [if ... is not None]. *)
Definition apply_residual_multiplier (K : Kernels) (m : option R) (x : Tensor) : Tensor :=
  match m with
  | Some r => scale_by K x r
  | None => x
  end.

(** [FlashLlamaLayer.forward]. *)
Definition FlashLlamaLayer_forward (K : Kernels) (self : FlashLlamaLayer)
    (hidden_states : Tensor) (residual : option Tensor) (cos sin : Tensor)
    (cu_seqlen_prefill : option Tensor) (kv_cache : KVCache) (slots : Tensor)
    (seqlen : Seqlen) (adapter_data : AdapterData)
    (hpu_attention_meta : option Meta)
  : (Tensor * Tensor) * KVCache * list event :=
  let '(normed_hidden_states, res) := input_layernorm self hidden_states residual in
  let '(attn_output, kv_cache, trace) :=
    FlashLlamaAttention_forward K (self_attn self) normed_hidden_states cos sin
      cu_seqlen_prefill kv_cache slots seqlen adapter_data hpu_attention_meta in
  let attn_output :=
    apply_residual_multiplier K (layer_residual_multiplier self) attn_output in
  let '(normed_attn_res_output, attn_res) :=
    post_attention_layernorm self attn_output (Some res) in
  let mlp_output := mlp self normed_attn_res_output adapter_data in
  let mlp_output :=
    apply_residual_multiplier K (layer_residual_multiplier self) mlp_output in
  ((mlp_output, attn_res), kv_cache, trace).

(** The per-layer composition in the words of the specification: pre-norm of
    (input, running residual), attention, optional scaling, post-norm of
    (attention output, residual), MLP, the same optional scaling, and the pair
    (mlp output, residual) as result. *)
Definition decoder_layer_spec (preNorm postNorm : Norm)
    (Attention MLP_or_MoE scaling : Tensor -> Tensor)
    (input : Tensor) (running_residual : option Tensor) : Tensor * Tensor :=
  let '(normed, residual) := preNorm input running_residual in
  let attn_out := scaling (Attention normed) in
  let '(normed2, residual) := postNorm attn_out (Some residual) in
  let mlp_out := scaling (MLP_or_MoE normed2) in
  (mlp_out, residual).

End Layers.

Arguments Weights : clear implicits.
Arguments FlashLlamaAttention : clear implicits.
Arguments FlashLlamaLayer : clear implicits.
Arguments Kernels : clear implicits.
Arguments event : clear implicits.
Arguments Linear : clear implicits.
Arguments Norm : clear implicits.
Arguments Rotary : clear implicits.

End FlashLlama.

(** ** models/__init__.py *)

Module Models.

(** The entries of [config_dict] that the gate reads. *)
Record ConfigDict : Type := mk_config_dict {
  sliding_window : option Z
}.

(** Where a call of [get_model] ends: in a [raise] before the sliding-window
    gate, in the [raise] of the gate, or in the selection of a model class,
    which itself returns a model or raises. *)
Inductive outcome (Model : Type) : Type :=
| RaisedBefore (e : exn)
| RaisedSlidingWindow (sliding_window max_input_tokens : Z)
| Selected (r : result Model).

Arguments RaisedBefore {Model} e.
Arguments RaisedSlidingWindow {Model} sliding_window max_input_tokens.
Arguments Selected {Model} r.

(** The three flags of the gate, as the source computes them. *)
Definition effective_sliding_window (config_dict : ConfigDict) : Z :=
  match sliding_window config_dict with
  | Some s => s
  | None => -1
  end.

Definition use_sliding_window (config_dict : ConfigDict) : bool :=
  negb (effective_sliding_window config_dict =? -1).

Definition needs_sliding_window (config_dict : ConfigDict)
    (max_input_tokens : option Z) : bool :=
  match max_input_tokens with
  | Some m => effective_sliding_window config_dict <? m
  | None => false
  end.

Section GetModel.

Context {Args Model : Type}.

(** The backend capability imported from the attention layers. *)
Variable SUPPORTS_WINDOWING : bool.

(** Everything [get_model] does before the gate (configuration lookup,
    quantization and speculation set-up, resolution of the model type). *)
Variable resolve_config : Args -> result ConfigDict.

(** The chain of [if model_type == ...] branches after the gate. *)
Variable select_model : Args -> ConfigDict -> result Model.

Definition get_model (args : Args) (max_input_tokens : option Z) : outcome Model :=
  match resolve_config args with
  | inl e => RaisedBefore e
  | inr config_dict =>
      if use_sliding_window config_dict
         && needs_sliding_window config_dict max_input_tokens
         && negb SUPPORTS_WINDOWING
      then RaisedSlidingWindow (effective_sliding_window config_dict)
                               (match max_input_tokens with Some m => m | None => 0 end)
      else Selected (select_model args config_dict)
  end.

End GetModel.

End Models.

Import FlashLlama.
Import Models.

(** ** qwen2_vl.py, continued: rotary positions of the vision tower, the
    patch merger and the embedding of the prompt *)

Module Qwen2Vision.

(** The entries of a row-major tensor of shape [a, b, c, d], listed in the
    order of [permute(0, 2, 1, 3).flatten()]: entry [(i, j, k, l)] is taken
    by [f i j k l], and [k] runs before [j]. *)
Definition blocks {X : Type} (a b c d : nat) (f : nat -> nat -> nat -> nat -> X)
  : list X :=
  flat_map (fun i =>
    flat_map (fun k =>
      flat_map (fun j => map (fun l => f i j k l) (seq 0 d)) (seq 0 b))
      (seq 0 c))
    (seq 0 a).

(** [x.reshape(a, b, c, d).permute(0, 2, 1, 3).flatten()] on the row-major
    contents [x].  Sizes are taken non-negative and must multiply to the
    number of elements; torch's special size -1 is used by no caller, and a
    negative size is answered by [RuntimeError]. *)
Definition reshape_permute_flatten (x : list Z) (a b c d : Z) : result (list Z) :=
  if (a <? 0) || (b <? 0) || (c <? 0) || (d <? 0) then raise RuntimeError
  else if negb (Z.of_nat (length x) =? a * b * c * d) then raise RuntimeError
  else
    let b' := Z.to_nat b in
    let c' := Z.to_nat c in
    let d' := Z.to_nat d in
    ret (blocks (Z.to_nat a) b' c' d'
           (fun i j k l => nth (((i * b' + j) * c' + k) * d' + l) x 0)).

(** [torch.arange(h).unsqueeze(1).expand(-1, w)], row-major: row [i] holds
    [w] copies of [i]. *)
Definition expand_columns (h w : Z) : result (list Z) :=
  ar <- arange h ;; repeat_interleave ar w.

(** [torch.arange(w).unsqueeze(0).expand(h, -1)], row-major: [h] copies of
    the row [0 .. w-1]. *)
Definition expand_rows (h w : Z) : result (list Z) :=
  ar <- arange w ;; tensor_repeat ar h.

(** The body of the loop [for t, h, w in grid_thw] of
    [Qwen2VisionModel.forward]: the (height, width) position of every patch
    of one grid, [torch.stack([hpos_ids, wpos_ids], dim=-1).repeat(t, 1)]. *)
Definition grid_pos_ids (spatial_merge_size : Z) (g : grid_thw)
  : result (list (Z * Z)) :=
  let t := grid_t g in
  let h := grid_h g in
  let w := grid_w g in
  hpos <- expand_columns h w ;;
  hm <- floordiv h spatial_merge_size ;;
  wm <- floordiv w spatial_merge_size ;;
  hpos_ids <-
    reshape_permute_flatten hpos hm spatial_merge_size wm spatial_merge_size ;;
  wpos <- expand_rows h w ;;
  wpos_ids <-
    reshape_permute_flatten wpos hm spatial_merge_size wm spatial_merge_size ;;
  stacked <- stack_pairs hpos_ids wpos_ids ;;
  if t <? 0 then raise RuntimeError
  else ret (concat (repeat stacked (Z.to_nat t))).

(** [pos_ids = torch.cat(pos_ids, dim=0)]: refused for an empty list. *)
Definition pos_ids (spatial_merge_size : Z) (grid : list grid_thw)
  : result (list (Z * Z)) :=
  per_grid <- mapM (grid_pos_ids spatial_merge_size) grid ;;
  match per_grid with
  | [] => raise RuntimeError
  | _ => ret (concat per_grid)
  end.

(** [max_grid_size = grid_thw[:, 1:].max()]. *)
Definition max_grid_size (grid : list grid_thw) : result Z :=
  vector_max (flat_map (fun g => [grid_h g; grid_w g]) grid).

(** [table[i]] for a Python index: a negative index counts from the end. *)
Definition index_row {A : Type} (table : list A) (i : Z) : result A :=
  let n := Z.of_nat (length table) in
  if (i <? - n) || (n <=? i) then raise IndexError
  else item table (Z.to_nat (if i <? 0 then i + n else i)).

(** [rotary_pos_emb_full[pos_ids]]: for every patch the table row of its
    height position and the table row of its width position. *)
Definition rotary_pos_emb {A : Type} (rotary_pos_emb_full : list A)
    (pos_ids : list (Z * Z)) : result (list (A * A)) :=
  mapM (fun p =>
          a <- index_row rotary_pos_emb_full (fst p) ;;
          b <- index_row rotary_pos_emb_full (snd p) ;;
          ret (a, b))
       pos_ids.

(** The (height, width) positions of an [hm * m] by [wm * m] grid listed
    merge block by merge block: the blocks in row-major order, and the
    [m * m] positions of a block in row-major order. *)
Definition merge_order (hm wm m : nat) : list (Z * Z) :=
  blocks hm m wm m
    (fun i j k l => (Z.of_nat (i * m + j), Z.of_nat (k * m + l))).

(** [hidden_states.view(-1, hidden_size)] in [Qwen2VLPatchMerger.forward],
    on the rows of a contiguous [n, embed_dim] tensor with
    [hidden_size = embed_dim * spatial_merge_size ** 2] and a positive
    [embed_dim]: groups of [spatial_merge_size ** 2] consecutive rows. *)
Fixpoint chunks {A : Type} (size : nat) (fuel : nat) (rows : list A) : list (list A) :=
  match fuel with
  | O => []
  | S fuel' => firstn size rows :: chunks size fuel' (skipn size rows)
  end.

Definition merger_view {A : Type} (spatial_merge_size : Z) (rows : list A)
  : result (list (list A)) :=
  let size := spatial_merge_size * spatial_merge_size in
  if size =? 0 then raise RuntimeError
  else if negb (Z.of_nat (length rows) mod size =? 0) then raise RuntimeError
  else ret (chunks (Z.to_nat size) (length rows / Z.to_nat size) rows).

(** [rows[i] = v] for an index inside the tensor. *)
Fixpoint set_item {A : Type} (rows : list A) (i : nat) (v : A) : list A :=
  match rows, i with
  | [], _ => []
  | _ :: r, O => v :: r
  | x :: r, S i' => x :: set_item r i' v
  end.

(** [rows[(indices,)] = values]: the values are broadcast to one row per
    index (equal counts, or a single value row), every index must lie inside
    the tensor, and the rows are written in the order of the indices. *)
Definition index_put {A : Type} (rows : list A) (indices : list Z) (values : list A)
  : result (list A) :=
  values <-
    (if (length values =? length indices)%nat then ret values
     else match values with
          | [v] => ret (repeat v (length indices))
          | _ => raise RuntimeError
          end) ;;
  if existsb (fun i => (i <? 0) || (Z.of_nat (length rows) <=? i)) indices
  then raise IndexError
  else ret (fold_left (fun acc p => set_item acc (Z.to_nat (fst p)) (snd p))
                      (combine indices values) rows).

(** [get_inputs_embeds]: the token embeddings, with the rows at the image
    tokens overwritten by [vision_embeds] when these are given. *)
Definition get_inputs_embeds {A : Type} (image_token_id : Z)
    (embed_tokens : list Z -> list A) (input_ids : list Z)
    (vision_embeds : option (list A)) : result (list A) :=
  let inputs_embeds := embed_tokens input_ids in
  match vision_embeds with
  | Some vision_embeds =>
      let mask := where_eq input_ids image_token_id in
      index_put inputs_embeds mask vision_embeds
  | None => ret inputs_embeds
  end.

(** [Qwen2VisionModel.forward] from [grid_thw] to what it hands to its
    blocks: the position-id loop, [max_grid_size], the lookup of the rotary
    table (which has one row per entry of [torch.arange(max_grid_size)]), and
    then [cu_seqlens] and [max_seqlen].  An exception in one of the steps
    ends the call there.  The patch embedding of [pixel_values], which comes
    first, is a collaborator and is taken to go through. *)
Definition vision_segments (spatial_merge_size : Z) (grid : list grid_thw)
  : result (list Z * Z) :=
  ids <- pos_ids spatial_merge_size grid ;;
  max_grid_size <- max_grid_size grid ;;
  seq <- arange max_grid_size ;;
  _ <- rotary_pos_emb seq ids ;;
  cu_seqlens <- vision_cu_seqlens grid ;;
  max_seqlen <- vision_max_seqlen cu_seqlens ;;
  ret (cu_seqlens, max_seqlen).

(** The attention mask of the first block in a call of the vision tower. *)
Definition vision_tower_mask (spatial_merge_size : Z) (grid : list grid_thw)
  : result bool_mask :=
  segments <- vision_segments spatial_merge_size grid ;;
  attention_mask (fst segments) (snd segments).

End Qwen2Vision.

(** ** flash_llama_modeling.py, continued: the adapter layout of the fused
    projection and the stack of decoder layers *)

Module LlamaModel.

(** [range(a, b)]. *)
Definition py_range (a b : Z) : list Z :=
  map (fun i => a + Z.of_nat i) (seq 0 (Z.to_nat (b - a))).

(** What [load_attention] hands to the multi-adapter layer besides the base
    layer: the names of the adapted projections and, when the projections
    are loaded one by one, their output sizes. *)
Definition load_attention_layout (model_type : string) (config : Config)
    (prefix : string) : result (list string * option (list Z)) :=
  head_size <- floordiv (hidden_size config) (num_attention_heads config) ;;
  if String.eqb model_type "phi3" then ret (["qkv_proj"%string], None)
  else if String.eqb model_type "baichuan"
  then ret ([(prefix ++ ".W_pack")%string], None)
  else ret (["q_proj"; "k_proj"; "v_proj"]%string,
            Some [head_size * num_attention_heads config;
                  head_size * num_key_value_heads config;
                  head_size * num_key_value_heads config]).

(** The sizes of [qkv.split(...)] in [FlashLlamaAttention.forward]. *)
Definition forward_split_sizes {Tensor AdapterData Scales : Type}
    (self : FlashLlamaAttention Tensor AdapterData Scales) : list Z :=
  [head_size self * num_heads self; 2 * head_size self * num_kv_heads self].

(** The constructor calls of [FlashLlamaModel.__init__], in order: the layer
    index, the class that is instantiated, and whether the call is made
    inside [with no_fp8(weights)] at the level of the model. *)
Inductive layer_class : Type := FlashLlamaLayerClass | FlashLlamaCrossLayerClass.

Record layer_call : Type := mk_layer_call {
  layer_id : Z;
  layer_cls : layer_class;
  skips_fp8 : bool
}.

Definition layer_calls (num_hidden_layers : Z) (cross_attention_layers : list Z)
  : list layer_call :=
  [mk_layer_call 0 FlashLlamaLayerClass true]
  ++ map (fun layer_id =>
            if existsb (Z.eqb layer_id) cross_attention_layers
            then mk_layer_call layer_id FlashLlamaCrossLayerClass false
            else mk_layer_call layer_id FlashLlamaLayerClass false)
         (py_range 1 (num_hidden_layers - 1))
  ++ [mk_layer_call (num_hidden_layers - 1) FlashLlamaLayerClass true].

Section Stack.

Context {Tensor KVCache Seqlen AdapterData Meta Scales : Type}.

(** A layer of the stack as [FlashLlamaModel.forward] calls it: any object
    with the call signature of a decoder layer. *)
Definition layer_forward : Type :=
  Tensor -> option Tensor -> Tensor -> Tensor -> option Tensor -> KVCache ->
  Tensor -> Seqlen -> AdapterData -> option Tensor -> option Meta ->
  (Tensor * Tensor) * KVCache * list (event Tensor KVCache).

(** A [FlashLlamaLayer] in the stack; it ignores [cross_attention_states]. *)
Definition self_attention_layer
    (K : Kernels Tensor KVCache Seqlen Meta Scales)
    (layer : FlashLlamaLayer Tensor AdapterData Scales) : layer_forward :=
  fun hidden_states residual cos sin cu_seqlen_prefill kv_cache slots seqlen
      adapter_data _ hpu_attention_meta =>
    FlashLlamaLayer_forward K layer hidden_states residual cos sin
      cu_seqlen_prefill kv_cache slots seqlen adapter_data hpu_attention_meta.

(** The loop over the layers: layer [i] works on [kv_cache[i]], which it
    updates in place.  The result carries the caches and the calls made up to
    the point where the loop ended, also when it ended in an exception. *)
Fixpoint run_layers (layers : list layer_forward) (i : nat)
    (hidden_states : Tensor) (residual : option Tensor) (cos sin : Tensor)
    (cu_seqlen_prefill : option Tensor) (kv_cache : list KVCache)
    (slots : Tensor) (seqlen : Seqlen) (adapter_data : AdapterData)
    (cross_attention_states : option Tensor) (hpu_attention_meta : option Meta)
  : result (Tensor * option Tensor) * list KVCache * list (event Tensor KVCache) :=
  match layers with
  | [] => (ret (hidden_states, residual), kv_cache, [])
  | layer :: rest =>
      match nth_error kv_cache i with
      | None => (raise IndexError, kv_cache, [])
      | Some cache =>
          let '((hidden_states, residual), cache, trace) :=
            layer hidden_states residual cos sin cu_seqlen_prefill cache slots
                  seqlen adapter_data cross_attention_states hpu_attention_meta in
          let kv_cache := Qwen2Vision.set_item kv_cache i cache in
          let '(r, kv_cache, trace') :=
            run_layers rest (S i) hidden_states (Some residual) cos sin
              cu_seqlen_prefill kv_cache slots seqlen adapter_data
              cross_attention_states hpu_attention_meta in
          (r, kv_cache, trace ++ trace')
      end
  end.

(** [FlashLlamaModel.forward].  [set_block_mapping] and [get_cos_sin] are
    collaborators; the graph flushes of lazy mode do not change values. *)
Definition FlashLlamaModel_forward
    (set_block_mapping : Meta -> Tensor -> Meta)
    (get_cos_sin : Tensor -> Tensor * Tensor)
    (layers : list layer_forward) (norm : Norm Tensor)
    (inputs_embeds position_ids : Tensor) (cu_seqlen_prefill : option Tensor)
    (kv_cache : list KVCache) (slots : Tensor) (seqlen : Seqlen)
    (adapter_data : AdapterData) (hpu_attention_meta : option Meta)
    (cross_attention_states : option Tensor)
  : result Tensor * list KVCache * list (event Tensor KVCache) :=
  let hpu_attention_meta :=
    match hpu_attention_meta with
    | Some meta => Some (set_block_mapping meta inputs_embeds)
    | None => None
    end in
  match layers with
  | [] => (raise IndexError, kv_cache, [])
  | _ =>
      let '(cos, sin) := get_cos_sin position_ids in
      let '(r, kv_cache, trace) :=
        run_layers layers 0 inputs_embeds None cos sin cu_seqlen_prefill kv_cache
          slots seqlen adapter_data cross_attention_states hpu_attention_meta in
      (match r with
       | inl e => inl e
       | inr (hidden_states, residual) => ret (fst (norm hidden_states residual))
       end,
       kv_cache, trace)
  end.

End Stack.

End LlamaModel.

(** ** models/__init__.py, continued: what [get_model] settles before the
    sliding-window gate, and the loading of adapters after it *)

Module ModelSetup.

(** Exceptions of this part: the built-in ones of [Py.exn] and [KeyError]. *)
Inductive raised : Type :=
| Builtin (e : exn)
| KeyError (key : string).

Inductive log_line : Type :=
| LogInfo (text : string)
| LogWarning (text : string).

(** [method == m] for a value that may be [None]. *)
Definition method_eq (method : option string) (m : string) : bool :=
  match method with
  | Some x => String.eqb x m
  | None => false
  end.

(** [f"{method}"]. *)
Definition format_method (method : option string) : string :=
  match method with
  | Some x => x
  | None => "None"
  end.

(** The automatic choice of the quantization method at the top of
    [get_model].  A configuration dictionary ([quantization_config], or
    [compression_config] when the former is absent) is given by the value of
    its [quant_method] entry, [None] when it has none.  The result is the
    value of [quantize] afterwards and the lines logged. *)
Definition select_quantize
    (quantization_config compression_config : option (option string))
    (quantize : option string) : option string * list log_line :=
  let quantization_config :=
    match quantization_config with
    | Some c => Some c
    | None => compression_config
    end in
  match quantization_config, quantize with
  | Some method, None =>
      let '(quantize, logs) :=
        if method_eq method "gptq" || method_eq method "awq"
           || method_eq method "exl2"
        then (method,
              [LogInfo ("Auto selecting quantization method "
                        ++ format_method method)%string])
        else if method_eq method "fbgemm_fp8" || method_eq method "fp8"
        then (Some "fp8"%string,
              [LogInfo "Auto selecting quantization method fp8"])
        else (None, []) in
      if method_eq method "compressed-tensors"
      then (Some "compressed-tensors"%string,
            logs ++ [LogInfo "Auto selecting quantization method compressed-tensors"])
      else (quantize,
            logs ++ [LogWarning ("Unknown quantization method "
                                 ++ format_method method)%string])
  | _, _ => (quantize, [])
  end.

(** The entries of [config_dict] the speculation set-up reads. *)
Record SpeculatorConfig : Type := mk_speculator_config {
  model_type : option string;
  medusa_num_heads : option Z;
  n_predict : option Z;
  base_model_name_or_path : option string
}.

Section Speculation.

Context {Speculator : Type}.

(** [PretrainedConfig.get_config_dict] of the base model, and the lookup or
    download of the speculator files. *)
Variable get_config_dict : string -> raised + SpeculatorConfig.
Variable fetch_speculator : string -> string -> raised + Speculator.

(** [if speculate is not None: if speculate > heads: raise ... else:
    set_speculate(speculate) else: set_speculate(heads)], on the value
    [global] of the process-wide speculation setting. *)
Definition check_heads (speculate : option Z) (heads global : Z)
  : (raised + unit) * Z :=
  match speculate with
  | Some s =>
      if heads <? s then (inl (Builtin RuntimeError), global) else (inr tt, s)
  | None => (inr tt, heads)
  end.

Definition load_speculator (kind base : string) (model_id : string) (g : Z)
  : (raised + (string * string * SpeculatorConfig * option Speculator)) * Z :=
  match get_config_dict base with
  | inl e => (inl e, g)
  | inr config_dict =>
      match fetch_speculator kind model_id with
      | inl e => (inl e, g)
      | inr speculator => (inr (kind, base, config_dict, Some speculator), g)
      end
  end.

(** The speculation set-up of [get_model]: the method, the model id and the
    configuration to continue with and the speculator, or the exception
    raised; and in both cases the process-wide speculation setting that the
    calls of [set_speculate] leave behind. *)
Definition resolve_speculation (model_id : string) (config_dict : SpeculatorConfig)
    (speculate : option Z)
  : (raised + (string * string * SpeculatorConfig * option Speculator)) * Z :=
  let global := match speculate with Some s => s | None => 0 end in
  match medusa_num_heads config_dict with
  | Some speculate_medusa =>
      match base_model_name_or_path config_dict with
      | None => (inl (KeyError "base_model_name_or_path"), global)
      | Some base =>
          match check_heads speculate speculate_medusa global with
          | (inl e, g) => (inl e, g)
          | (inr _, g) => load_speculator "medusa" base model_id g
          end
      end
  | None =>
      if match model_type config_dict with
         | Some t => String.eqb t "mlp_speculator"
         | None => false
         end
      then
        match base_model_name_or_path config_dict with
        | None => (inl (KeyError "base_model_name_or_path"), global)
        | Some base =>
            match n_predict config_dict with
            | None => (inl (KeyError "n_predict"), global)
            | Some speculate_mlp =>
                match check_heads speculate speculate_mlp global with
                | (inl e, g) => (inl e, g)
                | (inr _, g) => load_speculator "mlp_speculator" base model_id g
                end
            end
        end
      else (inr ("n-gram"%string, model_id, config_dict, None), global)
  end.

(** The number of heads of the speculator checkpoint, if it is one. *)
Definition speculator_heads (config_dict : SpeculatorConfig) : option Z :=
  match medusa_num_heads config_dict with
  | Some h => Some h
  | None =>
      if match model_type config_dict with
         | Some t => String.eqb t "mlp_speculator"
         | None => false
         end
      then n_predict config_dict
      else None
  end.

End Speculation.

(** *** [get_model_with_lora_adapters] *)

(** [d[key] = value] on a dictionary kept in insertion order. *)
Fixpoint dict_set (d : list (string * Z)) (key : string) (value : Z)
  : list (string * Z) :=
  match d with
  | [] => [(key, value)]
  | (k, v) :: r =>
      if String.eqb k key then (k, value) :: r else (k, v) :: dict_set r key value
  end.

Fixpoint dict_get (d : list (string * Z)) (key : string) : option Z :=
  match d with
  | [] => None
  | (k, v) :: r => if String.eqb k key then Some v else dict_get r key
  end.

(** The state the adapter loop works on: the caller's [adapter_to_index],
    the model's [loaded_adapters] (a set, kept as the list of additions) and
    the calls of [add_adapter] as (layer name, adapter index). *)
Record adapter_state : Type := mk_adapter_state {
  adapter_to_index : list (string * Z);
  loaded_adapters : list Z;
  added_adapters : list (string * Z)
}.

Definition adapter_layers : list string :=
  ["q_proj"; "k_proj"; "v_proj"; "o_proj"; "gate_proj"; "up_proj"; "down_proj";
   "qkv_proj"; "c_proj"; "c_fc"]%string.

Section Adapters.

Context {Loaded Weights Unused : Type}.

(** [load_and_merge_adapters] for an adapter id and index; the copy of
    [adapter_weight_names] the adapter starts with; and
    [LoraWeights.prepare_weights] for a layer name and the [nlayers] it is
    given, which works on [unused_weight_names] and may find nothing. *)
Variable load_and_merge_adapters : string -> Z -> raised + Loaded.
Variable adapter_weight_names : Loaded -> Unused.
Variable prepare_weights :
  Loaded -> string -> Z -> Unused -> raised + (option Weights * Unused).

(** The inner loop [for layer_name in adapter_layers], with the calls of
    [add_adapter] made so far. *)
Fixpoint add_adapter_layers (layer_names : list string) (loaded : Loaded)
    (num_layers adapter_index : Z) (unused : Unused)
    (added : list (string * Z)) : (raised + unit) * list (string * Z) :=
  match layer_names with
  | [] => (inr tt, added)
  | layer_name :: rest =>
      let nlayers := if String.eqb layer_name "lm_head" then 1 else num_layers in
      match prepare_weights loaded layer_name nlayers unused with
      | inl e => (inl e, added)
      | inr (None, unused) =>
          add_adapter_layers rest loaded num_layers adapter_index unused added
      | inr (Some _, unused) =>
          add_adapter_layers rest loaded num_layers adapter_index unused
                             (added ++ [(layer_name, adapter_index)])
      end
  end.

(** The loop [for index, adapter in enumerate(lora_adapters)], from position
    [index] on; an exception leaves the state as it is at that point. *)
Fixpoint load_adapters (lora_adapters : list string) (index : Z) (num_layers : Z)
    (st : adapter_state) : (raised + unit) * adapter_state :=
  match lora_adapters with
  | [] => (inr tt, st)
  | adapter_id :: rest =>
      let adapter_index := index + 1 in
      let st :=
        mk_adapter_state (dict_set (adapter_to_index st) adapter_id adapter_index)
                         (loaded_adapters st) (added_adapters st) in
      match load_and_merge_adapters adapter_id adapter_index with
      | inl e => (inl e, st)
      | inr loaded =>
          match add_adapter_layers adapter_layers loaded num_layers adapter_index
                                   (adapter_weight_names loaded)
                                   (added_adapters st) with
          | (inl e, added) =>
              (inl e, mk_adapter_state (adapter_to_index st)
                                       (loaded_adapters st) added)
          | (inr _, added) =>
              load_adapters rest (index + 1) num_layers
                (mk_adapter_state (adapter_to_index st)
                                  (loaded_adapters st ++ [adapter_index]) added)
          end
      end
  end.

End Adapters.

End ModelSetup.

(** ** Sample objects

    Concrete configurations on which the statements below are instantiated:
    activations are integers and the collaborators are the simplest ones. *)

Module Samples.

Definition id_linear : Linear Z unit := fun x _ => x.
Definition id_norm : Norm Z :=
  fun x residual => (x, match residual with Some r => x + r | None => x end).
Definition id_rotary : Rotary Z := fun q k _ _ => (q, k).

(** A power function without rounding. *)
Definition int_pow (n : Z) (y : R) : R := Rpower (IZR n) y.

Definition weights (shards : Z) : Weights Z unit unit :=
  {| process_group_size := shards;
     load_attention := fun _ _ _ => inr id_linear;
     get_kv_scales := fun _ => inr tt;
     load_o_proj := fun _ _ _ => inr id_linear;
     load_mlp := fun _ _ _ => inr id_linear;
     load_norm := fun _ => inr id_norm |}.

(** 32 query heads of dimension 128 and 8 key/value heads. *)
Definition llama_config : Config :=
  {| num_attention_heads := 32;
     hidden_size := 4096;
     num_key_value_heads := 8;
     attention_multiplier := None;
     residual_multiplier := None |}.

(** The same heads with the two multipliers of the Granite family. *)
Definition granite_config : Config :=
  {| num_attention_heads := 32;
     hidden_size := 4096;
     num_key_value_heads := 8;
     attention_multiplier := Some (1 / 128)%R;
     residual_multiplier := Some (22 / 100)%R |}.

Definition kernels : Kernels Z (list Z) unit unit unit :=
  {| split_qkv := fun _ _ _ x => (x, x, x);
     view_output := fun _ x => x;
     scale_by := fun x _ => x;
     kv_store := fun cache key _ _ _ => key :: cache;
     attention := fun q _ _ _ _ _ _ => q;
     paged_attention := fun q _ _ _ _ _ _ => q |}.

(** A prompt with two images, merge size 2. *)
Definition qwen : Qwen2VLForConditionalGeneration :=
  {| spatial_merge_size := 2;
     vision_start_token_id := 151652;
     vision_end_token_id := 151653 |}.

Definition two_image_prompt : list Z :=
  [151652; 151655; 151655; 151653; 198;
   151652; 151655; 151655; 151655; 151655; 151653].

Definition two_image_grids : list grid_thw := [mk_grid 1 2 4; mk_grid 2 2 4].

End Samples.

(** * Properties *)

(** ** Worked inputs *)

Example get_position_ids_demo :
  get_position_ids (mk_model 1 100 101) [7; 8; 100; 5; 5; 5; 5; 101; 9]
                   (Some [mk_grid 1 2 2])
  = inr [[0;0;0]; [1;1;1]; [2;2;2]; [3;3;3]; [3;3;4]; [3;4;3]; [3;4;4];
         [5;5;5]; [6;6;6]].
Proof. vm_compute. reflexivity. Qed.

Example get_position_ids_two_segments_demo :
  get_position_ids (mk_model 2 100 101)
                   [100; 5; 5; 101; 9; 100; 5; 5; 5; 5; 101]
                   (Some [mk_grid 1 2 4; mk_grid 2 2 4])
  = inr [[0;0;0]; [1;1;1]; [1;1;2]; [3;3;3]; [4;4;4]; [5;5;5];
         [6;6;6]; [6;6;7]; [7;6;6]; [7;6;7]; [8;8;8]].
Proof. vm_compute. reflexivity. Qed.

(** The start marker is itself a text position: with three text tokens
    before it, the vision ids are offset by 4. *)
Example get_position_ids_marker_is_text :
  get_position_ids (mk_model 1 100 101) [7; 8; 9; 100; 5; 5; 5; 5; 101; 6; 6]
                   (Some [mk_grid 1 2 2])
  = inr [[0;0;0]; [1;1;1]; [2;2;2]; [3;3;3]; [4;4;4]; [4;4;5]; [4;5;4]; [4;5;5];
         [6;6;6]; [7;7;7]; [8;8;8]].
Proof. vm_compute. reflexivity. Qed.

(** Degenerate inputs on which the builder raises: no marker pair at all, and
    a last marker pair that encloses no vision token. *)
Example get_position_ids_no_segment :
  get_position_ids (mk_model 2 100 101) [7; 8; 9] (Some []) = inl IndexError.
Proof. vm_compute. reflexivity. Qed.

Example get_position_ids_empty_last_segment :
  get_position_ids (mk_model 2 100 101) [7; 100; 101; 8] (Some [mk_grid 1 1 1])
  = inl RuntimeError.
Proof. vm_compute. reflexivity. Qed.

Example attention_mask_demo :
  attention_mask [0; 2; 3] 3
  = inr [[true; true; false]; [true; true; false]; [false; false; true]].
Proof. vm_compute. reflexivity. Qed.

(** ** Helper lemmas on the error monad and on lists *)

Lemma bind_inr {A B : Type} (m : result A) (k : A -> result B) (a : A) :
  m = inr a -> bind m k = k a.
Proof. intros ->. reflexivity. Qed.

Lemma arange_ok (n : Z) :
  0 <= n -> arange n = inr (map Z.of_nat (seq 0 (Z.to_nat n))).
Proof.
  intros Hn. unfold arange.
  destruct (n <? 0) eqn:E; [apply Z.ltb_lt in E; lia | reflexivity].
Qed.

Lemma floordiv_ok (a b : Z) : b <> 0 -> floordiv a b = inr (a / b).
Proof.
  intros Hb. unfold floordiv.
  destruct (b =? 0) eqn:E; [apply Z.eqb_eq in E; contradiction | reflexivity].
Qed.

Lemma pymod_ok (a b : Z) : b <> 0 -> pymod a b = inr (a mod b).
Proof.
  intros Hb. unfold pymod.
  destruct (b =? 0) eqn:E; [apply Z.eqb_eq in E; contradiction | reflexivity].
Qed.

(** ** Text-only position ids *)

(** C5.  Without vision grids ([image_grid_thw] is [None]) and for an input of
    [N] tokens, [get_position_ids] returns [N] rows of three entries, and row
    [i] is [i] on the temporal, the height and the width axis. *)
Theorem get_position_ids_without_grids
    (self : Qwen2VLForConditionalGeneration) (input_ids : list Z) :
  exists rows,
    get_position_ids self input_ids None = inr rows
    /\ length rows = length input_ids
    /\ (forall row, In row rows -> length row = 3%nat)
    /\ (forall i, (i < length input_ids)%nat ->
          nth_error rows i = Some [Z.of_nat i; Z.of_nat i; Z.of_nat i]).
Proof.
  exists (map (fun i => [i; i; i]) (map Z.of_nat (seq 0 (length input_ids)))).
  repeat split.
  - unfold get_position_ids.
    rewrite arange_ok by lia. rewrite Nat2Z.id. reflexivity.
  - now rewrite !length_map, length_seq.
  - intros row Hin. apply in_map_iff in Hin as (i & <- & _). reflexivity.
  - intros i Hi. rewrite map_map.
    rewrite nth_error_map, nth_error_seq.
    destruct (i <? length input_ids)%nat eqn:E.
    + reflexivity.
    + apply Nat.ltb_ge in E. lia.
Qed.

(** ** One vision segment between text *)

Ltac decide_tokens :=
  repeat match goal with
         | |- context [?a =? ?a] => rewrite (Z.eqb_refl a)
         | H : ?a <> ?b |- context [?a =? ?b] => rewrite (proj2 (Z.eqb_neq a b) H)
         | H : ?b <> ?a |- context [?a =? ?b] =>
             rewrite (proj2 (Z.eqb_neq a b) (not_eq_sym H))
         end.

Lemma image_position_ids_merged (sms t h w : Z) :
  0 < sms ->
  image_position_ids sms (mk_grid t (h * sms) (w * sms))
  = image_position_ids 1 (mk_grid t h w).
Proof.
  intros Hsms. unfold image_position_ids. cbn [grid_t grid_h grid_w].
  rewrite !floordiv_ok by lia.
  rewrite !Z.div_mul by lia. rewrite !Z.div_1_r. reflexivity.
Qed.

Lemma tensor_floordiv_ok (x : list Z) (k : Z) :
  k <> 0 -> tensor_floordiv x k = inr (map (fun a => a / k) x).
Proof.
  intros Hk. unfold tensor_floordiv.
  destruct (k =? 0) eqn:E; [apply Z.eqb_eq in E; contradiction | reflexivity].
Qed.

(** C1.  A sequence of 3 text tokens (the third is the start marker, which the
    builder counts as text), a vision segment of merged grid (t=1, h=2, w=2),
    and 2 text tokens (the end marker first) gets: ids 0, 1, 2 on all three
    axes for the leading tokens; for the vision tokens, at rows 3..6, the
    row-major product of the grid offset by 3; and for the trailing tokens
    the ids that continue from the largest vision id plus one. *)
Theorem get_position_ids_single_segment
    (self : Qwen2VLForConditionalGeneration) (x1 x2 v1 v2 v3 v4 y : Z) :
  let S := vision_start_token_id self in
  let E := vision_end_token_id self in
  let sms := spatial_merge_size self in
  0 < sms ->
  S <> E ->
  Forall (fun x => x <> S /\ x <> E) [x1; x2; v1; v2; v3; v4; y] ->
  let vision := add_scalar (cartesian 1 2 2) 3 in
  exists mx,
    tensor_max vision = inr mx
    /\ get_position_ids self [x1; x2; S; v1; v2; v3; v4; E; y]
                        (Some [mk_grid 1 (2 * sms) (2 * sms)])
       = inr (transpose (expand3 [0; 1; 2] ++ vision ++ expand3 [mx + 1; mx + 2])).
Proof.
  destruct self as [sms S E].
  cbn [vision_start_token_id vision_end_token_id spatial_merge_size].
  intros Hsms HSE Htok.
  repeat match goal with
         | H : Forall _ (_ :: _) |- _ => inversion H; subst; clear H
         | H : _ /\ _ |- _ => destruct H
         end.
  exists 4. split; [reflexivity|].
  unfold get_position_ids, where_eq.
  cbn [where_from vision_start_token_id vision_end_token_id spatial_merge_size].
  decide_tokens.
  cbn -[Z.eqb Z.div Z.mul Z.add Z.sub Z.ltb].
  rewrite tensor_floordiv_ok by lia.
  rewrite image_position_ids_merged by lia.
  vm_compute. reflexivity.
Qed.

Lemma get_position_ids_single_segment_witness :
  exists mx,
    tensor_max (add_scalar (cartesian 1 2 2) 3) = inr mx
    /\ get_position_ids (mk_model 2 151652 151653)
         [9906; 1917; 151652; 151655; 151655; 151655; 151655; 151653; 198]
         (Some [mk_grid 1 4 4])
       = inr (transpose (expand3 [0; 1; 2] ++ add_scalar (cartesian 1 2 2) 3
                         ++ expand3 [mx + 1; mx + 2])).
Proof.
  apply (get_position_ids_single_segment (mk_model 2 151652 151653)
           9906 1917 151655 151655 151655 151655 198).
  - reflexivity.
  - discriminate.
  - repeat constructor; discriminate.
Defined.

(** ** Grouped heads: the shape of [arange(n).repeat_interleave(g)] *)

Lemma length_interleaved (g : nat) (l : list nat) :
  length (flat_map (fun a => repeat (Z.of_nat a) g) l) = (length l * g)%nat.
Proof.
  induction l as [|a l IH]; cbn [flat_map length]; [reflexivity|].
  rewrite length_app, repeat_length, IH. lia.
Qed.

Lemma nth_interleaved (g s n q : nat) :
  (q < n * g)%nat ->
  nth_error (flat_map (fun a => repeat (Z.of_nat a) g) (seq s n)) q
  = Some (Z.of_nat (s + q / g)).
Proof.
  revert s q. induction n as [|n IH]; intros s q Hq; [lia|].
  assert (Hg : (0 < g)%nat) by (destruct g; lia).
  cbn [seq flat_map].
  destruct (Nat.lt_ge_cases q g) as [Hlt|Hge].
  - rewrite nth_error_app1 by (rewrite repeat_length; lia).
    rewrite nth_error_repeat by lia.
    rewrite Nat.div_small by lia. now rewrite Nat.add_0_r.
  - rewrite nth_error_app2 by (rewrite repeat_length; lia).
    rewrite repeat_length, IH by lia.
    replace q with ((q - g) + 1 * g)%nat at 2 by lia.
    rewrite Nat.div_add by lia. f_equal. f_equal. lia.
Qed.

Lemma flat_map_of_nat (g : nat) (l : list nat) :
  flat_map (fun a => repeat a g) (map Z.of_nat l)
  = flat_map (fun a => repeat (Z.of_nat a) g) l.
Proof.
  induction l as [|a l IH]; cbn [map flat_map]; [reflexivity|now rewrite IH].
Qed.

(** ** The default softmax scale *)



(** ** Construction of the attention layer *)

Section AttentionLayer.

Context {Tensor KVCache Seqlen AdapterData Meta Scales : Type}.

Abbreviation WeightsT := (Weights Tensor AdapterData Scales).
Abbreviation AttentionT := (FlashLlamaAttention Tensor AdapterData Scales).
Abbreviation KernelsT := (Kernels Tensor KVCache Seqlen Meta Scales).

Variables (int_pow : Z -> R -> R)
          (idx : Z) (prefix : string) (config : Config) (weights : WeightsT)
          (rotary : Rotary Tensor).

(** What a successful construction went through. *)
Lemma attention_init_inversion (layer : AttentionT) :
  FlashLlamaAttention_init int_pow idx prefix config weights rotary
    = inr layer ->
  exists default_scale query_key_value kv_scales o_proj,
    num_attention_heads config <> 0
    /\ process_group_size weights <> 0
    /\ pow_neg_half int_pow (hidden_size config / num_attention_heads config)
       = inr default_scale
    /\ num_attention_heads config mod process_group_size weights = 0
    /\ num_key_value_heads config mod process_group_size weights = 0
    /\ num_heads layer = num_attention_heads config / process_group_size weights
    /\ num_kv_heads layer
       = num_key_value_heads config / process_group_size weights
    /\ num_kv_heads layer <> 0
    /\ 0 <= num_kv_heads layer
    /\ 0 <= num_heads layer / num_kv_heads layer
    /\ head_size layer = hidden_size config / num_attention_heads config
    /\ softmax_scale layer
       = match attention_multiplier config with
         | Some m => m
         | None => default_scale
         end
    /\ kv_head_mapping layer
       = flat_map (fun a => repeat a (Z.to_nat (num_heads layer / num_kv_heads layer)))
                  (map Z.of_nat (seq 0 (Z.to_nat (num_kv_heads layer))))
    /\ layer = {| num_heads := num_heads layer;
                  attn_hidden_size := hidden_size config;
                  head_size := head_size layer;
                  rotary_emb := rotary;
                  softmax_scale := softmax_scale layer;
                  num_kv_heads := num_kv_heads layer;
                  query_key_value := query_key_value;
                  index := idx;
                  kv_scales := kv_scales;
                  o_proj := o_proj;
                  num_groups := num_heads layer / num_kv_heads layer;
                  kv_head_mapping := kv_head_mapping layer |}.
Proof.
  unfold FlashLlamaAttention_init, floordiv, pymod, arange, repeat_interleave.
  cbn [bind ret raise].
  destruct (num_attention_heads config =? 0) eqn:Enh; [discriminate|].
  cbn [bind ret raise].
  destruct (pow_neg_half _) as [e|default_scale] eqn:Epow; [discriminate|].
  cbn [bind ret raise].
  destruct (process_group_size weights =? 0) eqn:Ew; [discriminate|].
  cbn [bind ret raise].
  destruct (num_attention_heads config mod process_group_size weights =? 0)
    eqn:Eh; [|discriminate].
  cbn [negb bind ret raise].
  destruct (num_key_value_heads config mod process_group_size weights =? 0)
    eqn:Ekv; [|discriminate].
  cbn [negb bind ret raise].
  destruct (load_attention weights config prefix idx) as [e|qkv]; [discriminate|].
  cbn [bind ret raise].
  destruct (get_kv_scales weights prefix) as [e|sc]; [discriminate|].
  cbn [bind ret raise].
  destruct (load_o_proj weights config prefix idx) as [e|op]; [discriminate|].
  cbn [bind ret raise].
  destruct (_ / _ =? 0) eqn:Ekv0; [discriminate|].
  cbn [bind ret raise].
  destruct (_ / _ <? 0) eqn:Eneg; [discriminate|].
  cbn [bind ret raise].
  destruct (_ / _ / _ <? 0) eqn:Egneg; [discriminate|].
  cbn [bind ret raise].
  intros [= <-]. cbn.
  apply Z.eqb_neq in Enh, Ew, Ekv0. apply Z.eqb_eq in Eh, Ekv.
  apply Z.ltb_ge in Eneg, Egneg.
  exists default_scale, qkv, sc, op.
  repeat split; assumption || reflexivity.
Qed.

(** C2.  Whenever the constructor reaches its guard (the group size, the
    number of attention heads and the head dimension are not zero, which
    every configuration with positive sizes satisfies), it raises its
    [ValueError] (the specification's ConfigurationError) if the number of
    attention heads, or the number of key/value heads, is not a multiple of
    the group size; a construction that succeeds had both divisible. *)
Theorem attention_init_head_divisibility :
  process_group_size weights <> 0 ->
  num_attention_heads config <> 0 ->
  hidden_size config / num_attention_heads config <> 0 ->
  (num_attention_heads config mod process_group_size weights <> 0 ->
     FlashLlamaAttention_init int_pow idx prefix config weights rotary
     = inl (ValueError msg_num_heads))
  /\ (num_attention_heads config mod process_group_size weights = 0 ->
      num_key_value_heads config mod process_group_size weights <> 0 ->
        FlashLlamaAttention_init int_pow idx prefix config weights rotary
        = inl (ValueError msg_num_key_value_heads))
  /\ (forall layer : AttentionT,
        FlashLlamaAttention_init int_pow idx prefix config weights rotary
          = inr layer ->
        num_attention_heads config mod process_group_size weights = 0
        /\ num_key_value_heads config mod process_group_size weights = 0).
Proof.
  intros Hw Hh Hhs.
  assert (Hprefix : forall k : Z -> R -> result AttentionT,
    (head_size <- floordiv (hidden_size config) (num_attention_heads config) ;;
     default_scale <- pow_neg_half int_pow head_size ;; k head_size default_scale)
    = k (hidden_size config / num_attention_heads config)
        (int_pow (hidden_size config / num_attention_heads config)
                 (- (1 / 2))%R)).
  { intros k. rewrite floordiv_ok by assumption. cbn [bind].
    unfold pow_neg_half.
    destruct (_ =? 0) eqn:E; [apply Z.eqb_eq in E; contradiction | reflexivity]. }
  split; [|split].
  - intros Hmod. unfold FlashLlamaAttention_init. rewrite Hprefix.
    rewrite pymod_ok by assumption. cbn [bind].
    destruct (_ =? 0) eqn:E; [apply Z.eqb_eq in E; contradiction | reflexivity].
  - intros Hmod Hkv. unfold FlashLlamaAttention_init. rewrite Hprefix.
    rewrite pymod_ok by assumption. cbn [bind]. rewrite Hmod. cbn [Z.eqb negb].
    rewrite pymod_ok by assumption. cbn [bind].
    destruct (_ =? 0) eqn:E; [apply Z.eqb_eq in E; contradiction | reflexivity].
  - intros layer Hinit.
    destruct (attention_init_inversion layer Hinit)
      as (d & q & sc & op & _ & _ & _ & H1 & H2 & _).
    split; assumption.
Qed.

(** C4.  When the per-rank number of key/value heads divides the per-rank
    number of query heads, the head-mapping table of a constructed layer has
    one entry per query head and entry [q] is [q / (num_heads / num_kv_heads)];
    and it is this one table, fixed by the constructor, that every decode
    call (no prefill boundaries) hands to the paged attention kernel: for
    every kernel the output of the call is the output projection of what
    [paged_attention] returns on the table and the cache just stored. *)
Theorem kv_head_mapping_contiguous_groups (layer : AttentionT) :
  FlashLlamaAttention_init int_pow idx prefix config weights rotary
    = inr layer ->
  (num_kv_heads layer | num_heads layer) ->
  exists table : list Z,
    kv_head_mapping layer = table
    /\ length table = Z.to_nat (num_heads layer)
    /\ (forall q, 0 <= q < num_heads layer ->
          nth_error table (Z.to_nat q)
          = Some (q / (num_heads layer / num_kv_heads layer)))
    /\ (forall (K : KernelsT) hidden_states cos sin kv_cache slots seqlen
               adapter_data hpu_attention_meta,
          exists query key value,
            let stored := kv_store K kv_cache key value slots (kv_scales layer) in
            FlashLlamaAttention_forward K layer hidden_states cos sin None
              kv_cache slots seqlen adapter_data hpu_attention_meta
            = (o_proj layer
                 (view_output K (num_heads layer * head_size layer)
                    (paged_attention K query stored table (softmax_scale layer)
                       seqlen (kv_scales layer) hpu_attention_meta))
                 adapter_data,
               stored,
               [EvStore kv_cache key value slots;
                EvPagedAttention query stored table (softmax_scale layer)])).
Proof.
  intros Hinit Hdiv.
  destruct (attention_init_inversion layer Hinit)
    as (d & qkv & sc & op & _ & _ & _ & _ & _ & _ & _ & Hkv0 & Hkv & Hg & _ & _
        & Hmap & _).
  set (g := num_heads layer / num_kv_heads layer) in *.
  assert (Hnh : num_heads layer = num_kv_heads layer * g).
  { destruct Hdiv as [c Hc]. unfold g. rewrite Hc.
    rewrite Z.div_mul by assumption. lia. }
  exists (kv_head_mapping layer). split; [reflexivity|].
  split; [|split].
  - rewrite Hmap, flat_map_of_nat.
    rewrite length_interleaved, length_seq, Hnh.
    rewrite Z2Nat.inj_mul by lia. reflexivity.
  - intros q Hq. rewrite Hmap, flat_map_of_nat.
    assert (Hgpos : 0 < g) by nia.
    rewrite nth_interleaved.
    + rewrite Nat.add_0_l, Nat2Z.inj_div, !Z2Nat.id by lia. reflexivity.
    + rewrite <- Z2Nat.inj_mul by lia. apply Z2Nat.inj_lt; lia.
  - intros K hidden_states cos sin kv_cache slots seqlen adapter_data meta.
    unfold FlashLlamaAttention_forward.
    destruct (split_qkv K _ _ _ _) as [[query key] value].
    destruct (rotary_emb layer query key cos sin) as [query' key'].
    exists query', key', value. reflexivity.
Qed.


(** C3.  In every forward call of the attention layer the first call is the
    cache store of the new keys and values at the given slots, and the
    attention read comes after it and reads the cache the store produced:
    the dense attention call when prefill boundaries are given, the paged
    attention call otherwise. *)
Theorem store_precedes_attention_read
    (K : KernelsT) (self : AttentionT) (hidden_states cos sin : Tensor)
    (cu_seqlen_prefill : option Tensor) (kv_cache : KVCache) (slots : Tensor)
    (seqlen : Seqlen) (adapter_data : AdapterData)
    (hpu_attention_meta : option Meta) :
  exists query key value,
    let stored := kv_store K kv_cache key value slots (kv_scales self) in
    FlashLlamaAttention_forward K self hidden_states cos sin cu_seqlen_prefill
      kv_cache slots seqlen adapter_data hpu_attention_meta
    = (o_proj self
         (view_output K (num_heads self * head_size self)
            (match cu_seqlen_prefill with
             | Some _ =>
                 attention K query key value (kv_scales self) stored seqlen
                           (softmax_scale self)
             | None =>
                 paged_attention K query stored (kv_head_mapping self)
                                 (softmax_scale self) seqlen (kv_scales self)
                                 hpu_attention_meta
             end))
         adapter_data,
       stored,
       [EvStore kv_cache key value slots;
        match cu_seqlen_prefill with
        | Some _ => EvAttention query key value stored (softmax_scale self)
        | None =>
            EvPagedAttention query stored (kv_head_mapping self)
                             (softmax_scale self)
        end]).
Proof.
  unfold FlashLlamaAttention_forward.
  destruct (split_qkv K _ _ _ _) as [[query key] value].
  destruct (rotary_emb self query key cos sin) as [query' key'].
  exists query', key', value.
  destruct cu_seqlen_prefill; reflexivity.
Qed.

End AttentionLayer.

Lemma attention_init_head_divisibility_witness :
  FlashLlamaAttention_init Samples.int_pow 0 "model.layers.0.self_attn"%string
    Samples.llama_config
    (Samples.weights 3) Samples.id_rotary
  = inl (ValueError msg_num_heads).
Proof.
  apply (attention_init_head_divisibility Samples.int_pow 0
           "model.layers.0.self_attn"%string
           Samples.llama_config (Samples.weights 3) Samples.id_rotary).
  - discriminate.
  - discriminate.
  - discriminate.
  - discriminate.
Defined.

Lemma kv_head_mapping_contiguous_groups_witness :
  exists layer : FlashLlamaAttention Z unit unit,
    FlashLlamaAttention_init Samples.int_pow 0 "model.layers.0.self_attn"%string
      Samples.llama_config (Samples.weights 2) Samples.id_rotary = inr layer
    /\ length (kv_head_mapping layer) = 16%nat
    /\ nth_error (kv_head_mapping layer) 5 = Some 1
    /\ exists query key value,
         fst (fst (FlashLlamaAttention_forward Samples.kernels layer 7 0 0 None
                     [] 0 tt tt None))
         = o_proj layer
             (view_output Samples.kernels (num_heads layer * head_size layer)
                (paged_attention Samples.kernels query
                   (kv_store Samples.kernels [] key value 0 (kv_scales layer))
                   (kv_head_mapping layer) (softmax_scale layer) tt
                   (kv_scales layer) None))
             tt.
Proof.
  eexists. split; [reflexivity|].
  match goal with
  | |- length (kv_head_mapping ?l) = _ /\ _ =>
      destruct (kv_head_mapping_contiguous_groups
                  (KVCache := list Z) (Seqlen := unit) (Meta := unit)
                  Samples.int_pow 0 "model.layers.0.self_attn"%string
                  Samples.llama_config (Samples.weights 2) Samples.id_rotary l)
        as (table & Htable & Hlen & Hnth & Hcall)
  end.
  - reflexivity.
  - exists 4. reflexivity.
  - subst table. split; [exact Hlen|]. split.
    + apply (Hnth 5). split; [discriminate|reflexivity].
    + destruct (Hcall Samples.kernels 7 0 0 [] 0 tt tt None)
        as (query & key & value & Hrun).
      exists query, key, value. cbv zeta in Hrun. rewrite Hrun. reflexivity.
Defined.


(** *** A float is not [1 / sqrt 128] *)





(** ** The decoder layer *)

Section DecoderLayer.

Context {Tensor KVCache Seqlen AdapterData Meta Scales : Type}.

Variables (int_pow : Z -> R -> R)
          (idx : Z) (prefix : string) (config : Config)
          (weights : Weights Tensor AdapterData Scales)
          (rotary : Rotary Tensor).

Lemma layer_init_residual_multiplier
    (layer : FlashLlamaLayer Tensor AdapterData Scales) :
  FlashLlamaLayer_init int_pow idx prefix config weights rotary = inr layer ->
  layer_residual_multiplier layer = residual_multiplier config.
Proof.
  unfold FlashLlamaLayer_init.
  destruct (FlashLlamaAttention_init _ _ _ _ _ _) as [e|attn]; [discriminate|].
  cbn [bind].
  destruct (load_mlp _ _ _ _) as [e|m]; [discriminate|].
  cbn [bind].
  destruct (load_norm _ _) as [e|n1]; [discriminate|].
  cbn [bind].
  destruct (load_norm _ _) as [e|n2]; [discriminate|].
  cbn [bind ret].
  intros [= <-]. reflexivity.
Qed.

(** C8.  The forward of a constructed decoder layer is the composition
    pre-norm of (input, running residual), attention on the normed value,
    post-norm of (attention output, residual), MLP on the second normed
    value, with result (mlp output, residual of the post-norm).  The
    attention output and the MLP output are both multiplied by the
    configuration's [residual_multiplier] when it has one, and both are left
    as they are when it has none. *)
Theorem decoder_layer_forward_composition
    (layer : FlashLlamaLayer Tensor AdapterData Scales) :
  FlashLlamaLayer_init int_pow idx prefix config weights rotary = inr layer ->
  forall (K : Kernels Tensor KVCache Seqlen Meta Scales)
         (hidden_states : Tensor) (residual : option Tensor) (cos sin : Tensor)
         (cu_seqlen_prefill : option Tensor) (kv_cache : KVCache)
         (slots : Tensor) (seqlen : Seqlen) (adapter_data : AdapterData)
         (hpu_attention_meta : option Meta),
    fst (fst (FlashLlamaLayer_forward K layer hidden_states residual cos sin
                cu_seqlen_prefill kv_cache slots seqlen adapter_data
                hpu_attention_meta))
    = decoder_layer_spec
        (input_layernorm layer)
        (post_attention_layernorm layer)
        (fun normed =>
           fst (fst (FlashLlamaAttention_forward K (self_attn layer) normed
                       cos sin cu_seqlen_prefill kv_cache slots seqlen
                       adapter_data hpu_attention_meta)))
        (fun normed2 => mlp layer normed2 adapter_data)
        (match residual_multiplier config with
         | Some m => fun x => scale_by K x m
         | None => fun x => x
         end)
        hidden_states residual.
Proof.
  intros Hinit K hidden_states residual cos sin cu kv_cache slots seqlen
         adapter_data meta.
  apply layer_init_residual_multiplier in Hinit.
  unfold FlashLlamaLayer_forward, decoder_layer_spec, apply_residual_multiplier.
  rewrite Hinit.
  destruct (input_layernorm layer hidden_states residual) as [normed res].
  destruct (FlashLlamaAttention_forward _ _ _ _ _ _ _ _ _ _ _)
    as [[attn_output cache'] trace].
  cbn [fst].
  destruct (residual_multiplier config) as [m|].
  - destruct (post_attention_layernorm layer _ _) as [normed2 attn_res].
    reflexivity.
  - destruct (post_attention_layernorm layer _ _) as [normed2 attn_res].
    reflexivity.
Qed.

End DecoderLayer.

Lemma decoder_layer_forward_composition_witness :
  exists layer : FlashLlamaLayer Z unit unit,
    FlashLlamaLayer_init Samples.int_pow 0 "model.layers.0"%string
      Samples.granite_config
      (Samples.weights 2) Samples.id_rotary = inr layer
    /\ fst (fst (FlashLlamaLayer_forward Samples.kernels layer 7 (Some 5) 0 0
                   None [] 0 tt tt None))
       = decoder_layer_spec
           (input_layernorm layer) (post_attention_layernorm layer)
           (fun normed =>
              fst (fst (FlashLlamaAttention_forward Samples.kernels
                          (self_attn layer) normed 0 0 None [] 0 tt tt None)))
           (fun normed2 => mlp layer normed2 tt)
           (fun x => scale_by Samples.kernels x (22 / 100)%R)
           7 (Some 5).
Proof.
  eexists. split; [reflexivity|].
  match goal with
  | |- fst (fst (FlashLlamaLayer_forward _ ?l _ _ _ _ _ _ _ _ _ _)) = _ =>
      apply (decoder_layer_forward_composition Samples.int_pow 0
               "model.layers.0"%string
               Samples.granite_config (Samples.weights 2) Samples.id_rotary l)
  end.
  reflexivity.
Defined.

(** ** The sliding-window gate of model selection *)

Section SlidingWindowGate.

Context {Args Model : Type}.

Variables (SUPPORTS_WINDOWING : bool)
          (resolve_config : Args -> result ConfigDict)
          (select_model : Args -> ConfigDict -> result Model).

(** C6.  [get_model] ends in the sliding-window error exactly when the
    configuration was resolved, it has a sliding window other than -1,
    [max_input_tokens] is given and exceeds the window, and the backend does
    not support windowing.  The error is raised before any model class is
    selected, so no model (and no forward call) comes out of the call; when
    one of the conditions fails, the call does not end in this error. *)
Theorem get_model_sliding_window_gate
    (args : Args) (max_input_tokens : option Z) (s m : Z) :
  let unsupported_window :=
    exists config_dict,
      resolve_config args = inr config_dict
      /\ sliding_window config_dict = Some s
      /\ s <> -1
      /\ max_input_tokens = Some m
      /\ s < m
      /\ SUPPORTS_WINDOWING = false in
  (get_model SUPPORTS_WINDOWING resolve_config select_model args max_input_tokens
   = RaisedSlidingWindow s m
   <-> unsupported_window)
  /\ (unsupported_window ->
      forall r,
        get_model SUPPORTS_WINDOWING resolve_config select_model args
                  max_input_tokens
        <> Selected r).
Proof.
  cbn zeta.
  assert (Hback :
    (exists config_dict,
        resolve_config args = inr config_dict
        /\ sliding_window config_dict = Some s
        /\ s <> -1
        /\ max_input_tokens = Some m
        /\ s < m
        /\ SUPPORTS_WINDOWING = false) ->
    get_model SUPPORTS_WINDOWING resolve_config select_model args max_input_tokens
    = RaisedSlidingWindow s m).
  { intros (config_dict & Hres & Hsw & Hs & -> & Hlt & ->).
    unfold get_model, use_sliding_window, needs_sliding_window,
      effective_sliding_window.
    rewrite Hres, Hsw.
    apply Z.eqb_neq in Hs. apply Z.ltb_lt in Hlt.
    rewrite Hs, Hlt. reflexivity. }
  split; [split; [|exact Hback]|].
  - unfold get_model, use_sliding_window, needs_sliding_window,
      effective_sliding_window.
    destruct (resolve_config args) as [e|config_dict]; [discriminate|].
    destruct (sliding_window config_dict) as [s'|] eqn:Esw;
      [|cbn; discriminate].
    destruct max_input_tokens as [m'|];
      [|rewrite andb_false_r; discriminate].
    destruct (negb (s' =? -1)) eqn:Euse; [|discriminate].
    destruct (s' <? m') eqn:Eneeds; [|discriminate].
    destruct SUPPORTS_WINDOWING; [discriminate|].
    cbn [negb andb]. intros [= <- <-].
    apply negb_true_iff, Z.eqb_neq in Euse. apply Z.ltb_lt in Eneeds.
    exists config_dict. repeat split; assumption || reflexivity.
  - intros Hcond r. rewrite (Hback Hcond). discriminate.
Qed.

End SlidingWindowGate.

Lemma get_model_sliding_window_gate_witness :
  get_model false (fun _ : unit => inr (mk_config_dict (Some 4096)))
            (fun _ _ => inr tt) tt (Some 8192)
  = RaisedSlidingWindow (Model := unit) 4096 8192.
Proof.
  apply (get_model_sliding_window_gate false
           (fun _ : unit => inr (mk_config_dict (Some 4096)))
           (fun _ _ => inr tt) tt (Some 8192) 4096 8192).
  exists (mk_config_dict (Some 4096)).
  repeat split; reflexivity || discriminate.
Defined.

(** ** The attention mask of the vision tower *)

Lemma length_mapi_from {A B : Type} (f : Z -> A -> B) (l : list A) (s : Z) :
  length (mapi_from s f l) = length l.
Proof.
  revert s. induction l as [|x l IH]; intros s; cbn; [reflexivity|now rewrite IH].
Qed.

Lemma nth_error_mapi_from {A B : Type} (f : Z -> A -> B) (l : list A) (s : Z) (i : nat) :
  nth_error (mapi_from s f l) i
  = option_map (f (s + Z.of_nat i)) (nth_error l i).
Proof.
  revert s i. induction l as [|x l IH]; intros s [|i]; cbn [mapi_from nth_error option_map].
  - reflexivity.
  - reflexivity.
  - now rewrite Z.add_0_r.
  - rewrite IH. do 2 f_equal. lia.
Qed.

Lemma square_zeros (n : nat) : square n (repeat (repeat false n) n).
Proof.
  split; [apply repeat_length|].
  apply Forall_forall. intros row Hin.
  apply repeat_spec in Hin. subst. apply repeat_length.
Qed.

Lemma square_fill_block (n : nat) (m : bool_mask) (a b : Z) :
  square n m -> square n (fill_block m a b).
Proof.
  intros [Hlen Hrows]. unfold fill_block. split.
  - now rewrite length_mapi_from.
  - apply Forall_forall. intros row Hin.
    apply In_nth_error in Hin as [i Hi].
    rewrite nth_error_mapi_from in Hi.
    destruct (nth_error m i) as [row0|] eqn:Erow; [|discriminate].
    cbn [option_map] in Hi. injection Hi as <-.
    assert (Hrow0 : length row0 = n).
    { rewrite Forall_forall in Hrows. apply Hrows.
      eapply nth_error_In; eassumption. }
    destruct (in_slice _ a b _); [now rewrite length_mapi_from | assumption].
Qed.

Lemma mask_at_square (n : nat) (m : bool_mask) (i j : nat) :
  square n m -> (i < n)%nat -> (j < n)%nat -> exists v, mask_at m i j = Some v.
Proof.
  intros [Hlen Hrows] Hi Hj. unfold mask_at.
  destruct (nth_error m i) as [row|] eqn:Erow.
  - assert (Hrow : length row = n).
    { rewrite Forall_forall in Hrows. apply Hrows.
      eapply nth_error_In; eassumption. }
    destruct (nth_error row j) as [v|] eqn:Ev; [now exists v|].
    apply nth_error_None in Ev. lia.
  - apply nth_error_None in Erow. lia.
Qed.

Lemma mask_at_fill_block (n : nat) (m : bool_mask) (a b : Z) (i j : nat) (v : bool) :
  square n m ->
  mask_at m i j = Some v ->
  mask_at (fill_block m a b) i j
  = Some ((in_slice (Z.of_nat n) a b (Z.of_nat i)
           && in_slice (Z.of_nat n) a b (Z.of_nat j)) || v).
Proof.
  intros [Hlen Hrows] Hv. unfold mask_at in *. unfold fill_block.
  rewrite nth_error_mapi_from.
  destruct (nth_error m i) as [row|] eqn:Erow; [|discriminate].
  cbn [option_map]. rewrite Z.add_0_l, Hlen.
  assert (Hrow : length row = n).
  { rewrite Forall_forall in Hrows. apply Hrows.
    eapply nth_error_In; eassumption. }
  destruct (in_slice (Z.of_nat n) a b (Z.of_nat i)).
  - rewrite nth_error_mapi_from, Hv. cbn [option_map].
    rewrite Z.add_0_l, Hrow.
    now destruct (in_slice (Z.of_nat n) a b (Z.of_nat j)).
  - assumption.
Qed.

Lemma mask_at_fold (n : nat) (pairs : list (Z * Z)) (m : bool_mask) (i j : nat) (v : bool) :
  square n m ->
  mask_at m i j = Some v ->
  mask_at (fold_left (fun m p => fill_block m (fst p) (snd p)) pairs m) i j
  = Some (v || existsb (fun p => in_slice (Z.of_nat n) (fst p) (snd p) (Z.of_nat i)
                                 && in_slice (Z.of_nat n) (fst p) (snd p) (Z.of_nat j))
                       pairs).
Proof.
  revert m v. induction pairs as [|p pairs IH]; intros m v Hsq Hv.
  - cbn. now rewrite orb_false_r.
  - cbn [fold_left existsb].
    rewrite (IH _ _ (square_fill_block _ _ _ _ Hsq)
               (mask_at_fill_block _ _ _ _ _ _ _ Hsq Hv)).
    f_equal.
    destruct (in_slice _ _ _ (Z.of_nat i) && in_slice _ _ _ (Z.of_nat j)), v;
      reflexivity.
Qed.

Lemma existsb_ext_in {A : Type} (f g : A -> bool) (l : list A) :
  (forall x, In x l -> f x = g x) -> existsb f l = existsb g l.
Proof.
  induction l as [|x l IH]; intros H; cbn [existsb]; [reflexivity|].
  rewrite (H x) by now left. rewrite IH; [reflexivity|].
  intros y Hy. apply H. now right.
Qed.

Lemma in_slice_nonneg (n a b i : Z) :
  0 <= a -> 0 <= b -> 0 <= i < n ->
  in_slice n a b i = (a <=? i) && (i <? b).
Proof.
  intros Ha Hb Hi. unfold in_slice, slice_index.
  destruct (a <? 0) eqn:Ea; [apply Z.ltb_lt in Ea; lia|].
  destruct (b <? 0) eqn:Eb; [apply Z.ltb_lt in Eb; lia|].
  f_equal.
  - destruct (a <=? i) eqn:E1.
    + apply Z.leb_le in E1. apply Z.leb_le. lia.
    + apply Z.leb_gt in E1. apply Z.leb_gt. lia.
  - destruct (i <? b) eqn:E2.
    + apply Z.ltb_lt in E2. apply Z.ltb_lt. lia.
    + apply Z.ltb_ge in E2. apply Z.ltb_ge. lia.
Qed.

Lemma in_combine_tl_nonneg (cu : list Z) (p : Z * Z) :
  Forall (fun x => 0 <= x) cu -> In p (combine cu (tl cu)) -> 0 <= fst p /\ 0 <= snd p.
Proof.
  intros Hcu Hin. rewrite Forall_forall in Hcu. destruct p as [a b].
  split; apply Hcu; cbn [fst snd].
  - eapply in_combine_l; eassumption.
  - apply in_combine_r in Hin. destruct cu; [contradiction|now right].
Qed.

(** Inside the mask the entries are block-diagonal and not causal: the entry
    for positions [i, j < max_seqlen] is whether they share a segment. *)
Lemma attention_mask_inside (cu_seqlens : list Z) (max_seqlen : Z) (i j : nat) :
  Forall (fun x => 0 <= x) cu_seqlens ->
  0 <= max_seqlen ->
  Z.of_nat i < max_seqlen -> Z.of_nat j < max_seqlen ->
  exists m,
    attention_mask cu_seqlens max_seqlen = inr m
    /\ mask_at m i j = Some (same_segment cu_seqlens (Z.of_nat i) (Z.of_nat j)).
Proof.
  intros Hcu Hn Hi Hj. unfold attention_mask.
  destruct (max_seqlen <? 0) eqn:E; [apply Z.ltb_lt in E; lia|].
  eexists. split; [reflexivity|].
  set (n := Z.to_nat max_seqlen).
  assert (Hin : (i < n)%nat) by (unfold n; lia).
  assert (Hjn : (j < n)%nat) by (unfold n; lia).
  assert (Hzero : mask_at (repeat (repeat false n) n) i j = Some false).
  { unfold mask_at. rewrite nth_error_repeat by assumption.
    now rewrite nth_error_repeat by assumption. }
  rewrite (mask_at_fold n _ _ i j false (square_zeros n) Hzero).
  cbn [orb]. f_equal. unfold same_segment.
  apply existsb_ext_in. intros p Hp.
  destruct (in_combine_tl_nonneg _ _ Hcu Hp) as [Ha Hb].
  rewrite !in_slice_nonneg by lia.
  destruct (fst p <=? Z.of_nat i), (Z.of_nat i <? snd p),
    (fst p <=? Z.of_nat j), (Z.of_nat j <? snd p); reflexivity.
Qed.

(** C10.  With two images of 2 x 2 patches the vision tower has 8 tokens in the
    segments [0, 4) and [4, 8), but the mask it builds has 4 rows and columns
    only (all of them set by the first segment): positions 4 and 5 share a
    segment and have no mask entry.  With merge size 2 the call of the tower
    does get as far as this mask. *)
Theorem vision_mask_misses_later_segments :
  let grid := [mk_grid 1 2 2; mk_grid 1 2 2] in
  vision_cu_seqlens grid = inr [0; 4; 8]
  /\ vision_max_seqlen [0; 4; 8] = inr 4
  /\ vision_attention_mask grid = inr (repeat (repeat true 4) 4)
  /\ same_segment [0; 4; 8] 4 5 = true
  /\ mask_at (repeat (repeat true 4) 4) 4 5 = None
  /\ Qwen2Vision.vision_tower_mask 2 grid = inr (repeat (repeat true 4) 4).
Proof. vm_compute. repeat split; reflexivity. Qed.

(** ** Row count of the position ids with vision segments *)

Lemma mapM_index {A B : Type} (f : nat -> result B) (P : A -> B -> Prop)
    (l : list A) (s : nat) :
  (forall i x, nth_error l i = Some x -> exists y, f (s + i)%nat = inr y /\ P x y) ->
  exists ys, mapM f (seq s (length l)) = inr ys /\ Forall2 P l ys.
Proof.
  revert s. induction l as [|x l IH]; intros s H.
  - exists []. split; [reflexivity|constructor].
  - destruct (H 0%nat x eq_refl) as (y & Hy & HP).
    rewrite Nat.add_0_r in Hy.
    destruct (IH (S s)) as (ys & Hys & HF).
    { intros i x' Hx'. destruct (H (S i) x' Hx') as (y' & Hy' & HP').
      exists y'. split; [|assumption]. rewrite <- Hy'. f_equal. lia. }
    exists (y :: ys). split; [|now constructor].
    cbn [length seq mapM]. rewrite Hy. cbn [bind]. rewrite Hys. reflexivity.
Qed.

Lemma mapM_enumerate {A B : Type} (f : nat * A -> result B) (P : A -> B -> Prop)
    (l : list A) (s : nat) :
  (forall i x, nth_error l i = Some x -> exists y, f ((s + i)%nat, x) = inr y /\ P x y) ->
  exists ys, mapM f (combine (seq s (length l)) l) = inr ys /\ Forall2 P l ys.
Proof.
  revert s. induction l as [|x l IH]; intros s H.
  - exists []. split; [reflexivity|constructor].
  - destruct (H 0%nat x eq_refl) as (y & Hy & HP).
    rewrite Nat.add_0_r in Hy.
    destruct (IH (S s)) as (ys & Hys & HF).
    { intros i x' Hx'. destruct (H (S i) x' Hx') as (y' & Hy' & HP').
      exists y'. split; [|assumption]. rewrite <- Hy'. do 2 f_equal. lia. }
    exists (y :: ys). split; [|now constructor].
    cbn [length seq combine mapM]. rewrite Hy. cbn [bind]. rewrite Hys. reflexivity.
Qed.

Lemma list_sum_cons (a : nat) (l : list nat) :
  list_sum (a :: l) = (a + list_sum l)%nat.
Proof. reflexivity. Qed.

Lemma length_concat_Forall2 {A B : Type} (F : A -> nat) (l : list A) (ys : list (list B)) :
  Forall2 (fun x y => length y = F x) l ys ->
  length (concat ys) = list_sum (map F l).
Proof.
  induction 1 as [|x y l ys Hxy _ IH]; [reflexivity|].
  cbn [concat map]. rewrite list_sum_cons, length_app, Hxy, IH. reflexivity.
Qed.

Lemma length_concat_interleave (xs ys : list tensor3) :
  length xs = length ys ->
  length (concat (interleave xs ys)) = (length (concat xs) + length (concat ys))%nat.
Proof.
  revert ys. induction xs as [|x xs IH]; intros [|y ys] Hlen; try discriminate.
  - reflexivity.
  - unfold interleave in *. cbn [combine flat_map fst snd concat app].
    rewrite !length_app, IH by (cbn in Hlen; lia). lia.
Qed.

Lemma last_item_cons {A : Type} (a : A) (l : list A) :
  l <> [] -> last_item (a :: l) = last_item l.
Proof.
  intros Hl. unfold last_item. cbn [rev].
  destruct (rev l) as [|x r] eqn:E.
  - apply (f_equal (@rev A)) in E. rewrite rev_involutive in E. contradiction.
  - reflexivity.
Qed.

Lemma last_item_interleave (xs ys : list tensor3) :
  length xs = length ys ->
  last_item (interleave xs ys) = last_item ys.
Proof.
  revert ys. induction xs as [|x xs IH]; intros [|y ys] Hlen; try discriminate.
  - reflexivity.
  - unfold interleave in *. cbn [combine flat_map fst snd app].
    destruct ys as [|y' ys].
    + destruct xs; [reflexivity|discriminate].
    + destruct xs as [|x' xs]; [discriminate|].
      rewrite last_item_cons by discriminate.
      rewrite last_item_cons by discriminate.
      rewrite IH by (cbn in Hlen |- *; lia).
      now rewrite (last_item_cons y) by discriminate.
Qed.

Lemma last_item_last {A : Type} (l : list A) (d : A) :
  l <> [] -> last_item l = inr (last l d).
Proof.
  induction l as [|a l IH]; intros Hl; [contradiction|].
  destruct l as [|b l]; [reflexivity|].
  rewrite last_item_cons by discriminate.
  rewrite IH by discriminate. reflexivity.
Qed.

Lemma where_from_bounds (x : list Z) (tok i e : Z) :
  In e (where_from i x tok) -> i <= e < i + Z.of_nat (length x).
Proof.
  revert i. induction x as [|a x IH]; intros i Hin; [contradiction|].
  cbn [where_from] in Hin. cbn [length].
  destruct (a =? tok).
  - destruct Hin as [<-|Hin]; [lia|]. apply IH in Hin. lia.
  - apply IH in Hin. lia.
Qed.

Lemma broadcast2_same (op : Z -> Z -> Z) (a b : list Z) :
  length a = length b ->
  broadcast2 op a b = inr (map (fun p => op (fst p) (snd p)) (combine a b)).
Proof.
  intros H. unfold broadcast2. now rewrite H, Nat.eqb_refl.
Qed.

Lemma length_cumsum_from (acc : Z) (x : list Z) :
  length (cumsum_from acc x) = length x.
Proof.
  revert acc. induction x as [|a x IH]; intros acc; cbn; [reflexivity|now rewrite IH].
Qed.

Lemma length_removelast {A : Type} (l : list A) :
  length (removelast l) = (length l - 1)%nat.
Proof.
  induction l as [|a l IH]; [reflexivity|].
  destruct l as [|b l]; [reflexivity|].
  change (removelast (a :: b :: l)) with (a :: removelast (b :: l)).
  cbn [length] in *. rewrite IH. lia.
Qed.

Lemma length_flat_map_repeat (k : nat) (l : list Z) :
  length (flat_map (fun a => repeat a k) l) = (length l * k)%nat.
Proof.
  induction l as [|a l IH]; cbn [flat_map length]; [reflexivity|].
  rewrite length_app, repeat_length, IH. lia.
Qed.

Lemma length_concat_repeat (k : nat) (l : list Z) :
  length (concat (repeat l k)) = (k * length l)%nat.
Proof.
  induction k as [|k IH]; cbn [repeat concat]; [reflexivity|].
  rewrite length_app, IH. lia.
Qed.

Lemma length_range (n : Z) : length (map Z.of_nat (seq 0 (Z.to_nat n))) = Z.to_nat n.
Proof. now rewrite length_map, length_seq. Qed.

Lemma ltb_nonneg (n : Z) : 0 <= n -> (n <? 0) = false.
Proof. intros H. apply Z.ltb_ge. assumption. Qed.

(** The position ids of one vision segment: as many columns as the segment
    has tokens. *)
Lemma image_position_ids_length (sms : Z) (g : grid_thw) :
  sms <> 0 ->
  0 <= grid_t g -> 0 <= grid_h g / sms -> 0 <= grid_w g / sms ->
  exists m,
    image_position_ids sms g = inr m
    /\ length m = Z.to_nat (merged_tokens sms g).
Proof.
  intros Hsms Ht Hh Hw. unfold image_position_ids, merged_tokens.
  rewrite !floordiv_ok by assumption. cbn [bind].
  set (t := grid_t g) in *. set (h := grid_h g / sms) in *.
  set (w := grid_w g / sms) in *.
  rewrite (arange_ok t) by assumption. cbn [bind].
  unfold repeat_interleave, tensor_repeat.
  rewrite (ltb_nonneg (h * w)) by nia. cbn [bind ret].
  rewrite (arange_ok h) by assumption. cbn [bind].
  rewrite (ltb_nonneg w) by assumption. cbn [bind ret].
  rewrite (ltb_nonneg t) by assumption. cbn [bind ret].
  rewrite (arange_ok w) by assumption. cbn [bind].
  rewrite (ltb_nonneg (t * h)) by nia. cbn [bind ret].
  unfold stack3.
  assert (L1 : length (flat_map (fun a => repeat a (Z.to_nat (h * w)))
                         (map Z.of_nat (seq 0 (Z.to_nat t))))
               = Z.to_nat (t * h * w)).
  { rewrite length_flat_map_repeat, length_range.
    rewrite <- Z2Nat.inj_mul by nia. f_equal. lia. }
  assert (L2 : length (concat (repeat
                         (flat_map (fun a => repeat a (Z.to_nat w))
                            (map Z.of_nat (seq 0 (Z.to_nat h))))
                         (Z.to_nat t)))
               = Z.to_nat (t * h * w)).
  { rewrite length_concat_repeat, length_flat_map_repeat, length_range.
    rewrite <- !Z2Nat.inj_mul by nia. f_equal. lia. }
  assert (L3 : length (concat (repeat (map Z.of_nat (seq 0 (Z.to_nat w)))
                                 (Z.to_nat (t * h))))
               = Z.to_nat (t * h * w)).
  { rewrite length_concat_repeat, length_range.
    rewrite <- Z2Nat.inj_mul by nia. reflexivity. }
  rewrite L1, L2, L3, Nat.eqb_refl. cbn [andb].
  eexists. split; [reflexivity|].
  rewrite !length_combine, L1, L2, L3. lia.
Qed.

Lemma last_cons_default {A : Type} (l : list A) (a d : A) :
  last (a :: l) d = last l a.
Proof.
  revert a d. induction l as [|b l IH]; intros a d; [reflexivity|].
  change (last (a :: b :: l) d) with (last (b :: l) d).
  now rewrite (IH b d), (IH b a).
Qed.

(** The text lengths the builder computes from the marker positions. *)
Lemma text_lengths_cons (prev s e : Z) (starts ends : list Z) :
  length starts = length ends ->
  map (fun d => d + 1)
      (map (fun p => fst p - snd p)
           (combine (s :: starts) (prev :: removelast (e :: ends))))
  = (s - prev + 1)
      :: map (fun d => d + 1)
           (map (fun p => fst p - snd p) (combine starts (e :: removelast ends))).
Proof.
  intros Hlen. cbn [combine map fst snd]. f_equal.
  destruct ends as [|e' ends].
  - destruct starts; [reflexivity|discriminate].
  - reflexivity.
Qed.

Lemma vision_layout_lengths (sms prev : Z) (starts ends : list Z) (grids : list grid_thw) :
  vision_layout sms prev starts ends grids ->
  length starts = length ends /\ length ends = length grids.
Proof.
  induction 1 as [|prev s e g starts ends grids _ _ _ _ _ _ [IH1 IH2]].
  - split; reflexivity.
  - cbn [length]. split; congruence.
Qed.

(** The text runs and the vision runs of a well-delimited input fill the
    input up to the last end marker. *)
Lemma vision_layout_total (sms prev : Z) (starts ends : list Z) (grids : list grid_thw) :
  vision_layout sms prev starts ends grids ->
  let text_lengths :=
    map (fun d => d + 1)
        (map (fun p => fst p - snd p) (combine starts (prev :: removelast ends))) in
  Forall (fun len => 0 < len) text_lengths
  /\ Z.of_nat (list_sum (map Z.to_nat text_lengths))
     + Z.of_nat (list_sum (map (fun g => Z.to_nat (merged_tokens sms g)) grids))
     = last ends prev - prev.
Proof.
  induction 1 as [prev|prev s e g starts ends grids Hs Ht Hh Hw He Hl IH].
  - cbn. split; [constructor|lia].
  - cbn zeta in *.
    rewrite text_lengths_cons by (apply (vision_layout_lengths _ _ _ _ _ Hl)).
    destruct IH as [IHpos IHsum].
    split; [constructor; [lia|assumption]|].
    cbn [map]. rewrite !list_sum_cons, !Nat2Z.inj_add.
    assert (Hm : 0 < merged_tokens sms g) by (unfold merged_tokens; nia).
    rewrite !Z2Nat.id by lia.
    rewrite last_cons_default.
    lia.
Qed.

Lemma map_fst_combine_same {A B : Type} (a : list A) (b : list B) :
  length a = length b -> map fst (combine a b) = a.
Proof.
  revert b. induction a as [|x a IH]; intros [|y b] H; try discriminate.
  - reflexivity.
  - cbn [combine map fst]. rewrite IH by (cbn in H; lia). reflexivity.
Qed.

Lemma vision_layout_grids (sms prev : Z) (starts ends : list Z) (grids : list grid_thw) :
  vision_layout sms prev starts ends grids ->
  Forall (fun g => 0 < grid_t g /\ 0 < grid_h g / sms /\ 0 < grid_w g / sms) grids.
Proof.
  induction 1; constructor; auto.
Qed.

Lemma length_add_scalar (m : tensor3) (k : Z) : length (add_scalar m k) = length m.
Proof. apply length_map. Qed.

Lemma tensor_max_nonempty (m : tensor3) : m <> [] -> exists mx, tensor_max m = inr mx.
Proof.
  destruct m as [|c r]; [contradiction|]. intros _. cbn. eexists. reflexivity.
Qed.

(** C9.  For an input whose marker pairs are well delimited (at least one
    pair; every pair encloses exactly [t * (h / merge) * (w / merge)] vision
    tokens for its grid, a positive number), [get_position_ids] returns a
    tensor with one row of three entries per input token: the text rows
    (start markers included), the vision rows and the trailing rows (from the
    last end marker on) add up to the input length. *)
Theorem get_position_ids_row_count
    (self : Qwen2VLForConditionalGeneration) (input_ids : list Z)
    (image_grid_thw : list grid_thw) :
  0 < spatial_merge_size self ->
  image_grid_thw <> [] ->
  vision_layout (spatial_merge_size self) 0
    (where_eq input_ids (vision_start_token_id self))
    (where_eq input_ids (vision_end_token_id self))
    image_grid_thw ->
  exists rows,
    get_position_ids self input_ids (Some image_grid_thw) = inr rows
    /\ length rows = length input_ids
    /\ Forall (fun row => length row = 3%nat) rows.
Proof.
  intros Hsms Hne Hlay.
  unfold get_position_ids.
  set (sms := spatial_merge_size self) in *.
  set (starts := where_eq input_ids (vision_start_token_id self)) in *.
  set (ends := where_eq input_ids (vision_end_token_id self)) in *.
  destruct (vision_layout_lengths _ _ _ _ _ Hlay) as [Hse Heg].
  pose proof (vision_layout_grids _ _ _ _ _ Hlay) as Hgrids.
  destruct (vision_layout_total _ _ _ _ _ Hlay) as [Htpos Htotal].
  cbn zeta in Htpos, Htotal.
  assert (HK : (0 < length image_grid_thw)%nat)
    by (destruct image_grid_thw; [contradiction|cbn; lia]).
  (* the marker scan *)
  unfold stack_pairs. rewrite Hse, Nat.eqb_refl. cbn [bind ret].
  rewrite map_fst_combine_same by assumption.
  rewrite broadcast2_same
    by (cbn [length]; rewrite length_removelast; lia).
  cbn [bind].
  set (text_lengths :=
         map (fun d => d + 1)
             (map (fun p => fst p - snd p) (combine starts (0 :: removelast ends))))
    in *.
  assert (Htl : length text_lengths = length image_grid_thw).
  { unfold text_lengths. rewrite !length_map, length_combine. cbn [length].
    rewrite length_removelast. lia. }
  rewrite tensor_floordiv_ok by lia. cbn [bind].
  rewrite broadcast2_same
    by (cbn [length]; rewrite !length_map, length_removelast; lia).
  cbn [bind].
  set (summed := map (fun p => fst p + snd p) (combine _ text_lengths)).
  assert (Hsummed : length summed = length image_grid_thw).
  { unfold summed. rewrite length_map, length_combine. cbn [length].
    rewrite !length_map, length_removelast. lia. }
  assert (Hvsl : length (cumsum summed) = length image_grid_thw)
    by (unfold cumsum; now rewrite length_cumsum_from).
  rewrite broadcast2_same by lia. cbn [bind].
  set (text_segment_lengths := map (fun p => fst p - snd p) (combine _ text_lengths)).
  assert (Htsl : length text_segment_lengths = length image_grid_thw).
  { unfold text_segment_lengths. rewrite length_map, length_combine. lia. }
  (* the vision segments *)
  rewrite length_combine, <- Hse, Nat.min_id, Hse, Heg.
  destruct (mapM_index
              (fun i =>
                 g <- item image_grid_thw i ;;
                 image_position_ids <- image_position_ids sms g ;;
                 off <- item (cumsum summed) i ;;
                 ret (add_scalar image_position_ids off))
              (fun g y => length y = Z.to_nat (merged_tokens sms g) /\ y <> [])
              image_grid_thw 0%nat)
    as (llm_pos_ids_list & Hllm & Hllm2).
  { intros i g Hg. cbn [Nat.add]. unfold item at 1. rewrite Hg. cbn [bind ret].
    rewrite Forall_forall in Hgrids.
    destruct (Hgrids g (nth_error_In _ _ Hg)) as (Ht & Hh & Hw).
    destruct (image_position_ids_length sms g) as (m & Hm & Hmlen); try lia.
    rewrite Hm. cbn [bind].
    assert (Hi : (i < length (cumsum summed))%nat).
    { rewrite Hvsl. apply nth_error_Some. congruence. }
    unfold item. destruct (nth_error (cumsum summed) i) as [off|] eqn:Eoff.
    - cbn [bind ret]. eexists. split; [reflexivity|].
      rewrite length_add_scalar. split; [assumption|].
      intros Hnil. apply (f_equal (@length _)) in Hnil.
      rewrite length_add_scalar, Hmlen in Hnil. cbn [length] in Hnil.
      assert (0 < merged_tokens sms g) by (unfold merged_tokens; nia). lia.
    - apply nth_error_None in Eoff. lia. }
  rewrite Hllm. cbn [bind].
  (* the text segments *)
  destruct (mapM_enumerate
              (fun p =>
                 r <- arange (snd p) ;;
                 off <- item text_segment_lengths (fst p) ;;
                 ret (add_scalar (expand3 r) off))
              (fun len y => length y = Z.to_nat len)
              text_lengths 0%nat)
    as (text_ranges & Htext & Htext2).
  { intros i len Hlen. cbn [Nat.add fst snd].
    rewrite Forall_forall in Htpos.
    pose proof (Htpos len (nth_error_In _ _ Hlen)) as Hpos.
    rewrite arange_ok by lia. cbn [bind].
    assert (Hi : (i < length text_segment_lengths)%nat).
    { rewrite Htsl, <- Htl. apply nth_error_Some. congruence. }
    unfold item. destruct (nth_error text_segment_lengths i) as [off|] eqn:Eoff.
    - cbn [bind ret]. eexists. split; [reflexivity|].
      unfold expand3. now rewrite length_add_scalar, length_map, length_range.
    - apply nth_error_None in Eoff. lia. }
  unfold enumerate. rewrite Htext. cbn [bind].
  (* the last vision segment and the trailing text *)
  assert (Hlens : length text_ranges = length llm_pos_ids_list).
  { rewrite <- (Forall2_length Htext2), <- (Forall2_length Hllm2). assumption. }
  assert (Hllm_ne : llm_pos_ids_list <> []).
  { intros ->. apply Forall2_length in Hllm2. cbn in Hllm2. lia. }
  rewrite last_item_interleave by assumption.
  rewrite (last_item_last llm_pos_ids_list []) by assumption. cbn [bind].
  assert (Hlast_ne : last llm_pos_ids_list [] <> []).
  { destruct (exists_last Hllm_ne) as (l' & y & ->).
    rewrite last_last.
    apply Forall2_app_inv_r in Hllm2 as (g1 & g2 & _ & Hy & _).
    inversion Hy as [|g y' ? ? [_ Hyne] _]; subst. assumption. }
  destruct (tensor_max_nonempty _ Hlast_ne) as (mx & Hmx).
  rewrite Hmx. cbn [bind].
  assert (Hends_ne : ends <> []).
  { intros Hnil. rewrite Hnil in Heg. cbn in Heg. lia. }
  rewrite (last_item_last ends 0) by assumption. cbn [bind].
  assert (Hlast_end : 0 <= last ends 0 < Z.of_nat (length input_ids)).
  { destruct (exists_last Hends_ne) as (l' & e & He).
    rewrite He, last_last.
    assert (Hin : In e ends) by (rewrite He; apply in_or_app; right; now left).
    apply where_from_bounds in Hin. lia. }
  destruct (0 <? Z.of_nat (length input_ids) - last ends 0) eqn:Efinal;
    [|apply Z.ltb_ge in Efinal; lia].
  rewrite arange_ok by lia. cbn [bind ret].
  eexists. split; [reflexivity|]. split.
  - unfold transpose, cat. rewrite length_map, concat_app, length_app.
    rewrite length_concat_interleave by assumption.
    rewrite (length_concat_Forall2 Z.to_nat text_lengths)
      by assumption.
    rewrite (length_concat_Forall2 (fun g => Z.to_nat (merged_tokens sms g))
               image_grid_thw).
    2:{ eapply Forall2_impl; [|exact Hllm2]. cbn. intros g y [H _]. exact H. }
    cbn [concat]. rewrite app_nil_r, length_add_scalar.
    unfold expand3. rewrite length_map, length_range.
    lia.
  - unfold transpose. apply Forall_forall. intros row Hin.
    apply in_map_iff in Hin as ([[a b] d] & <- & _). reflexivity.
Qed.

Lemma get_position_ids_row_count_witness :
  exists rows,
    get_position_ids Samples.qwen Samples.two_image_prompt
                     (Some Samples.two_image_grids) = inr rows
    /\ length rows = 11%nat
    /\ Forall (fun row => length row = 3%nat) rows.
Proof.
  apply (get_position_ids_row_count Samples.qwen Samples.two_image_prompt
           Samples.two_image_grids).
  - reflexivity.
  - discriminate.
  - apply (layout_segment 2 0 0 3 (mk_grid 1 2 4) [5] [10] [mk_grid 2 2 4]);
      try reflexivity; try discriminate.
    apply (layout_segment 2 3 5 10 (mk_grid 2 2 4) [] [] []);
      try reflexivity; try discriminate.
    apply layout_done.
Defined.

(** * Further properties of the position-id builder *)

Lemma combine_app_same {A B : Type} (l1 l2 : list A) (r1 r2 : list B) :
  length l1 = length r1 ->
  combine (l1 ++ l2) (r1 ++ r2) = combine l1 r1 ++ combine l2 r2.
Proof.
  revert r1. induction l1 as [|a l1 IH]; intros [|b r1] H; try discriminate.
  - reflexivity.
  - cbn [app combine]. rewrite IH by (cbn in H; lia). reflexivity.
Qed.

Lemma combine_repeat_row (a b : Z) (W : list Z) :
  combine (combine (repeat a (length W)) (repeat b (length W))) W
  = map (fun c => (a, b, c)) W.
Proof.
  induction W as [|c W IH]; [reflexivity|].
  cbn [length repeat combine map]. now rewrite IH.
Qed.

Lemma cartesian_plane (a : Z) (H W : list Z) :
  combine (combine (repeat a (length H * length W))
                   (flat_map (fun b => repeat b (length W)) H))
          (concat (repeat W (length H)))
  = flat_map (fun b => map (fun c => (a, b, c)) W) H.
Proof.
  induction H as [|b H IH]; [reflexivity|].
  cbn [length flat_map repeat concat Nat.mul].
  rewrite repeat_app.
  rewrite !combine_app_same
    by (rewrite ?length_combine, ?repeat_length; lia).
  rewrite IH, combine_repeat_row. reflexivity.
Qed.

Lemma cartesian_volume (T H W : list Z) :
  combine (combine (flat_map (fun a => repeat a (length H * length W)) T)
                   (concat (repeat (flat_map (fun b => repeat b (length W)) H)
                                   (length T))))
          (concat (repeat W (length T * length H)))
  = flat_map (fun a => flat_map (fun b => map (fun c => (a, b, c)) W) H) T.
Proof.
  induction T as [|a T IH]; [reflexivity|].
  cbn [length flat_map repeat concat Nat.mul].
  rewrite repeat_app, concat_app.
  rewrite !combine_app_same
    by (rewrite ?length_combine, ?repeat_length, ?length_flat_map_repeat,
          ?length_concat_repeat; lia).
  rewrite IH, cartesian_plane. reflexivity.
Qed.

(** X1.  For a grid with non-negative extents the position ids of a vision
    segment, before the offset, are the Cartesian product of the temporal,
    height and width ranges in row-major order (temporal slowest). *)
Theorem image_position_ids_cartesian (sms : Z) (g : grid_thw) :
  sms <> 0 ->
  0 <= grid_t g -> 0 <= grid_h g / sms -> 0 <= grid_w g / sms ->
  image_position_ids sms g
  = inr (cartesian (grid_t g) (grid_h g / sms) (grid_w g / sms)).
Proof.
  intros Hsms Ht Hh Hw. unfold image_position_ids.
  rewrite !floordiv_ok by assumption. cbn [bind].
  set (t := grid_t g) in *. set (h := grid_h g / sms) in *.
  set (w := grid_w g / sms) in *.
  rewrite (arange_ok t) by assumption. cbn [bind].
  unfold repeat_interleave, tensor_repeat.
  rewrite (ltb_nonneg (h * w)) by nia. cbn [bind ret].
  rewrite (arange_ok h) by assumption. cbn [bind].
  rewrite (ltb_nonneg w) by assumption. cbn [bind ret].
  rewrite (ltb_nonneg t) by assumption. cbn [bind ret].
  rewrite (arange_ok w) by assumption. cbn [bind].
  rewrite (ltb_nonneg (t * h)) by nia. cbn [bind ret].
  unfold cartesian, grid_range.
  set (T := map Z.of_nat (seq 0 (Z.to_nat t))).
  set (H := map Z.of_nat (seq 0 (Z.to_nat h))).
  set (W := map Z.of_nat (seq 0 (Z.to_nat w))).
  assert (LT : Z.to_nat t = length T) by (unfold T; now rewrite length_range).
  assert (LH : Z.to_nat h = length H) by (unfold H; now rewrite length_range).
  assert (LW : Z.to_nat w = length W) by (unfold W; now rewrite length_range).
  rewrite !Z2Nat.inj_mul by lia. rewrite LT, LH, LW.
  unfold stack3.
  rewrite length_flat_map_repeat, !length_concat_repeat, length_flat_map_repeat.
  replace (length T * (length H * length W) =? length T * (length H * length W))%nat
    with true by (symmetry; apply Nat.eqb_refl).
  replace (length T * (length H * length W) =? length T * length H * length W)%nat
    with true by (symmetry; apply Nat.eqb_eq; lia).
  cbn [andb]. rewrite cartesian_volume. reflexivity.
Qed.

Lemma image_position_ids_cartesian_witness :
  image_position_ids 2 (mk_grid 2 4 6) = inr (cartesian 2 2 3).
Proof.
  apply (image_position_ids_cartesian 2 (mk_grid 2 4 6)); discriminate.
Defined.

Lemma where_from_app (i : Z) (a b : list Z) (tok : Z) :
  where_from i (a ++ b) tok
  = where_from i a tok ++ where_from (i + Z.of_nat (length a)) b tok.
Proof.
  revert i. induction a as [|x a IH]; intros i.
  - cbn. now rewrite Z.add_0_r.
  - cbn [app where_from length]. rewrite IH.
    replace (i + 1 + Z.of_nat (length a)) with (i + Z.of_nat (S (length a))) by lia.
    now destruct (x =? tok).
Qed.

Lemma where_from_absent (i : Z) (a : list Z) (tok : Z) :
  Forall (fun x => x <> tok) a -> where_from i a tok = [].
Proof.
  revert i. induction a as [|x a IH]; intros i H; [reflexivity|].
  inversion H as [|? ? Hx Ha]; subst. cbn [where_from].
  rewrite (proj2 (Z.eqb_neq x tok) Hx). now apply IH.
Qed.

Lemma in_grid_range (n x : Z) : In x (grid_range n) <-> 0 <= x < n.
Proof.
  unfold grid_range. rewrite in_map_iff. split.
  - intros (k & <- & Hk). apply in_seq in Hk. lia.
  - intros Hx. exists (Z.to_nat x). split; [lia|]. apply in_seq. lia.
Qed.

Lemma in_cartesian (t h w a b c : Z) :
  In (a, b, c) (cartesian t h w) <-> 0 <= a < t /\ 0 <= b < h /\ 0 <= c < w.
Proof.
  unfold cartesian. rewrite in_flat_map. split.
  - intros (a' & Ha & Hin). apply in_flat_map in Hin as (b' & Hb & Hin).
    apply in_map_iff in Hin as (c' & [= <- <- <-] & Hc).
    rewrite in_grid_range in Ha, Hb, Hc. auto.
  - intros (Ha & Hb & Hc). exists a. split; [now apply in_grid_range|].
    apply in_flat_map. exists b. split; [now apply in_grid_range|].
    apply in_map_iff. exists c. split; [reflexivity|now apply in_grid_range].
Qed.

Lemma fold_max_reaches (f : Z * Z * Z -> Z) (r : list (Z * Z * Z)) (init M : Z) :
  init <= M ->
  (forall c, In c r -> f c <= M) ->
  init = M \/ (exists c, In c r /\ f c = M) ->
  fold_left (fun acc c => Z.max acc (f c)) r init = M.
Proof.
  revert init. induction r as [|c r IH]; intros init Hinit Hle Hex.
  - destruct Hex as [H|(c & [] & _)]. exact H.
  - cbn [fold_left]. apply IH.
    + pose proof (Hle c (or_introl eq_refl)). lia.
    + intros c' Hc'. apply Hle. now right.
    + pose proof (Hle c (or_introl eq_refl)) as Hc.
      destruct Hex as [->|(c' & [<-|Hin] & Hf)].
      * left. lia.
      * left. lia.
      * right. now exists c'.
Qed.

(** The largest position id of a vision segment. *)
Lemma tensor_max_cartesian (t h w off : Z) :
  0 < t -> 0 < h -> 0 < w ->
  tensor_max (add_scalar (cartesian t h w) off)
  = inr (off + Z.max t (Z.max h w) - 1).
Proof.
  intros Ht Hh Hw.
  set (M := off + Z.max t (Z.max h w) - 1).
  assert (Hle : forall c, In c (add_scalar (cartesian t h w) off) -> col_max c <= M).
  { intros c Hc. unfold add_scalar in Hc. apply in_map_iff in Hc as ([[a b] d] & <- & Hin).
    apply in_cartesian in Hin. unfold col_max, M. lia. }
  assert (Hex : exists c, In c (add_scalar (cartesian t h w) off) /\ col_max c = M).
  { exists (t - 1 + off, h - 1 + off, w - 1 + off). split.
    - unfold add_scalar. apply in_map_iff. exists (t - 1, h - 1, w - 1).
      split; [reflexivity|]. apply in_cartesian. lia.
    - unfold col_max, M. lia. }
  destruct (add_scalar (cartesian t h w) off) as [|c r] eqn:E.
  - destruct Hex as (c & [] & _).
  - unfold tensor_max, ret. f_equal.
    apply fold_max_reaches.
    + apply Hle. now left.
    + intros c' Hc'. apply Hle. now right.
    + destruct Hex as (c' & [<-|Hin] & Hf); [now left|right; now exists c'].
Qed.

(** X2.  For a prompt of [n] text tokens, a start marker, vision tokens, an
    end marker and [k] more text tokens, with one grid of positive merged
    extents, the builder returns: the ids [0 .. n] on all three axes (for the
    text and the start marker), then the Cartesian product of the merged grid
    offset by [n + 1], then [k + 1] consecutive ids on all three axes (for
    the end marker and the text after it) that start one past the largest
    vision id, [n + max(t, h, w)].  The number of tokens between the markers
    is not looked at. *)
Theorem get_position_ids_one_image
    (self : Qwen2VLForConditionalGeneration) (pre vis post : list Z) (g : grid_thw) :
  let S := vision_start_token_id self in
  let E := vision_end_token_id self in
  let sms := spatial_merge_size self in
  let n := Z.of_nat (length pre) in
  let k := Z.of_nat (length post) in
  let t := grid_t g in
  let h := grid_h g / sms in
  let w := grid_w g / sms in
  0 < sms ->
  S <> E ->
  Forall (fun x => x <> S /\ x <> E) (pre ++ vis ++ post) ->
  0 < t -> 0 < h -> 0 < w ->
  get_position_ids self (pre ++ S :: vis ++ E :: post) (Some [g])
  = inr (transpose
           (expand3 (grid_range (n + 1))
            ++ add_scalar (cartesian t h w) (n + 1)
            ++ add_scalar (expand3 (grid_range (k + 1)))
                          (n + 1 + Z.max t (Z.max h w)))).
Proof.
  destruct self as [sms S E].
  cbn [vision_start_token_id vision_end_token_id spatial_merge_size].
  cbn zeta. intros Hsms HSE Htok Ht Hh Hw.
  apply Forall_app in Htok as [Hpre Htok]. apply Forall_app in Htok as [Hv Hpost].
  assert (HpreS : Forall (fun x => x <> S) pre)
    by (eapply Forall_impl; [|exact Hpre]; cbn; tauto).
  assert (HpreE : Forall (fun x => x <> E) pre)
    by (eapply Forall_impl; [|exact Hpre]; cbn; tauto).
  assert (HvS : Forall (fun x => x <> S) vis)
    by (eapply Forall_impl; [|exact Hv]; cbn; tauto).
  assert (HvE : Forall (fun x => x <> E) vis)
    by (eapply Forall_impl; [|exact Hv]; cbn; tauto).
  assert (HpostS : Forall (fun x => x <> S) post)
    by (eapply Forall_impl; [|exact Hpost]; cbn; tauto).
  assert (HpostE : Forall (fun x => x <> E) post)
    by (eapply Forall_impl; [|exact Hpost]; cbn; tauto).
  assert (Hstarts : where_eq (pre ++ S :: vis ++ E :: post) S
                    = [Z.of_nat (length pre)]).
  { unfold where_eq. rewrite where_from_app, (where_from_absent _ pre) by assumption.
    cbn [app where_from]. rewrite Z.eqb_refl.
    rewrite where_from_app, (where_from_absent _ vis) by assumption.
    cbn [app where_from]. rewrite (proj2 (Z.eqb_neq E S)) by congruence.
    rewrite (where_from_absent _ post) by assumption. f_equal; lia. }
  assert (Hends : where_eq (pre ++ S :: vis ++ E :: post) E
                  = [Z.of_nat (length pre) + 1 + Z.of_nat (length vis)]).
  { unfold where_eq. rewrite where_from_app, (where_from_absent _ pre) by assumption.
    cbn [app where_from]. rewrite (proj2 (Z.eqb_neq S E)) by assumption.
    rewrite where_from_app, (where_from_absent _ vis) by assumption.
    cbn [app where_from]. rewrite Z.eqb_refl.
    rewrite (where_from_absent _ post) by assumption. f_equal; lia. }
  unfold get_position_ids.
  cbn [vision_start_token_id vision_end_token_id spatial_merge_size].
  rewrite Hstarts, Hends.
  set (n := Z.of_nat (length pre)) in *.
  set (v := Z.of_nat (length vis)) in *.
  set (k := Z.of_nat (length post)) in *.
  assert (HN : Z.of_nat (length (pre ++ S :: vis ++ E :: post)) = n + 1 + v + 1 + k).
  { rewrite length_app. cbn [length]. rewrite length_app. cbn [length]. lia. }
  rewrite HN.
  cbn -[Z.eqb Z.div Z.mul Z.add Z.sub Z.ltb Z.max arange image_position_ids
        tensor_max add_scalar expand3 transpose].
  rewrite tensor_floordiv_ok by lia. cbn [map bind].
  cbn -[Z.eqb Z.div Z.mul Z.add Z.sub Z.ltb Z.max arange image_position_ids
        tensor_max add_scalar expand3 transpose].
  rewrite image_position_ids_cartesian by lia. cbn [bind ret].
  rewrite arange_ok by lia. cbn [bind ret].
  cbn -[Z.eqb Z.div Z.mul Z.add Z.sub Z.ltb Z.max arange image_position_ids
        tensor_max add_scalar expand3 transpose].
  replace (0 + (n - 0 + 1)) with (n + 1) by lia.
  rewrite tensor_max_cartesian by assumption. cbn [bind].
  replace (n + 1 + v + 1 + k - (n + 1 + v)) with (k + 1) by lia.
  destruct (0 <? k + 1) eqn:Ek; [|apply Z.ltb_ge in Ek; lia].
  rewrite arange_ok by lia. cbn [bind ret].
  unfold ret. do 2 f_equal. cbn [concat]. rewrite app_nil_r.
  f_equal; [|f_equal].
  - replace (n - 0 + 1) with (n + 1) by lia.
    replace (0 + (n + 1) - (n + 1)) with 0 by lia.
    unfold grid_range, add_scalar, expand3. rewrite map_map. apply map_ext.
    intros a. now rewrite Z.add_0_r.
  - unfold grid_range. f_equal. lia.
Qed.

Lemma get_position_ids_one_image_witness :
  get_position_ids Samples.qwen
    ([9906; 1917] ++ 151652 :: [151655; 151655; 151655; 151655; 151655; 151655]
                 ++ 151653 :: [198])
    (Some [mk_grid 1 4 6])
  = inr (transpose
           (expand3 (grid_range (2 + 1))
            ++ add_scalar (cartesian 1 2 3) (2 + 1)
            ++ add_scalar (expand3 (grid_range (1 + 1)))
                          (2 + 1 + Z.max 1 (Z.max 2 3)))).
Proof.
  apply (get_position_ids_one_image Samples.qwen [9906; 1917]
           [151655; 151655; 151655; 151655; 151655; 151655] [198]
           (mk_grid 1 4 6)).
  - reflexivity.
  - discriminate.
  - repeat constructor; discriminate.
  - reflexivity.
  - reflexivity.
  - reflexivity.
Defined.

(** X3.  When the input has a different number of start markers than of end
    markers, the builder with vision grids raises a [RuntimeError] (the
    marker positions cannot be stacked). *)
Theorem get_position_ids_unbalanced_markers
    (self : Qwen2VLForConditionalGeneration) (input_ids : list Z)
    (image_grid_thw : list grid_thw) :
  length (where_eq input_ids (vision_start_token_id self))
  <> length (where_eq input_ids (vision_end_token_id self)) ->
  get_position_ids self input_ids (Some image_grid_thw) = inl RuntimeError.
Proof.
  intros Hne. unfold get_position_ids, stack_pairs.
  apply Nat.eqb_neq in Hne. rewrite Hne. reflexivity.
Qed.

Lemma get_position_ids_unbalanced_markers_witness :
  get_position_ids Samples.qwen [9906; 151652; 151655; 198]
                   (Some [mk_grid 1 2 2])
  = inl RuntimeError.
Proof.
  apply (get_position_ids_unbalanced_markers Samples.qwen
           [9906; 151652; 151655; 198] [mk_grid 1 2 2]).
  discriminate.
Defined.

(** X4.  When vision grids are given but the input has no start marker and no
    end marker, the builder never returns position ids: it raises. *)
Theorem get_position_ids_without_markers
    (self : Qwen2VLForConditionalGeneration) (input_ids : list Z)
    (image_grid_thw : list grid_thw) :
  where_eq input_ids (vision_start_token_id self) = [] ->
  where_eq input_ids (vision_end_token_id self) = [] ->
  exists e, get_position_ids self input_ids (Some image_grid_thw) = inl e.
Proof.
  intros Hs He. unfold get_position_ids. rewrite Hs, He.
  cbn [stack_pairs length Nat.eqb bind ret combine map removelast].
  unfold broadcast2 at 1. cbn [length Nat.eqb map bind ret].
  destruct (tensor_floordiv _ _) as [e|widths]; [now exists e|].
  cbn [bind].
  destruct widths as [|w0 widths].
  - cbn. eexists. reflexivity.
  - cbn. eexists. reflexivity.
Qed.

Lemma get_position_ids_without_markers_witness :
  exists e,
    get_position_ids Samples.qwen [9906; 1917; 198] (Some [mk_grid 1 2 2])
    = inl e.
Proof.
  apply (get_position_ids_without_markers Samples.qwen [9906; 1917; 198]
           [mk_grid 1 2 2]); reflexivity.
Defined.

(** * Further properties of the vision tower *)

Lemma cumsum_from_chain (acc : Z) (x : list Z) :
  Forall (fun a => 0 <= a) x ->
  length (acc :: cumsum_from acc x) = S (length x)
  /\ last (acc :: cumsum_from acc x) 0 = acc + fold_right Z.add 0 x
  /\ Forall (fun p => fst p <= snd p)
            (combine (acc :: cumsum_from acc x) (tl (acc :: cumsum_from acc x))).
Proof.
  revert acc. induction x as [|a x IH]; intros acc Hx.
  - cbn. repeat split; [lia|constructor].
  - inversion Hx as [|? ? Ha Hx']; subst.
    destruct (IH (acc + a) Hx') as (Hlen & Hlast & Hsorted).
    cbn [cumsum_from]. repeat split.
    + cbn [length] in *. lia.
    + rewrite last_cons_default in Hlast. rewrite !last_cons_default, Hlast.
      cbn [fold_right]. lia.
    + cbn [tl combine]. constructor; [cbn; lia|exact Hsorted].
Qed.

Lemma segment_lengths_of_grid (f : grid_thw -> Z) (grid : list grid_thw) :
  flat_map (fun p => repeat (fst p) (Z.to_nat (snd p)))
           (combine (map f grid) (map grid_t grid))
  = flat_map (fun g => repeat (f g) (Z.to_nat (grid_t g))) grid.
Proof.
  induction grid as [|g grid IH]; [reflexivity|].
  cbn [map combine flat_map fst snd]. now rewrite IH.
Qed.

Lemma fold_right_add_app (a b : list Z) :
  fold_right Z.add 0 (a ++ b) = fold_right Z.add 0 a + fold_right Z.add 0 b.
Proof.
  induction a as [|x a IH]; cbn [app fold_right]; [lia|]. rewrite IH. lia.
Qed.

Lemma fold_right_add_repeat (x : Z) (k : nat) :
  fold_right Z.add 0 (repeat x k) = Z.of_nat k * x.
Proof.
  induction k as [|k IH]; [reflexivity|].
  cbn [repeat fold_right]. rewrite IH. lia.
Qed.

(** X6.  Inside the mask the vision attention is block-diagonal and not
    causal: for non-negative segment bounds and positions [i, j] below
    [max_seqlen], the mask entry is true exactly when [i] and [j] lie in the
    same segment, whichever of them comes first. *)
Theorem attention_mask_block_diagonal
    (cu_seqlens : list Z) (max_seqlen : Z) (i j : nat) :
  Forall (fun x => 0 <= x) cu_seqlens ->
  Z.of_nat i < max_seqlen -> Z.of_nat j < max_seqlen ->
  exists m,
    attention_mask cu_seqlens max_seqlen = inr m
    /\ mask_at m i j = Some (same_segment cu_seqlens (Z.of_nat i) (Z.of_nat j))
    /\ mask_at m i j = mask_at m j i.
Proof.
  intros Hcu Hi Hj.
  destruct (attention_mask_inside cu_seqlens max_seqlen i j Hcu) as (m & Hm & Hij);
    try lia.
  destruct (attention_mask_inside cu_seqlens max_seqlen j i Hcu) as (m' & Hm' & Hji);
    try lia.
  rewrite Hm in Hm'. injection Hm' as <-.
  exists m. repeat split; [assumption..|].
  rewrite Hij, Hji. f_equal. unfold same_segment.
  apply existsb_ext_in. intros p _.
  destruct (fst p <=? Z.of_nat i), (Z.of_nat i <? snd p),
    (fst p <=? Z.of_nat j), (Z.of_nat j <? snd p); reflexivity.
Qed.

Lemma attention_mask_block_diagonal_witness :
  exists m,
    attention_mask [0; 4; 6] 6 = inr m
    /\ mask_at m 1 5 = Some (same_segment [0; 4; 6] 1 5)
    /\ mask_at m 1 5 = mask_at m 5 1.
Proof.
  apply (attention_mask_block_diagonal [0; 4; 6] 6 1 5).
  - repeat constructor; discriminate.
  - reflexivity.
  - reflexivity.
Defined.

Lemma square_fold (n : nat) (pairs : list (Z * Z)) (m : bool_mask) :
  square n m ->
  square n (fold_left (fun m p => fill_block m (fst p) (snd p)) pairs m).
Proof.
  revert m. induction pairs as [|p pairs IH]; intros m Hsq; [exact Hsq|].
  cbn [fold_left]. apply IH. now apply square_fill_block.
Qed.

Lemma mask_all_true (n : nat) (m : bool_mask) :
  square n m ->
  (forall i j, (i < n)%nat -> (j < n)%nat -> mask_at m i j = Some true) ->
  m = repeat (repeat true n) n.
Proof.
  intros [Hlen Hrows] Hall. apply nth_error_ext. intros i.
  destruct (Nat.lt_ge_cases i n) as [Hi|Hi].
  - rewrite nth_error_repeat by assumption.
    destruct (nth_error m i) as [row|] eqn:Erow.
    + f_equal. apply nth_error_ext. intros j.
      assert (Hrow : length row = n).
      { rewrite Forall_forall in Hrows. apply Hrows.
        eapply nth_error_In; eassumption. }
      destruct (Nat.lt_ge_cases j n) as [Hj|Hj].
      * rewrite nth_error_repeat by assumption.
        specialize (Hall i j Hi Hj). unfold mask_at in Hall.
        now rewrite Erow in Hall.
      * rewrite (proj2 (nth_error_None row j)) by lia.
        symmetry. apply nth_error_None. rewrite repeat_length. lia.
    + apply nth_error_None in Erow. lia.
  - rewrite (proj2 (nth_error_None m i)) by lia.
    symmetry. apply nth_error_None. rewrite repeat_length. lia.
Qed.


(** * The rotary positions of the vision tower *)

Import Qwen2Vision.

Lemma flat_map_ext_in {A B : Type} (f g : A -> list B) (l : list A) :
  (forall x, In x l -> f x = g x) -> flat_map f l = flat_map g l.
Proof.
  induction l as [|x l IH]; intros H; [reflexivity|].
  cbn [flat_map]. rewrite (H x) by now left.
  rewrite IH; [reflexivity|]. intros y Hy. apply H. now right.
Qed.

Lemma combine_flat_map {A B C : Type} (f : A -> list B) (g : A -> list C)
    (l : list A) :
  (forall x, In x l -> length (f x) = length (g x)) ->
  combine (flat_map f l) (flat_map g l) = flat_map (fun x => combine (f x) (g x)) l.
Proof.
  induction l as [|x l IH]; intros H; [reflexivity|].
  cbn [flat_map]. rewrite combine_app_same by (apply H; now left).
  rewrite IH; [reflexivity|]. intros y Hy. apply H. now right.
Qed.

Lemma combine_map_same {A B C : Type} (f : A -> B) (g : A -> C) (l : list A) :
  combine (map f l) (map g l) = map (fun x => (f x, g x)) l.
Proof.
  induction l as [|x l IH]; [reflexivity|]. cbn [map combine]. now rewrite IH.
Qed.

Lemma length_flat_map_uniform {A B : Type} (f : A -> list B) (l : list A) (L : nat) :
  (forall x, In x l -> length (f x) = L) ->
  length (flat_map f l) = (length l * L)%nat.
Proof.
  induction l as [|x l IH]; intros H; [reflexivity|].
  cbn [flat_map length]. rewrite length_app, (H x) by now left.
  rewrite IH; [lia|]. intros y Hy. apply H. now right.
Qed.

Lemma length_rows_of_block {X : Type} (b d : nat) (f : nat -> nat -> X) :
  length (flat_map (fun j => map (fun l => f j l) (seq 0 d)) (seq 0 b))
  = (b * d)%nat.
Proof.
  rewrite (length_flat_map_uniform _ _ d), length_seq; [reflexivity|].
  intros j _. now rewrite length_map, length_seq.
Qed.

Lemma length_row_of_blocks {X : Type} (b c d : nat) (f : nat -> nat -> nat -> X) :
  length (flat_map (fun k =>
            flat_map (fun j => map (fun l => f j k l) (seq 0 d)) (seq 0 b))
            (seq 0 c))
  = (c * (b * d))%nat.
Proof.
  rewrite (length_flat_map_uniform _ _ (b * d)), length_seq; [reflexivity|].
  intros k _. apply length_rows_of_block.
Qed.

Lemma length_blocks {X : Type} (a b c d : nat) (f : nat -> nat -> nat -> nat -> X) :
  length (blocks a b c d f) = (a * (c * (b * d)))%nat.
Proof.
  unfold blocks.
  rewrite (length_flat_map_uniform _ _ (c * (b * d))), length_seq; [reflexivity|].
  intros i _. apply length_row_of_blocks.
Qed.

Lemma blocks_ext_in {X : Type} (a b c d : nat)
    (f g : nat -> nat -> nat -> nat -> X) :
  (forall i j k l, (i < a)%nat -> (j < b)%nat -> (k < c)%nat -> (l < d)%nat ->
     f i j k l = g i j k l) ->
  blocks a b c d f = blocks a b c d g.
Proof.
  intros H. unfold blocks.
  apply flat_map_ext_in. intros i Hi. apply in_seq in Hi.
  apply flat_map_ext_in. intros k Hk. apply in_seq in Hk.
  apply flat_map_ext_in. intros j Hj. apply in_seq in Hj.
  apply map_ext_in. intros l Hl. apply in_seq in Hl.
  apply H; lia.
Qed.

Lemma combine_blocks {X Y : Type} (a b c d : nat)
    (f : nat -> nat -> nat -> nat -> X) (g : nat -> nat -> nat -> nat -> Y) :
  combine (blocks a b c d f) (blocks a b c d g)
  = blocks a b c d (fun i j k l => (f i j k l, g i j k l)).
Proof.
  unfold blocks.
  rewrite combine_flat_map
    by (intros i _; now rewrite !length_row_of_blocks).
  apply flat_map_ext_in. intros i _.
  rewrite combine_flat_map
    by (intros k _; now rewrite !length_rows_of_block).
  apply flat_map_ext_in. intros k _.
  rewrite combine_flat_map by (intros j _; now rewrite !length_map).
  apply flat_map_ext_in. intros j _.
  apply combine_map_same.
Qed.

Lemma Permutation_flat_map_swap {A B C : Type} (f : A -> B -> list C)
    (la : list A) (lb : list B) :
  Permutation (flat_map (fun x => flat_map (fun y => f x y) lb) la)
              (flat_map (fun y => flat_map (fun x => f x y) la) lb).
Proof.
  induction la as [|x la IH].
  - cbn. induction lb as [|y lb IHb]; [constructor|exact IHb].
  - cbn [flat_map]. rewrite IH. clear IH.
    induction lb as [|y lb IHb]; [constructor|].
    cbn [flat_map]. rewrite <- IHb.
    rewrite !app_assoc. apply Permutation_app_tail.
    rewrite <- !app_assoc. apply Permutation_app_head.
    apply Permutation_app_comm.
Qed.

Lemma Permutation_flat_map_ext {A B : Type} (f g : A -> list B) (l : list A) :
  (forall x, Permutation (f x) (g x)) ->
  Permutation (flat_map f l) (flat_map g l).
Proof.
  intros H. induction l as [|x l IH]; [constructor|].
  cbn [flat_map]. now apply Permutation_app.
Qed.

Lemma flat_map_flat_map {A B C : Type} (f : B -> list C) (g : A -> list B)
    (l : list A) :
  flat_map f (flat_map g l) = flat_map (fun x => flat_map f (g x)) l.
Proof.
  induction l as [|x l IH]; [reflexivity|].
  cbn [flat_map]. now rewrite flat_map_app, IH.
Qed.

Lemma flat_map_map {A B C : Type} (f : B -> list C) (g : A -> B) (l : list A) :
  flat_map f (map g l) = flat_map (fun x => f (g x)) l.
Proof.
  induction l as [|x l IH]; [reflexivity|]. cbn [map flat_map]. now rewrite IH.
Qed.

Lemma map_flat_map {A B C : Type} (f : B -> C) (g : A -> list B) (l : list A) :
  map f (flat_map g l) = flat_map (fun x => map f (g x)) l.
Proof.
  induction l as [|x l IH]; [reflexivity|].
  cbn [flat_map]. now rewrite map_app, IH.
Qed.

Lemma seq_offset (s n : nat) : seq s n = map (fun j => (s + j)%nat) (seq 0 n).
Proof.
  revert s. induction n as [|n IH]; intros s; [reflexivity|].
  cbn [seq map]. rewrite Nat.add_0_r. f_equal.
  rewrite (IH (S s)), (IH 1%nat), map_map. apply map_ext. intros j. lia.
Qed.

(** [0 .. a*m - 1] block by block. *)
Lemma seq_blocks (a m : nat) :
  seq 0 (a * m)
  = flat_map (fun i => map (fun j => (i * m + j)%nat) (seq 0 m)) (seq 0 a).
Proof.
  induction a as [|a IH]; [reflexivity|].
  rewrite seq_S, flat_map_app. cbn [flat_map]. rewrite app_nil_r, <- IH.
  replace (S a * m)%nat with (a * m + m)%nat by lia.
  rewrite seq_app. f_equal. cbn [Nat.add]. apply seq_offset.
Qed.

Lemma length_range_nat (n : nat) : length (map Z.of_nat (seq 0 n)) = n.
Proof. now rewrite length_map, length_seq. Qed.

Lemma nth_expand_columns (h w i j : nat) :
  (i < h)%nat -> (j < w)%nat ->
  nth (i * w + j) (flat_map (fun a => repeat a w) (map Z.of_nat (seq 0 h))) 0
  = Z.of_nat i.
Proof.
  intros Hi Hj. apply nth_error_nth. rewrite flat_map_of_nat.
  rewrite nth_interleaved by nia.
  rewrite Nat.div_add_l, Nat.div_small by lia. do 2 f_equal. lia.
Qed.

Lemma nth_error_concat_repeat (l : list Z) (h q : nat) :
  (q < h * length l)%nat ->
  nth_error (concat (repeat l h)) q = nth_error l (q mod length l).
Proof.
  revert q. induction h as [|h IH]; intros q Hq; [lia|].
  assert (Hl : (0 < length l)%nat) by (destruct l; cbn in *; lia).
  cbn [repeat concat].
  destruct (Nat.lt_ge_cases q (length l)) as [Hlt|Hge].
  - rewrite nth_error_app1 by assumption. now rewrite Nat.mod_small.
  - rewrite nth_error_app2 by assumption. rewrite IH by nia.
    f_equal.
    replace q with ((q - length l) + 1 * length l)%nat at 2 by lia.
    now rewrite Nat.Div0.mod_add.
Qed.

Lemma nth_expand_rows (h w i j : nat) :
  (i < h)%nat -> (j < w)%nat ->
  nth (i * w + j) (concat (repeat (map Z.of_nat (seq 0 w)) h)) 0 = Z.of_nat j.
Proof.
  intros Hi Hj. apply nth_error_nth.
  rewrite nth_error_concat_repeat by (rewrite length_range_nat; nia).
  rewrite length_range_nat.
  rewrite Nat.add_comm, Nat.Div0.mod_add, Nat.mod_small by lia.
  rewrite nth_error_map, nth_error_seq.
  destruct (j <? w)%nat eqn:E; [reflexivity|apply Nat.ltb_ge in E; lia].
Qed.

(** The positions of one grid: [t] copies of the grid in merge order. *)
Lemma grid_pos_ids_frame (m : Z) (g : grid_thw) :
  0 < m ->
  0 <= grid_t g -> 0 <= grid_h g -> 0 <= grid_w g ->
  grid_h g mod m = 0 -> grid_w g mod m = 0 ->
  grid_pos_ids m g
  = inr (concat (repeat (merge_order (Z.to_nat (grid_h g / m))
                                     (Z.to_nat (grid_w g / m)) (Z.to_nat m))
                        (Z.to_nat (grid_t g)))).
Proof.
  intros Hm Ht Hh Hw Hhm Hwm. unfold grid_pos_ids.
  set (t := grid_t g) in *. set (h := grid_h g) in *. set (w := grid_w g) in *.
  assert (Eh : h = m * (h / m)) by (apply Z.div_exact; lia).
  assert (Ew : w = m * (w / m)) by (apply Z.div_exact; lia).
  assert (Hhq : 0 <= h / m) by (apply Z.div_pos; lia).
  assert (Hwq : 0 <= w / m) by (apply Z.div_pos; lia).
  set (A := Z.to_nat (h / m)). set (C := Z.to_nat (w / m)).
  set (M := Z.to_nat m).
  assert (EA : Z.to_nat h = (A * M)%nat)
    by (unfold A, M; rewrite <- Z2Nat.inj_mul by lia; f_equal; lia).
  assert (EC : Z.to_nat w = (C * M)%nat)
    by (unfold C, M; rewrite <- Z2Nat.inj_mul by lia; f_equal; lia).
  unfold expand_columns, expand_rows, repeat_interleave, tensor_repeat.
  rewrite !arange_ok by assumption. cbn [bind].
  rewrite (ltb_nonneg w), (ltb_nonneg h) by assumption. cbn [bind ret].
  rewrite !floordiv_ok by lia. cbn [bind].
  unfold reshape_permute_flatten.
  rewrite (ltb_nonneg (h / m)), (ltb_nonneg (w / m)), (ltb_nonneg m) by lia.
  cbn [orb].
  rewrite length_flat_map_repeat, length_concat_repeat, !length_range.
  assert (Hsize : Z.of_nat (Z.to_nat h * Z.to_nat w) = h / m * m * (w / m) * m)
    by (rewrite Nat2Z.inj_mul, !Z2Nat.id by lia; nia).
  rewrite Hsize, Z.eqb_refl. cbn [negb bind ret].
  fold A C M.
  unfold stack_pairs. rewrite !length_blocks, Nat.eqb_refl. cbn [bind ret].
  rewrite (ltb_nonneg t) by assumption.
  rewrite combine_blocks. unfold ret, merge_order. do 3 f_equal.
  apply blocks_ext_in. intros i j k l Hi Hj Hk Hl.
  replace ((((i * M + j) * C + k) * M + l))%nat
    with ((i * M + j) * (C * M) + (k * M + l))%nat by nia.
  rewrite EA, EC.
  rewrite nth_expand_columns, nth_expand_rows by nia.
  reflexivity.
Qed.

Lemma merge_order_permutation (hm wm m : nat) :
  Permutation (merge_order hm wm m)
              (list_prod (map Z.of_nat (seq 0 (hm * m)))
                         (map Z.of_nat (seq 0 (wm * m)))).
Proof.
  unfold merge_order, blocks.
  rewrite list_prod_as_flat_map, flat_map_map, (seq_blocks hm m), flat_map_flat_map.
  apply Permutation_flat_map_ext. intros i.
  rewrite flat_map_map.
  rewrite (Permutation_flat_map_swap
             (fun k j => map (fun l => (Z.of_nat (i * m + j), Z.of_nat (k * m + l)))
                             (seq 0 m))).
  apply Permutation_flat_map_ext. intros j.
  rewrite (seq_blocks wm m), map_flat_map, map_flat_map.
  apply Permutation_flat_map_ext. intros k.
  rewrite !map_map. reflexivity.
Qed.

(** X8.  For a grid whose height and width are multiples of the merge size,
    the vision tower lists, for each of the [t] temporal frames, the
    (height, width) position of every patch exactly once: the positions of a
    frame are a permutation of all pairs [(i, j)] with [i < h] and [j < w]. *)
Theorem grid_pos_ids_permutation (m : Z) (g : grid_thw) :
  0 < m ->
  0 <= grid_t g -> 0 <= grid_h g -> 0 <= grid_w g ->
  grid_h g mod m = 0 -> grid_w g mod m = 0 ->
  exists frame,
    grid_pos_ids m g = inr (concat (repeat frame (Z.to_nat (grid_t g))))
    /\ Permutation frame (list_prod (grid_range (grid_h g)) (grid_range (grid_w g))).
Proof.
  intros Hm Ht Hh Hw Hhm Hwm.
  eexists. split; [apply grid_pos_ids_frame; assumption|].
  assert (Eh : grid_h g = m * (grid_h g / m)) by (apply Z.div_exact; lia).
  assert (Ew : grid_w g = m * (grid_w g / m)) by (apply Z.div_exact; lia).
  assert (Hhq : 0 <= grid_h g / m) by (apply Z.div_pos; lia).
  assert (Hwq : 0 <= grid_w g / m) by (apply Z.div_pos; lia).
  unfold grid_range.
  replace (Z.to_nat (grid_h g))
    with (Z.to_nat (grid_h g / m) * Z.to_nat m)%nat
    by (rewrite <- Z2Nat.inj_mul by lia; f_equal; lia).
  replace (Z.to_nat (grid_w g))
    with (Z.to_nat (grid_w g / m) * Z.to_nat m)%nat
    by (rewrite <- Z2Nat.inj_mul by lia; f_equal; lia).
  apply merge_order_permutation.
Qed.

Lemma grid_pos_ids_permutation_witness :
  exists frame,
    grid_pos_ids 2 (mk_grid 3 4 6) = inr (concat (repeat frame 3))
    /\ Permutation frame (list_prod (grid_range 4) (grid_range 6)).
Proof.
  apply (grid_pos_ids_permutation 2 (mk_grid 3 4 6));
    reflexivity || discriminate.
Defined.

Lemma nth_error_flat_map_uniform {B : Type} (f : nat -> list B) (L s n q : nat) :
  (forall x, length (f x) = L) ->
  (q < n * L)%nat ->
  nth_error (flat_map f (seq s n)) q = nth_error (f (s + q / L)%nat) (q mod L).
Proof.
  intros Hf. revert s q. induction n as [|n IH]; intros s q Hq; [lia|].
  assert (HL : (0 < L)%nat) by (destruct L; lia).
  cbn [seq flat_map].
  destruct (Nat.lt_ge_cases q L) as [Hlt|Hge].
  - rewrite nth_error_app1 by (rewrite Hf; assumption).
    rewrite Nat.div_small, Nat.mod_small, Nat.add_0_r by assumption.
    reflexivity.
  - rewrite nth_error_app2 by (rewrite Hf; assumption).
    rewrite Hf, IH by lia.
    replace q with ((q - L) + 1 * L)%nat at 3 4 by lia.
    rewrite Nat.div_add, Nat.Div0.mod_add by lia.
    do 2 f_equal. lia.
Qed.

(** The entry of [blocks] at a position below its length. *)
Lemma nth_error_blocks {X : Type} (a b c d : nat)
    (f : nat -> nat -> nat -> nat -> X) (q : nat) :
  (q < a * (c * (b * d)))%nat ->
  nth_error (blocks a b c d f) q
  = Some (f (q / (c * (b * d)))%nat
            ((q mod (c * (b * d))) mod (b * d) / d)%nat
            ((q mod (c * (b * d))) / (b * d))%nat
            ((q mod (c * (b * d))) mod (b * d) mod d)%nat).
Proof.
  intros Hq. unfold blocks.
  assert (H1 : (0 < c * (b * d))%nat) by (destruct (c * (b * d))%nat; lia).
  assert (H2 : (0 < b * d)%nat) by (destruct (b * d)%nat; lia).
  assert (H3 : (0 < d)%nat) by (destruct d; lia).
  rewrite (nth_error_flat_map_uniform _ (c * (b * d)))
    by (try (intros; apply length_row_of_blocks); assumption).
  cbn [Nat.add].
  set (r1 := (q mod (c * (b * d)))%nat).
  assert (Hr1 : (r1 < c * (b * d))%nat) by (apply Nat.mod_upper_bound; lia).
  rewrite (nth_error_flat_map_uniform _ (b * d))
    by (try (intros; apply length_rows_of_block); assumption).
  cbn [Nat.add].
  set (r2 := (r1 mod (b * d))%nat).
  assert (Hr2 : (r2 < b * d)%nat) by (apply Nat.mod_upper_bound; lia).
  rewrite (nth_error_flat_map_uniform _ d)
    by (try (intros; now rewrite length_map, length_seq); assumption).
  cbn [Nat.add].
  rewrite nth_error_map, nth_error_seq.
  assert (Hr3 : (r2 mod d < d)%nat) by (apply Nat.mod_upper_bound; lia).
  apply Nat.ltb_lt in Hr3. rewrite Hr3. reflexivity.
Qed.

Lemma merge_order_block (hm wm m n : nat) (p q : Z) :
  nth_error (merge_order hm wm m) n = Some (p, q) ->
  p / Z.of_nat m = Z.of_nat (n / (m * m) / wm)
  /\ q / Z.of_nat m = Z.of_nat ((n / (m * m)) mod wm).
Proof.
  intros Hn.
  assert (Hlen : (n < hm * (wm * (m * m)))%nat).
  { rewrite <- (length_blocks hm m wm m
                  (fun i j k l => (Z.of_nat (i * m + j), Z.of_nat (k * m + l)))).
    apply nth_error_Some. unfold merge_order in Hn. congruence. }
  assert (Hm : (0 < m)%nat) by (destruct m; lia).
  assert (Hwm : (0 < wm)%nat) by (destruct wm; lia).
  unfold merge_order in Hn. rewrite nth_error_blocks in Hn by assumption.
  injection Hn as <- <-.
  set (r1 := (n mod (wm * (m * m)))%nat).
  set (r2 := (r1 mod (m * m))%nat).
  assert (Hr2 : (r2 < m * m)%nat) by (apply Nat.mod_upper_bound; nia).
  assert (Hj : (r2 / m < m)%nat) by (apply Nat.Div0.div_lt_upper_bound; lia).
  assert (Hl : (r2 mod m < m)%nat) by (apply Nat.mod_upper_bound; lia).
  rewrite <- !Nat2Z.inj_div.
  rewrite !Nat.div_add_l, !(Nat.div_small _ m) by lia.
  rewrite !Nat.add_0_r.
  split; f_equal.
  - rewrite Nat.Div0.div_div. f_equal. lia.
  - unfold r1. rewrite (Nat.mul_comm wm (m * m)).
    rewrite Nat.Div0.mod_mul_r.
    rewrite (Nat.mul_comm (m * m) (_ mod wm)), Nat.div_add by nia.
    rewrite (Nat.div_small (n mod (m * m))) by (apply Nat.mod_upper_bound; nia).
    reflexivity.
Qed.

(** X9.  The positions of a frame come merge block by merge block: the
    patch at place [n] of the frame lies in the block of row [(n / m^2) / (w/m)]
    and column [(n / m^2) mod (w/m)] of the merged grid, so that every run of
    [m^2] consecutive places is one [m] by [m] block, and the blocks follow
    each other in row-major order. *)
Theorem grid_pos_ids_merge_blocks (m : Z) (g : grid_thw) :
  0 < m ->
  0 <= grid_t g -> 0 <= grid_h g -> 0 <= grid_w g ->
  grid_h g mod m = 0 -> grid_w g mod m = 0 ->
  exists frame,
    grid_pos_ids m g = inr (concat (repeat frame (Z.to_nat (grid_t g))))
    /\ length frame = Z.to_nat (grid_h g * grid_w g)
    /\ forall n p q,
         nth_error frame n = Some (p, q) ->
         let block := (n / (Z.to_nat m * Z.to_nat m))%nat in
         p / m = Z.of_nat (block / Z.to_nat (grid_w g / m))
         /\ q / m = Z.of_nat (block mod Z.to_nat (grid_w g / m)).
Proof.
  intros Hm Ht Hh Hw Hhm Hwm.
  eexists. split; [apply grid_pos_ids_frame; assumption|].
  assert (Eh : grid_h g = m * (grid_h g / m)) by (apply Z.div_exact; lia).
  assert (Ew : grid_w g = m * (grid_w g / m)) by (apply Z.div_exact; lia).
  assert (Hhq : 0 <= grid_h g / m) by (apply Z.div_pos; lia).
  assert (Hwq : 0 <= grid_w g / m) by (apply Z.div_pos; lia).
  split.
  - unfold merge_order. rewrite length_blocks.
    rewrite <- !Z2Nat.inj_mul by nia. f_equal. nia.
  - intros n p q Hn. cbn zeta.
    destruct (merge_order_block _ _ _ _ _ _ Hn) as [Hp Hq].
    rewrite Z2Nat.id in Hp, Hq by lia. split; assumption.
Qed.

Lemma grid_pos_ids_merge_blocks_witness :
  exists frame,
    grid_pos_ids 2 (mk_grid 1 4 6) = inr (concat (repeat frame 1))
    /\ length frame = 24%nat
    /\ forall n p q,
         nth_error frame n = Some (p, q) ->
         p / 2 = Z.of_nat (n / 4 / 3) /\ q / 2 = Z.of_nat ((n / 4) mod 3).
Proof.
  apply (grid_pos_ids_merge_blocks 2 (mk_grid 1 4 6));
    reflexivity || discriminate.
Defined.

Lemma mapM_map_inr {A B : Type} (f : A -> result B) (g : A -> B) (l : list A) :
  (forall x, In x l -> f x = inr (g x)) -> mapM f l = inr (map g l).
Proof.
  induction l as [|x l IH]; intros H; [reflexivity|].
  cbn [mapM map]. rewrite (H x) by now left. cbn [bind].
  rewrite IH by (intros y Hy; apply H; now right). reflexivity.
Qed.

Lemma fold_left_max_ge (l : list Z) (a : Z) :
  a <= fold_left Z.max l a /\ forall x, In x l -> x <= fold_left Z.max l a.
Proof.
  revert a. induction l as [|y l IH]; intros a.
  - cbn. split; [lia|contradiction].
  - cbn [fold_left]. destruct (IH (Z.max a y)) as [H1 H2]. split; [lia|].
    intros x [<-|Hx]; [lia|]. now apply H2.
Qed.

Lemma vector_max_ge (l : list Z) (mx : Z) :
  vector_max l = inr mx -> forall x, In x l -> x <= mx.
Proof.
  destruct l as [|a l]; [discriminate|]. cbn [vector_max ret]. intros [= <-] x Hx.
  destruct (fold_left_max_ge l a) as [H1 H2].
  destruct Hx as [<-|Hx]; [assumption|now apply H2].
Qed.

Lemma in_concat_repeat {A : Type} (x : A) (l : list A) (k : nat) :
  In x (concat (repeat l k)) -> In x l.
Proof.
  induction k as [|k IH]; cbn [repeat concat]; [contradiction|].
  intros H. apply in_app_or in H as [H|H]; [assumption|now apply IH].
Qed.

Lemma index_row_range {A : Type} (f : Z -> A) (n i : Z) :
  0 <= i < n -> index_row (map f (grid_range n)) i = inr (f i).
Proof.
  intros Hi. unfold index_row, grid_range.
  rewrite !length_map, length_seq, Z2Nat.id by lia.
  destruct (i <? - n) eqn:E1; [apply Z.ltb_lt in E1; lia|].
  destruct (n <=? i) eqn:E2; [apply Z.leb_le in E2; lia|].
  cbn [orb]. rewrite (ltb_nonneg i) by lia.
  unfold item. rewrite !nth_error_map, nth_error_seq.
  destruct (Z.to_nat i <? Z.to_nat n)%nat eqn:E3.
  - cbn [option_map ret Nat.add]. now rewrite Z2Nat.id by lia.
  - apply Nat.ltb_ge in E3. lia.
Qed.

Lemma grid_pos_ids_in_grid (m : Z) (g : grid_thw) (p q : Z) :
  0 < m ->
  0 <= grid_t g -> 0 <= grid_h g -> 0 <= grid_w g ->
  grid_h g mod m = 0 -> grid_w g mod m = 0 ->
  In (p, q) (concat (repeat (merge_order (Z.to_nat (grid_h g / m))
                                         (Z.to_nat (grid_w g / m)) (Z.to_nat m))
                            (Z.to_nat (grid_t g)))) ->
  0 <= p < grid_h g /\ 0 <= q < grid_w g.
Proof.
  intros Hm Ht Hh Hw Hhm Hwm Hin.
  apply in_concat_repeat in Hin.
  destruct (grid_pos_ids_permutation m g Hm Ht Hh Hw Hhm Hwm) as (frame & Hf & Hperm).
  rewrite grid_pos_ids_frame in Hf by assumption.
  assert (Eh : grid_h g = m * (grid_h g / m)) by (apply Z.div_exact; lia).
  assert (Ew : grid_w g = m * (grid_w g / m)) by (apply Z.div_exact; lia).
  assert (Hhq : 0 <= grid_h g / m) by (apply Z.div_pos; lia).
  assert (Hwq : 0 <= grid_w g / m) by (apply Z.div_pos; lia).
  pose proof (merge_order_permutation (Z.to_nat (grid_h g / m))
                (Z.to_nat (grid_w g / m)) (Z.to_nat m)) as HP.
  apply (Permutation_in _ HP) in Hin. apply in_prod_iff in Hin as [Hp Hq].
  apply in_map_iff in Hp as (i & <- & Hi). apply in_seq in Hi.
  apply in_map_iff in Hq as (j & <- & Hj). apply in_seq in Hj.
  rewrite <- Z2Nat.inj_mul in Hi, Hj by lia.
  split; split; lia.
Qed.

(** X10.  For a non-empty batch of grids with non-negative extents whose
    heights and widths are multiples of the merge size, the vision tower
    computes one (height, width) position per patch, every position lies
    inside the rotary table of [max_grid_size] rows, and the lookup
    [rotary_pos_emb_full[pos_ids]] gives every patch the table rows of its own
    height and width position without an index error. *)
Theorem rotary_pos_emb_in_table {A : Type} (m : Z) (grid : list grid_thw) (row : Z -> A) :
  0 < m ->
  grid <> [] ->
  Forall (fun g => 0 <= grid_t g /\ 0 <= grid_h g /\ 0 <= grid_w g
                   /\ grid_h g mod m = 0 /\ grid_w g mod m = 0) grid ->
  exists positions size,
    pos_ids m grid = inr positions
    /\ max_grid_size grid = inr size
    /\ Z.of_nat (length positions)
       = fold_right Z.add 0 (map (fun g => grid_t g * (grid_h g * grid_w g)) grid)
    /\ Forall (fun p => 0 <= fst p < size /\ 0 <= snd p < size) positions
    /\ rotary_pos_emb (map row (grid_range size)) positions
       = inr (map (fun p => (row (fst p), row (snd p))) positions).
Proof.
  intros Hm Hne Hgrid.
  set (frames := fun g =>
         concat (repeat (merge_order (Z.to_nat (grid_h g / m))
                                     (Z.to_nat (grid_w g / m)) (Z.to_nat m))
                        (Z.to_nat (grid_t g)))).
  assert (Hper : mapM (grid_pos_ids m) grid = inr (map frames grid)).
  { apply mapM_map_inr. intros g Hg. rewrite Forall_forall in Hgrid.
    destruct (Hgrid g Hg) as (Ht & Hh & Hw & Hhm & Hwm).
    apply grid_pos_ids_frame; assumption. }
  assert (Hsize : exists size, max_grid_size grid = inr size).
  { unfold max_grid_size. destruct grid as [|g grid]; [contradiction|].
    cbn [flat_map app vector_max]. eexists. reflexivity. }
  destruct Hsize as (size & Hsize).
  exists (concat (map frames grid)), size.
  assert (Hin : Forall (fun p => 0 <= fst p < size /\ 0 <= snd p < size)
                       (concat (map frames grid))).
  { apply Forall_forall. intros [p q] Hpq.
    apply in_concat in Hpq as (fr & Hfr & Hpq).
    apply in_map_iff in Hfr as (g & <- & Hg).
    rewrite Forall_forall in Hgrid.
    destruct (Hgrid g Hg) as (Ht & Hh & Hw & Hhm & Hwm).
    destruct (grid_pos_ids_in_grid m g p q Hm Ht Hh Hw Hhm Hwm Hpq) as [Hp Hq].
    assert (grid_h g <= size /\ grid_w g <= size) as [H1 H2].
    { split; apply (vector_max_ge _ _ Hsize); apply in_flat_map; exists g;
        (split; [assumption|cbn; auto]). }
    cbn [fst snd]. lia. }
  repeat split.
  - unfold pos_ids. rewrite Hper. cbn [bind].
    destruct grid; [contradiction|reflexivity].
  - assumption.
  - clear - Hm Hgrid. induction Hgrid as [|g grid (Ht & Hh & Hw & Hhm & Hwm) _ IH];
      [reflexivity|].
    cbn [map concat fold_right]. rewrite length_app, Nat2Z.inj_add, IH.
    f_equal. unfold frames.
    assert (Hlen : forall (l : list (Z * Z)) k,
               length (concat (repeat l k)) = (k * length l)%nat).
    { intros l k. induction k as [|k IHk]; [reflexivity|].
      cbn [repeat concat]. rewrite length_app, IHk. lia. }
    rewrite Hlen. unfold merge_order. rewrite length_blocks.
    assert (Eh : grid_h g = m * (grid_h g / m)) by (apply Z.div_exact; lia).
    assert (Ew : grid_w g = m * (grid_w g / m)) by (apply Z.div_exact; lia).
    assert (Hhq : 0 <= grid_h g / m) by (apply Z.div_pos; lia).
    assert (Hwq : 0 <= grid_w g / m) by (apply Z.div_pos; lia).
    rewrite !Nat2Z.inj_mul, !Z2Nat.id by lia. nia.
  - assumption.
  - unfold rotary_pos_emb. apply mapM_map_inr. intros [p q] Hpq.
    rewrite Forall_forall in Hin. destruct (Hin _ Hpq) as [Hp Hq].
    cbn [fst snd] in *.
    rewrite !index_row_range by assumption. reflexivity.
Qed.

Lemma rotary_pos_emb_in_table_witness :
  exists positions size,
    pos_ids 2 [mk_grid 1 2 4; mk_grid 2 4 2] = inr positions
    /\ max_grid_size [mk_grid 1 2 4; mk_grid 2 4 2] = inr size
    /\ Z.of_nat (length positions) = 24
    /\ Forall (fun p => 0 <= fst p < size /\ 0 <= snd p < size) positions
    /\ rotary_pos_emb (map (fun i => 10 * i) (grid_range size)) positions
       = inr (map (fun p => (10 * fst p, 10 * snd p)) positions).
Proof.
  apply (rotary_pos_emb_in_table 2 [mk_grid 1 2 4; mk_grid 2 4 2]
           (fun i => 10 * i)).
  - reflexivity.
  - discriminate.
  - repeat constructor; discriminate.
Defined.

(** * From the grids to the segments and the mask of the blocks *)

Lemma int32_small (x : Z) : - 2 ^ 31 <= x < 2 ^ 31 -> int32 x = x.
Proof. intros H. unfold int32. rewrite Z.mod_small by lia. lia. Qed.

Lemma int64_small (x : Z) : - 2 ^ 63 <= x < 2 ^ 63 -> int64 x = x.
Proof. intros H. unfold int64. rewrite Z.mod_small by lia. lia. Qed.

Lemma fold_right_add_nonneg (x : list Z) :
  Forall (fun a => 0 <= a) x -> 0 <= fold_right Z.add 0 x.
Proof. induction 1; cbn [fold_right]; lia. Qed.

Lemma In_le_sum (x : list Z) (a : Z) :
  Forall (fun b => 0 <= b) x -> In a x -> a <= fold_right Z.add 0 x.
Proof.
  induction 1 as [|b x Hb Hx IH]; [contradiction|].
  pose proof (fold_right_add_nonneg x Hx).
  cbn [fold_right]. intros [<-|Ha]; [lia|]. specialize (IH Ha). lia.
Qed.

(** Below [2 ^ 31] the sums in 32 bits are the exact sums. *)
Lemma cumsum_int32_from_exact (acc : Z) (x : list Z) :
  0 <= acc -> Forall (fun a => 0 <= a) x ->
  acc + fold_right Z.add 0 x < 2 ^ 31 ->
  cumsum_int32_from acc x = cumsum_from acc x.
Proof.
  revert acc. induction x as [|a x IH]; intros acc Hacc Hx Hsum; [reflexivity|].
  inversion Hx as [|? ? Ha Hx']; subst.
  pose proof (fold_right_add_nonneg x Hx') as Hrest.
  cbn [fold_right] in Hsum. cbn [cumsum_int32_from cumsum_from].
  rewrite (int32_small a) by lia. rewrite (int32_small (acc + a)) by lia.
  f_equal. apply IH; [lia|assumption|lia].
Qed.

Lemma cumsum_differences (acc : Z) (x : list Z) :
  map (fun p => fst p - snd p)
      (combine (cumsum_from acc x) (removelast (acc :: cumsum_from acc x)))
  = x.
Proof.
  revert acc. induction x as [|a x IH]; intros acc; [reflexivity|].
  cbn [cumsum_from].
  change (removelast (acc :: acc + a :: cumsum_from (acc + a) x))
    with (acc :: removelast (acc + a :: cumsum_from (acc + a) x)).
  cbn [combine map fst snd]. rewrite IH. f_equal. lia.
Qed.

Lemma frame_sizes_sum (grid : list grid_thw) :
  Forall (fun g => 0 <= grid_t g /\ 0 <= grid_h g /\ 0 <= grid_w g) grid ->
  Forall (fun a => 0 <= a)
         (flat_map (fun g => repeat (grid_h g * grid_w g) (Z.to_nat (grid_t g)))
                   grid)
  /\ fold_right Z.add 0
       (flat_map (fun g => repeat (grid_h g * grid_w g) (Z.to_nat (grid_t g)))
                 grid)
     = fold_right Z.add 0
         (map (fun g => grid_t g * (grid_h g * grid_w g)) grid).
Proof.
  intros Hgrid. split.
  - apply Forall_forall. intros a Ha.
    apply in_flat_map in Ha as (g & Hg & Ha). apply repeat_spec in Ha. subst a.
    rewrite Forall_forall in Hgrid. destruct (Hgrid g Hg) as (_ & Hh & Hw). nia.
  - induction Hgrid as [|g grid [Ht _] _ IH]; [reflexivity|].
    cbn [flat_map map fold_right].
    rewrite fold_right_add_app, fold_right_add_repeat, IH, Z2Nat.id by assumption.
    reflexivity.
Qed.

Lemma frame_size_le_total (grid : list grid_thw) (g : grid_thw) :
  Forall (fun g => 0 < grid_t g /\ 0 <= grid_h g /\ 0 <= grid_w g) grid ->
  In g grid ->
  0 <= grid_h g * grid_w g
  <= fold_right Z.add 0 (map (fun g => grid_t g * (grid_h g * grid_w g)) grid).
Proof.
  intros Hgrid. induction Hgrid as [|g0 grid (Ht & Hh & Hw) Hrest IH];
    [contradiction|].
  assert (Hsum : 0 <= fold_right Z.add 0
                        (map (fun g => grid_t g * (grid_h g * grid_w g)) grid)).
  { apply fold_right_add_nonneg. apply Forall_forall. intros a Ha.
    apply in_map_iff in Ha as (g' & <- & Hg').
    rewrite Forall_forall in Hrest. destruct (Hrest g' Hg') as (? & ? & ?). nia. }
  cbn [map fold_right]. intros [<-|Hin].
  - nia.
  - specialize (IH Hin). nia.
Qed.

(** Below [2 ^ 31] patches the cumulative lengths are the exact running sums
    of the frame sizes. *)
Lemma vision_cu_seqlens_exact (grid : list grid_thw) :
  Forall (fun g => 0 < grid_t g /\ 0 <= grid_h g /\ 0 <= grid_w g) grid ->
  fold_right Z.add 0 (map (fun g => grid_t g * (grid_h g * grid_w g)) grid)
  < 2 ^ 31 ->
  vision_cu_seqlens grid
  = inr (0 :: cumsum
                (flat_map (fun g => repeat (grid_h g * grid_w g)
                                           (Z.to_nat (grid_t g))) grid)).
Proof.
  intros Hgrid Htotal.
  assert (Hgrid' : Forall (fun g => 0 <= grid_t g /\ 0 <= grid_h g
                                    /\ 0 <= grid_w g) grid).
  { eapply Forall_impl; [|exact Hgrid]. intros g (? & ? & ?). repeat split; lia. }
  unfold vision_cu_seqlens, repeat_interleave_each.
  rewrite !length_map, Nat.eqb_refl. cbn [negb].
  assert (Hneg : existsb (fun k => k <? 0) (map grid_t grid) = false).
  { clear - Hgrid'. induction Hgrid' as [|g grid [Ht _] _ IH]; [reflexivity|].
    cbn [map existsb]. rewrite IH, orb_false_r. apply Z.ltb_ge. assumption. }
  rewrite Hneg. cbn [bind ret].
  rewrite (segment_lengths_of_grid (fun g => int64 (grid_h g * grid_w g))).
  rewrite (flat_map_ext_in
             (fun g => repeat (int64 (grid_h g * grid_w g)) (Z.to_nat (grid_t g)))
             (fun g => repeat (grid_h g * grid_w g) (Z.to_nat (grid_t g)))).
  - destruct (frame_sizes_sum grid Hgrid') as [Hlens Hsum].
    unfold cumsum_int32, cumsum.
    rewrite cumsum_int32_from_exact; [reflexivity|lia|exact Hlens|].
    rewrite Hsum. lia.
  - intros g Hg. pose proof (frame_size_le_total grid g Hgrid Hg).
    rewrite int64_small; [reflexivity|lia].
Qed.

(** The steps of the vision tower before [cu_seqlens] go through for grids
    that the merge size divides. *)
Lemma vision_positions_ok (m : Z) (grid : list grid_thw) :
  0 < m ->
  grid <> [] ->
  Forall (fun g => 0 <= grid_t g /\ 0 <= grid_h g /\ 0 <= grid_w g
                   /\ grid_h g mod m = 0 /\ grid_w g mod m = 0) grid ->
  exists positions size looked_up,
    pos_ids m grid = inr positions
    /\ max_grid_size grid = inr size
    /\ 0 <= size
    /\ rotary_pos_emb (grid_range size) positions = inr looked_up.
Proof.
  intros Hm Hne Hgrid.
  set (frames := fun g =>
         concat (repeat (merge_order (Z.to_nat (grid_h g / m))
                                     (Z.to_nat (grid_w g / m)) (Z.to_nat m))
                        (Z.to_nat (grid_t g)))).
  assert (Hper : mapM (grid_pos_ids m) grid = inr (map frames grid)).
  { apply mapM_map_inr. intros g Hg. rewrite Forall_forall in Hgrid.
    destruct (Hgrid g Hg) as (Ht & Hh & Hw & Hhm & Hwm).
    apply grid_pos_ids_frame; assumption. }
  assert (Hsize : exists size, max_grid_size grid = inr size).
  { unfold max_grid_size. destruct grid as [|g grid]; [contradiction|].
    cbn [flat_map app vector_max]. eexists. reflexivity. }
  destruct Hsize as (size & Hsize).
  assert (Hin : Forall (fun p => 0 <= fst p < size /\ 0 <= snd p < size)
                       (concat (map frames grid))).
  { apply Forall_forall. intros [p q] Hpq.
    apply in_concat in Hpq as (fr & Hfr & Hpq).
    apply in_map_iff in Hfr as (g & <- & Hg).
    rewrite Forall_forall in Hgrid.
    destruct (Hgrid g Hg) as (Ht & Hh & Hw & Hhm & Hwm).
    destruct (grid_pos_ids_in_grid m g p q Hm Ht Hh Hw Hhm Hwm Hpq) as [Hp Hq].
    assert (grid_h g <= size /\ grid_w g <= size) as [H1 H2].
    { split; apply (vector_max_ge _ _ Hsize); apply in_flat_map; exists g;
        (split; [assumption|cbn; auto]). }
    cbn [fst snd]. lia. }
  assert (Hpos : 0 <= size).
  { destruct grid as [|g grid]; [contradiction|].
    inversion Hgrid as [|? ? (_ & Hh & _) _]; subst.
    assert (grid_h g <= size)
      by (apply (vector_max_ge _ _ Hsize); cbn; auto).
    lia. }
  exists (concat (map frames grid)), size,
         (map (fun p => (fst p, snd p)) (concat (map frames grid))).
  split; [|split; [assumption|split; [assumption|]]].
  - unfold pos_ids. rewrite Hper. cbn [bind].
    destruct grid; [contradiction|reflexivity].
  - unfold rotary_pos_emb. apply mapM_map_inr. intros [p q] Hpq.
    rewrite Forall_forall in Hin. destruct (Hin _ Hpq) as [Hp Hq].
    cbn [fst snd] in *.
    rewrite <- (map_id (grid_range size)).
    rewrite !(index_row_range (fun i => i)) by assumption. reflexivity.
Qed.

Lemma vision_segments_reached (m : Z) (grid : list grid_thw) :
  0 < m ->
  grid <> [] ->
  Forall (fun g => 0 <= grid_t g /\ 0 <= grid_h g /\ 0 <= grid_w g
                   /\ grid_h g mod m = 0 /\ grid_w g mod m = 0) grid ->
  vision_segments m grid
  = (cu_seqlens <- vision_cu_seqlens grid ;;
     max_seqlen <- vision_max_seqlen cu_seqlens ;;
     ret (cu_seqlens, max_seqlen)).
Proof.
  intros Hm Hne Hgrid.
  destruct (vision_positions_ok m grid Hm Hne Hgrid)
    as (positions & size & looked_up & Hpos & Hsize & Hnonneg & Hlook).
  unfold vision_segments. rewrite Hpos. cbn [bind]. rewrite Hsize. cbn [bind].
  rewrite arange_ok by assumption. cbn [bind].
  change (map Z.of_nat (seq 0 (Z.to_nat size))) with (grid_range size).
  rewrite Hlook. reflexivity.
Qed.

(** X5.  For a non-empty batch of patch grids with at least one frame each,
    non-negative heights and widths that the merge size divides, and fewer
    than [2 ^ 31] patches in all, the vision tower gets as far as its blocks
    and hands them cumulative segment lengths that start at 0, have one
    entry more than there are temporal frames, never decrease and end at the
    total number of patches (the sum of t * h * w over the grids), and as
    [max_seqlen] the size [h * w] of the largest frame. *)
Theorem vision_cu_seqlens_structure (m : Z) (grid : list grid_thw) :
  0 < m ->
  grid <> [] ->
  Forall (fun g => 0 < grid_t g /\ 0 <= grid_h g /\ 0 <= grid_w g
                   /\ grid_h g mod m = 0 /\ grid_w g mod m = 0) grid ->
  fold_right Z.add 0 (map (fun g => grid_t g * (grid_h g * grid_w g)) grid)
  < 2 ^ 31 ->
  exists cu_seqlens max_seqlen,
    vision_segments m grid = inr (cu_seqlens, max_seqlen)
    /\ hd_error cu_seqlens = Some 0
    /\ length cu_seqlens
       = S (list_sum (map (fun g => Z.to_nat (grid_t g)) grid))
    /\ last cu_seqlens 0
       = fold_right Z.add 0 (map (fun g => grid_t g * (grid_h g * grid_w g)) grid)
    /\ Forall (fun p => fst p <= snd p) (combine cu_seqlens (tl cu_seqlens))
    /\ (forall g, In g grid -> grid_h g * grid_w g <= max_seqlen)
    /\ (exists g, In g grid /\ max_seqlen = grid_h g * grid_w g).
Proof.
  intros Hm Hne Hgrid Htotal.
  assert (Hdiv : Forall (fun g => 0 <= grid_t g /\ 0 <= grid_h g /\ 0 <= grid_w g
                                  /\ grid_h g mod m = 0 /\ grid_w g mod m = 0)
                        grid).
  { eapply Forall_impl; [|exact Hgrid]. intros g (? & ? & ? & ? & ?).
    repeat split; assumption || lia. }
  assert (Hpos : Forall (fun g => 0 < grid_t g /\ 0 <= grid_h g /\ 0 <= grid_w g)
                        grid).
  { eapply Forall_impl; [|exact Hgrid]. intros g (? & ? & ? & _).
    repeat split; assumption. }
  assert (Hnonneg : Forall (fun g => 0 <= grid_t g /\ 0 <= grid_h g
                                     /\ 0 <= grid_w g) grid).
  { eapply Forall_impl; [|exact Hpos]. intros g (? & ? & ?).
    repeat split; lia. }
  rewrite (vision_segments_reached m grid Hm Hne Hdiv).
  rewrite (vision_cu_seqlens_exact grid Hpos Htotal). cbn [bind].
  set (lens := flat_map (fun g => repeat (grid_h g * grid_w g)
                                         (Z.to_nat (grid_t g))) grid).
  destruct (frame_sizes_sum grid Hnonneg) as [Hlens Hsum]. fold lens in Hlens, Hsum.
  destruct (cumsum_from_chain 0 lens Hlens) as (Hlen & Hlast & Hsorted).
  assert (Hdiffs : map (fun p => int32 (fst p - snd p))
                       (combine (tl (0 :: cumsum lens))
                                (removelast (0 :: cumsum lens)))
                   = lens).
  { cbn [tl]. unfold cumsum.
    rewrite <- (map_map (fun p => fst p - snd p) int32), cumsum_differences.
    rewrite <- (map_id lens) at 2. apply map_ext_in. intros a Ha.
    pose proof (In_le_sum lens a Hlens Ha).
    rewrite Forall_forall in Hlens. pose proof (Hlens a Ha).
    apply int32_small. lia. }
  unfold vision_max_seqlen. rewrite Hdiffs.
  assert (Hin : forall a, In a lens
                          <-> exists g, In g grid /\ a = grid_h g * grid_w g).
  { intros a. unfold lens. rewrite in_flat_map. split.
    - intros (g & Hg & Ha). apply repeat_spec in Ha. now exists g.
    - intros (g & Hg & ->). exists g. split; [assumption|].
      rewrite Forall_forall in Hpos. destruct (Hpos g Hg) as (Ht & _).
      destruct (Z.to_nat (grid_t g)) eqn:Et; [lia|]. now left. }
  destruct lens as [|a lens'] eqn:Elens.
  { destruct grid as [|g grid]; [contradiction|].
    destruct (proj2 (Hin (grid_h g * grid_w g))) as [].
    exists g. split; [now left|reflexivity]. }
  cbn [vector_max bind ret].
  exists (0 :: cumsum (a :: lens')), (fold_left Z.max lens' a).
  split; [reflexivity|]. split; [reflexivity|].
  split; [|split; [|split; [exact Hsorted|split]]].
  - unfold cumsum. rewrite Hlen. f_equal. rewrite <- Elens. unfold lens. clear.
    induction grid as [|g grid IH]; [reflexivity|].
    cbn [flat_map map]. rewrite length_app, repeat_length, list_sum_cons, IH.
    reflexivity.
  - unfold cumsum. rewrite Hlast, Z.add_0_l. exact Hsum.
  - intros g Hg.
    destruct (fold_left_max_ge lens' a) as [H1 H2].
    destruct (proj2 (Hin (grid_h g * grid_w g))) as [<-|Hl];
      [now exists g|assumption|now apply H2].
  - assert (Hmax : In (fold_left Z.max lens' a) (a :: lens')).
    { clear. revert a. induction lens' as [|b l IH]; intros a; [now left|].
      cbn [fold_left]. destruct (Z.max_spec a b) as [[_ E]|[_ E]]; rewrite E.
      - destruct (IH b) as [H|H]; [right; left; exact H|right; right; exact H].
      - destruct (IH a) as [H|H]; [left; exact H|right; right; exact H]. }
    apply Hin in Hmax. exact Hmax.
Qed.

Lemma vision_cu_seqlens_structure_witness :
  exists cu_seqlens max_seqlen,
    vision_segments 2 [mk_grid 2 2 2; mk_grid 1 2 4]
    = inr (cu_seqlens, max_seqlen)
    /\ hd_error cu_seqlens = Some 0
    /\ length cu_seqlens = 4%nat
    /\ last cu_seqlens 0 = 16
    /\ Forall (fun p => fst p <= snd p) (combine cu_seqlens (tl cu_seqlens))
    /\ (forall g, In g [mk_grid 2 2 2; mk_grid 1 2 4] ->
          grid_h g * grid_w g <= max_seqlen)
    /\ (exists g, In g [mk_grid 2 2 2; mk_grid 1 2 4]
                  /\ max_seqlen = grid_h g * grid_w g).
Proof.
  apply (vision_cu_seqlens_structure 2 [mk_grid 2 2 2; mk_grid 1 2 4]).
  - reflexivity.
  - discriminate.
  - repeat constructor; discriminate.
  - reflexivity.
Defined.

(** X7.  For one image with one temporal frame, a height and a width that
    the merge size divides and fewer than [2 ^ 31] patches, the vision tower
    gets as far as its blocks, and the mask its first block builds has one
    row and one column per patch and every entry is true: all patches of the
    image attend to each other, in both directions. *)
Theorem vision_attention_mask_single_frame (m h w : Z) :
  0 < m -> 0 <= h -> 0 <= w -> h mod m = 0 -> w mod m = 0 ->
  h * w < 2 ^ 31 ->
  vision_tower_mask m [mk_grid 1 h w]
  = inr (repeat (repeat true (Z.to_nat (h * w))) (Z.to_nat (h * w))).
Proof.
  intros Hm Hh Hw Hhm Hwm Hbound.
  assert (Hhw : 0 <= h * w) by nia.
  unfold vision_tower_mask.
  rewrite (vision_segments_reached m [mk_grid 1 h w] Hm);
    [|discriminate|constructor; [cbn; lia|constructor]].
  rewrite (vision_cu_seqlens_exact [mk_grid 1 h w]);
    [|constructor; [cbn; lia|constructor]
     |cbn [map fold_right grid_t grid_h grid_w]; lia].
  cbn [bind flat_map grid_t grid_h grid_w app].
  change (Z.to_nat 1) with 1%nat. cbn [repeat app cumsum cumsum_from].
  unfold vision_max_seqlen.
  cbn [tl removelast combine map fst snd vector_max fold_left ret bind].
  replace (0 + h * w - 0) with (h * w) by lia.
  replace (0 + h * w) with (h * w) by lia.
  rewrite (int32_small (h * w)) by lia.
  unfold attention_mask.
  rewrite (ltb_nonneg (h * w)) by assumption.
  unfold ret. f_equal. cbn [tl combine fold_left fst snd].
  apply mask_all_true.
  - apply square_fill_block, square_zeros.
  - intros i j Hi Hj.
    destruct (attention_mask_inside [0; h * w] (h * w) i j) as (mk & Hmk & Hij);
      try lia.
    { repeat constructor; lia. }
    unfold attention_mask in Hmk.
    rewrite (ltb_nonneg (h * w)) in Hmk by assumption.
    cbn [tl combine fold_left fst snd] in Hmk.
    injection Hmk as <-. rewrite Hij. f_equal.
    unfold same_segment. cbn [tl combine existsb fst snd].
    rewrite orb_false_r.
    rewrite !(proj2 (Z.leb_le 0 _)) by lia.
    rewrite !(proj2 (Z.ltb_lt _ (h * w))) by lia.
    reflexivity.
Qed.

Lemma vision_attention_mask_single_frame_witness :
  vision_tower_mask 2 [mk_grid 1 2 4] = inr (repeat (repeat true 8) 8).
Proof.
  apply (vision_attention_mask_single_frame 2 2 4);
    reflexivity || discriminate.
Defined.

(** * The patch merger *)

Lemma chunks_exact {A : Type} (size k : nat) (rows : list A) :
  length rows = (k * size)%nat ->
  length (chunks size k rows) = k
  /\ concat (chunks size k rows) = rows
  /\ Forall (fun gr => length gr = size) (chunks size k rows).
Proof.
  revert rows. induction k as [|k IH]; intros rows Hlen.
  - destruct rows; [|discriminate]. cbn. repeat split. constructor.
  - cbn [chunks].
    destruct (IH (skipn size rows)) as (H1 & H2 & H3).
    { rewrite length_skipn. lia. }
    repeat split.
    + cbn [length]. now rewrite H1.
    + cbn [concat]. rewrite H2. apply firstn_skipn.
    + constructor; [|assumption]. rewrite length_firstn. lia.
Qed.

(** X11.  The patch merger groups the patch rows of the vision tower into
    runs of [merge^2] consecutive rows, in order and without dropping a row;
    for grids whose heights and widths are multiples of the merge size the
    number of groups is the sum of [t * (h / merge) * (w / merge)] over the
    grids, the number of vision tokens the position-id builder counts for
    them. *)
Theorem merger_view_groups {A : Type} (m : Z) (grid : list grid_thw) (rows : list A) :
  0 < m ->
  Forall (fun g => 0 <= grid_t g /\ 0 <= grid_h g /\ 0 <= grid_w g
                   /\ grid_h g mod m = 0 /\ grid_w g mod m = 0) grid ->
  Z.of_nat (length rows)
  = fold_right Z.add 0 (map (fun g => grid_t g * (grid_h g * grid_w g)) grid) ->
  exists groups,
    merger_view m rows = inr groups
    /\ concat groups = rows
    /\ Forall (fun gr => length gr = Z.to_nat (m * m)) groups
    /\ Z.of_nat (length groups)
       = fold_right Z.add 0 (map (merged_tokens m) grid).
Proof.
  intros Hm Hgrid Hrows.
  assert (Hsum : fold_right Z.add 0
                   (map (fun g => grid_t g * (grid_h g * grid_w g)) grid)
                 = m * m * fold_right Z.add 0 (map (merged_tokens m) grid)
                 /\ 0 <= fold_right Z.add 0 (map (merged_tokens m) grid)).
  { clear Hrows. induction Hgrid as [|g grid (Ht & Hh & Hw & Hhm & Hwm) _ [IH1 IH2]].
    - cbn. split; [ring|lia].
    - cbn [map fold_right]. rewrite IH1.
      assert (Eh : grid_h g = m * (grid_h g / m)) by (apply Z.div_exact; lia).
      assert (Ew : grid_w g = m * (grid_w g / m)) by (apply Z.div_exact; lia).
      assert (Hhq : 0 <= grid_h g / m) by (apply Z.div_pos; lia).
      assert (Hwq : 0 <= grid_w g / m) by (apply Z.div_pos; lia).
      assert (Hmt : 0 <= merged_tokens m g)
        by (unfold merged_tokens; repeat apply Z.mul_nonneg_nonneg; assumption).
      split; [|lia].
      unfold merged_tokens. rewrite Eh at 1. rewrite Ew at 1. ring. }
  destruct Hsum as [Hsum Hnonneg]. rewrite Hsum in Hrows.
  set (total := fold_right Z.add 0 (map (merged_tokens m) grid)) in *.
  assert (Hlen : length rows = (Z.to_nat total * Z.to_nat (m * m))%nat).
  { rewrite <- Z2Nat.inj_mul by nia. rewrite <- (Nat2Z.id (length rows)).
    f_equal. lia. }
  unfold merger_view.
  destruct (m * m =? 0) eqn:E0; [apply Z.eqb_eq in E0; nia|].
  rewrite Hrows, Z.mul_comm, Z.mod_mul, Z.eqb_refl by nia. cbn [negb].
  rewrite Hlen, Nat.div_mul by (intros H0; apply (f_equal Z.of_nat) in H0;
                                 rewrite Z2Nat.id in H0 by nia; nia).
  destruct (chunks_exact (Z.to_nat (m * m)) (Z.to_nat total) rows Hlen)
    as (H1 & H2 & H3).
  eexists. split; [reflexivity|]. repeat split; try assumption.
  rewrite H1. now rewrite Z2Nat.id.
Qed.

Lemma merger_view_groups_witness :
  exists groups,
    merger_view 2 [1; 2; 3; 4; 5; 6; 7; 8] = inr groups
    /\ concat groups = [1; 2; 3; 4; 5; 6; 7; 8]
    /\ Forall (fun gr => length gr = 4%nat) groups
    /\ Z.of_nat (length groups) = 2.
Proof.
  apply (merger_view_groups 2 [mk_grid 1 2 4] [1; 2; 3; 4; 5; 6; 7; 8]).
  - reflexivity.
  - repeat constructor; discriminate.
  - reflexivity.
Defined.

(** * The embedding of a prompt with image tokens *)

Lemma length_set_item {A : Type} (rows : list A) (i : nat) (v : A) :
  length (set_item rows i v) = length rows.
Proof.
  revert i. induction rows as [|x rows IH]; intros [|i]; cbn; try reflexivity.
  now rewrite IH.
Qed.

Lemma nth_error_set_item_same {A : Type} (rows : list A) (i : nat) (v : A) :
  (i < length rows)%nat -> nth_error (set_item rows i v) i = Some v.
Proof.
  revert i. induction rows as [|x rows IH]; intros [|i] Hi; cbn in *; try lia.
  - reflexivity.
  - apply IH. lia.
Qed.

Lemma nth_error_set_item_other {A : Type} (rows : list A) (i p : nat) (v : A) :
  p <> i -> nth_error (set_item rows i v) p = nth_error rows p.
Proof.
  revert i p. induction rows as [|x rows IH]; intros [|i] [|p] Hp; cbn;
    try reflexivity; try contradiction.
  apply IH. lia.
Qed.

Lemma fold_set_item {A : Type} (pairs : list (nat * A)) (rows : list A) :
  NoDup (map fst pairs) ->
  Forall (fun p => (fst p < length rows)%nat) pairs ->
  let out := fold_left (fun acc p => set_item acc (fst p) (snd p)) pairs rows in
  length out = length rows
  /\ (forall p, ~ In p (map fst pairs) -> nth_error out p = nth_error rows p)
  /\ (forall i v, In (i, v) pairs -> nth_error out i = Some v).
Proof.
  revert rows. induction pairs as [|[i v] pairs IH]; intros rows Hnd Hin; cbn zeta.
  - cbn. repeat split; tauto.
  - cbn [map fst] in Hnd. inversion Hnd as [|? ? Hni Hnd']; subst.
    inversion Hin as [|? ? Hi Hin']; subst. cbn [fst] in Hi.
    cbn [fold_left fst snd].
    destruct (IH (set_item rows i v) Hnd') as (H1 & H2 & H3).
    { eapply Forall_impl; [|exact Hin']. intros p Hp.
      now rewrite length_set_item. }
    cbn zeta in H1, H2, H3. repeat split.
    + now rewrite H1, length_set_item.
    + intros p Hp. cbn [map fst In] in Hp.
      rewrite H2 by tauto. apply nth_error_set_item_other. intros ->. tauto.
    + intros i' v' [[= <- <-]|Hin2].
      * rewrite H2 by assumption. now apply nth_error_set_item_same.
      * now apply H3.
Qed.

Lemma in_where_from (x : list Z) (tok i e : Z) :
  In e (where_from i x tok)
  <-> i <= e /\ nth_error x (Z.to_nat (e - i)) = Some tok.
Proof.
  revert i. induction x as [|a x IH]; intros i.
  - cbn. split; [contradiction|]. intros [_ H]. now destruct (Z.to_nat (e - i)).
  - cbn [where_from].
    assert (Hstep : forall e', i + 1 <= e' ->
              nth_error (a :: x) (Z.to_nat (e' - i))
              = nth_error x (Z.to_nat (e' - (i + 1)))).
    { intros e' He'. replace (Z.to_nat (e' - i)) with (S (Z.to_nat (e' - (i + 1))))
        by lia. reflexivity. }
    destruct (a =? tok) eqn:E.
    + apply Z.eqb_eq in E. subst a. cbn [In]. rewrite IH. split.
      * intros [<-|[Hle Hn]].
        -- split; [lia|]. now rewrite Z.sub_diag.
        -- split; [lia|]. now rewrite Hstep.
      * intros [Hle Hn]. destruct (Z.eq_dec i e) as [->|Hne]; [now left|right].
        split; [lia|]. now rewrite <- Hstep by lia.
    + apply Z.eqb_neq in E. rewrite IH. split.
      * intros [Hle Hn]. split; [lia|]. now rewrite Hstep.
      * intros [Hle Hn]. destruct (Z.eq_dec i e) as [->|Hne].
        -- rewrite Z.sub_diag in Hn. cbn in Hn. congruence.
        -- split; [lia|]. now rewrite <- Hstep by lia.
Qed.

Lemma nth_error_combine_both {A B : Type} (a : list A) (b : list B) (k : nat) :
  nth_error (combine a b) k
  = match nth_error a k, nth_error b k with
    | Some x, Some y => Some (x, y)
    | _, _ => None
    end.
Proof.
  revert b k. induction a as [|x a IH]; intros [|y b] [|k]; cbn; try reflexivity.
  - now destruct (nth_error a k).
  - apply IH.
Qed.

Lemma NoDup_where_from (x : list Z) (tok i : Z) :
  0 <= i -> NoDup (map Z.to_nat (where_from i x tok)).
Proof.
  revert i. induction x as [|a x IH]; intros i Hi; [constructor|].
  cbn [where_from]. destruct (a =? tok).
  - cbn [map]. constructor; [|apply IH; lia].
    intros Hin. apply in_map_iff in Hin as (e & He & Hin).
    apply where_from_bounds in Hin. lia.
  - apply IH. lia.
Qed.

(** X12.  When the token embedding has one row per token and there are as
    many vision embeddings as image tokens, [get_inputs_embeds] returns one
    row per token: a position that does not hold the image token keeps its
    token embedding, and the position of the [k]-th image token holds the
    [k]-th vision embedding. *)
Theorem get_inputs_embeds_scatter {A : Type} (image_token_id : Z)
    (embed_tokens : list Z -> list A) (input_ids : list Z)
    (vision_embeds : list A) :
  length (embed_tokens input_ids) = length input_ids ->
  length vision_embeds = length (where_eq input_ids image_token_id) ->
  exists out,
    get_inputs_embeds image_token_id embed_tokens input_ids (Some vision_embeds)
    = inr out
    /\ length out = length input_ids
    /\ (forall p tok,
          nth_error input_ids p = Some tok -> tok <> image_token_id ->
          nth_error out p = nth_error (embed_tokens input_ids) p)
    /\ (forall k i,
          nth_error (where_eq input_ids image_token_id) k = Some i ->
          nth_error out (Z.to_nat i) = nth_error vision_embeds k).
Proof.
  intros Hemb Hcount. unfold get_inputs_embeds, index_put.
  set (mask := where_eq input_ids image_token_id) in *.
  set (rows := embed_tokens input_ids) in *.
  rewrite Hcount, Nat.eqb_refl. cbn [bind ret].
  assert (Hbounds : forall e, In e mask -> 0 <= e < Z.of_nat (length rows)).
  { intros e He. apply where_from_bounds in He. lia. }
  assert (Hex : existsb (fun i => (i <? 0) || (Z.of_nat (length rows) <=? i)) mask
                = false).
  { apply not_true_is_false. intros Hex. apply existsb_exists in Hex as (e & He & Hb).
    apply Hbounds in He. apply orb_true_iff in Hb as [Hb|Hb].
    - apply Z.ltb_lt in Hb. lia.
    - apply Z.leb_le in Hb. lia. }
  rewrite Hex.
  set (pairs := map (fun p => (Z.to_nat (fst p), snd p)) (combine mask vision_embeds)).
  assert (Hfold : fold_left (fun acc p => set_item acc (Z.to_nat (fst p)) (snd p))
                            (combine mask vision_embeds) rows
                  = fold_left (fun acc p => set_item acc (fst p) (snd p)) pairs rows).
  { unfold pairs. generalize (combine mask vision_embeds), rows.
    intros l. induction l as [|p l IH]; intros r; [reflexivity|].
    cbn [map fold_left fst snd]. apply IH. }
  rewrite Hfold.
  assert (Hfst : map fst pairs = map Z.to_nat mask).
  { unfold pairs. rewrite map_map. cbn [fst].
    rewrite <- (map_map fst Z.to_nat). now rewrite map_fst_combine_same. }
  destruct (fold_set_item pairs rows) as (H1 & H2 & H3).
  { rewrite Hfst. apply NoDup_where_from. lia. }
  { apply Forall_forall. intros [i v] Hin. cbn [fst].
    assert (Hi : In i (map fst pairs)) by (apply in_map_iff; now exists (i, v)).
    rewrite Hfst in Hi. apply in_map_iff in Hi as (e & <- & He).
    apply Hbounds in He. lia. }
  cbn zeta in H1, H2, H3.
  eexists. split; [reflexivity|]. repeat split.
  - now rewrite H1.
  - intros p tok Hp Htok. apply H2. rewrite Hfst. intros Hin.
    apply in_map_iff in Hin as (e & <- & He).
    apply in_where_from in He as [He Hn]. rewrite Z.sub_0_r in Hn. congruence.
  - intros k i Hk.
    destruct (nth_error vision_embeds k) as [v|] eqn:Ev.
    + apply H3. unfold pairs. apply in_map_iff. exists (i, v). split; [reflexivity|].
      apply (nth_error_In _ k). now rewrite nth_error_combine_both, Hk, Ev.
    + apply nth_error_None in Ev.
      assert (k < length mask)%nat by (apply nth_error_Some; congruence). lia.
Qed.

Lemma get_inputs_embeds_scatter_witness :
  exists out,
    get_inputs_embeds 151655 (map (fun x => x + 1))
      [9906; 151655; 151655; 198] (Some [-1; -2])
    = inr out
    /\ length out = 4%nat
    /\ (forall p tok,
          nth_error [9906; 151655; 151655; 198] p = Some tok -> tok <> 151655 ->
          nth_error out p
          = nth_error (map (fun x => x + 1) [9906; 151655; 151655; 198]) p)
    /\ (forall k i,
          nth_error (where_eq [9906; 151655; 151655; 198] 151655) k = Some i ->
          nth_error out (Z.to_nat i) = nth_error [-1; -2] k).
Proof.
  apply (get_inputs_embeds_scatter 151655 (map (fun x => x + 1))
           [9906; 151655; 151655; 198] [-1; -2]); reflexivity.
Defined.

(** X13.  When the number of vision embeddings is neither the number of
    image tokens in the prompt nor one, [get_inputs_embeds] raises a
    [RuntimeError]; no row is written. *)
Theorem get_inputs_embeds_count_mismatch {A : Type} (image_token_id : Z)
    (embed_tokens : list Z -> list A) (input_ids : list Z)
    (vision_embeds : list A) :
  length vision_embeds <> length (where_eq input_ids image_token_id) ->
  length vision_embeds <> 1%nat ->
  get_inputs_embeds image_token_id embed_tokens input_ids (Some vision_embeds)
  = inl RuntimeError.
Proof.
  intros Hcount Hone. unfold get_inputs_embeds, index_put.
  apply Nat.eqb_neq in Hcount. rewrite Hcount.
  destruct vision_embeds as [|v [|v' vs]]; try reflexivity.
  now contradiction Hone.
Qed.

Lemma get_inputs_embeds_count_mismatch_witness :
  get_inputs_embeds 151655 (map (fun x => x + 1))
    [9906; 151655; 151655; 198] (Some [-1; -2; -3])
  = inl RuntimeError.
Proof.
  apply (get_inputs_embeds_count_mismatch 151655 (map (fun x => x + 1))
           [9906; 151655; 151655; 198] [-1; -2; -3]); discriminate.
Defined.

(** * Further properties of the attention layer *)

Import LlamaModel.

Ltac decide_orders :=
  repeat match goal with
         | |- context [?a <=? ?b] => destruct (Z.leb_spec a b)
         | |- context [?a <? ?b] => destruct (Z.ltb_spec a b)
         end;
  cbn [andb orb negb]; try reflexivity; try lia.

Lemma count_occ_interleaved (g s n : nat) (k : Z) :
  count_occ Z.eq_dec (flat_map (fun a => repeat (Z.of_nat a) g) (seq s n)) k
  = if (Z.of_nat s <=? k) && (k <? Z.of_nat (s + n)) then g else 0%nat.
Proof.
  revert s. induction n as [|n IH]; intros s.
  - cbn [seq flat_map count_occ]. decide_orders.
  - cbn [seq flat_map]. rewrite count_occ_app, IH.
    destruct (Z.eq_dec k (Z.of_nat s)) as [->|Hne].
    + rewrite count_occ_repeat_eq by reflexivity. decide_orders.
    + rewrite count_occ_repeat_neq by assumption. decide_orders.
Qed.

Section AttentionLayerMore.

Context {Tensor KVCache Seqlen AdapterData Meta Scales : Type}.

Variables (int_pow : Z -> R -> R)
          (idx : Z) (prefix : string) (config : Config)
          (weights : Weights Tensor AdapterData Scales)
          (rotary : Rotary Tensor).

(** X14.  In every constructed attention layer, divisible head counts or
    not, the head-mapping table names only existing key/value heads, every
    key/value head occurs in it exactly [num_groups] times, and its length
    [num_kv_heads * num_groups] does not exceed the number of query heads. *)
Theorem kv_head_mapping_balanced
    (layer : FlashLlamaAttention Tensor AdapterData Scales) :
  FlashLlamaAttention_init int_pow idx prefix config weights rotary
    = inr layer ->
  num_groups layer = num_heads layer / num_kv_heads layer
  /\ Z.of_nat (length (kv_head_mapping layer))
     = num_kv_heads layer * num_groups layer
  /\ num_kv_heads layer * num_groups layer <= num_heads layer
  /\ Forall (fun k => 0 <= k < num_kv_heads layer) (kv_head_mapping layer)
  /\ (forall k, 0 <= k < num_kv_heads layer ->
        count_occ Z.eq_dec (kv_head_mapping layer) k
        = Z.to_nat (num_groups layer)).
Proof.
  intros Hinit.
  destruct (attention_init_inversion int_pow idx prefix config weights rotary
              layer Hinit)
    as (d & qkv & sc & op & _ & _ & _ & _ & _ & _ & _ & Hkv0 & Hkv & Hg & _ & _
        & Hmap & Hlayer).
  assert (Hgroups : num_groups layer = num_heads layer / num_kv_heads layer)
    by (rewrite Hlayer; reflexivity).
  rewrite Hgroups, Hmap, flat_map_of_nat.
  set (g := num_heads layer / num_kv_heads layer) in *.
  repeat split.
  - rewrite length_interleaved, length_seq, Nat2Z.inj_mul, !Z2Nat.id by lia.
    reflexivity.
  - unfold g. apply Z.mul_div_le. lia.
  - apply Forall_forall. intros k Hk.
    apply in_flat_map in Hk as (a & Ha & Hk). apply repeat_spec in Hk. subst k.
    apply in_seq in Ha. lia.
  - intros k Hk. rewrite count_occ_interleaved.
    rewrite (proj2 (Z.leb_le _ _)) by lia.
    rewrite (proj2 (Z.ltb_lt _ _)) by lia. reflexivity.
Qed.


(** X16.  For a constructed layer of a model whose projections are loaded
    one by one (neither phi3 nor baichuan), the output sizes that
    [load_attention] declares for q, k and v add up to the group size times
    the width that [forward] splits on one rank: every rank holds an equal
    share of each projection. *)
Theorem load_attention_sizes_match_split (model_type : string)
    (layer : FlashLlamaAttention Tensor AdapterData Scales) :
  FlashLlamaAttention_init int_pow idx prefix config weights rotary
    = inr layer ->
  model_type <> "phi3"%string -> model_type <> "baichuan"%string ->
  exists q k v,
    load_attention_layout model_type config prefix
    = inr (["q_proj"; "k_proj"; "v_proj"]%string, Some [q; k; v])
    /\ forward_split_sizes layer
       = [q / process_group_size weights;
          (k + v) / process_group_size weights]
    /\ q + k + v
       = process_group_size weights
         * fold_right Z.add 0 (forward_split_sizes layer).
Proof.
  intros Hinit Hphi Hbai.
  destruct (attention_init_inversion int_pow idx prefix config weights rotary
              layer Hinit)
    as (d & qkv & sc & op & Hnh & Hw & _ & Hh & Hkv & Hnum & Hnkv & _ & _ & _
        & Hhs & _).
  unfold load_attention_layout. rewrite floordiv_ok by assumption. cbn [bind].
  apply String.eqb_neq in Hphi, Hbai. rewrite Hphi, Hbai.
  eexists _, _, _. split; [reflexivity|].
  unfold forward_split_sizes. rewrite Hhs, Hnum, Hnkv.
  set (hs := hidden_size config / num_attention_heads config).
  set (w := process_group_size weights) in *.
  apply Z.div_exact in Hh, Hkv; try assumption.
  set (a := num_attention_heads config / w) in *.
  set (b := num_key_value_heads config / w) in *.
  rewrite Hh, Hkv. split.
  - f_equal; [|f_equal].
    + replace (hs * (w * a)) with (hs * a * w) by ring.
      now rewrite Z.div_mul.
    + replace (hs * (w * b) + hs * (w * b)) with (2 * hs * b * w) by ring.
      now rewrite Z.div_mul.
  - cbn [fold_right]. ring.
Qed.

End AttentionLayerMore.

Lemma kv_head_mapping_balanced_witness :
  exists layer : FlashLlamaAttention Z unit unit,
    FlashLlamaAttention_init Samples.int_pow 0 "model.layers.0.self_attn"%string
      (mk_config 10 640 4 None None) (Samples.weights 2) Samples.id_rotary
    = inr layer
    /\ Z.of_nat (length (kv_head_mapping layer)) = 4
    /\ count_occ Z.eq_dec (kv_head_mapping layer) 1 = 2%nat.
Proof.
  eexists. split; [reflexivity|].
  match goal with
  | |- Z.of_nat (length (kv_head_mapping ?l)) = _ /\ _ =>
      destruct (kv_head_mapping_balanced Samples.int_pow 0
                  "model.layers.0.self_attn"%string
                  (mk_config 10 640 4 None None) (Samples.weights 2)
                  Samples.id_rotary l)
        as (_ & Hlen & _ & _ & Hcount)
  end.
  - reflexivity.
  - split; [exact Hlen|]. apply (Hcount 1). split; [discriminate|reflexivity].
Defined.

Lemma load_attention_sizes_match_split_witness :
  exists layer : FlashLlamaAttention Z unit unit,
    FlashLlamaAttention_init Samples.int_pow 0 "model.layers.0.self_attn"%string
      Samples.llama_config (Samples.weights 2) Samples.id_rotary
    = inr layer
    /\ exists q k v,
         load_attention_layout "llama" Samples.llama_config
           "model.layers.0.self_attn"
         = inr (["q_proj"; "k_proj"; "v_proj"]%string, Some [q; k; v])
         /\ forward_split_sizes layer = [q / 2; (k + v) / 2]
         /\ q + k + v = 2 * fold_right Z.add 0 (forward_split_sizes layer).
Proof.
  eexists. split; [reflexivity|].
  match goal with
  | |- exists q k v, _ /\ forward_split_sizes ?l = _ /\ _ =>
      apply (load_attention_sizes_match_split Samples.int_pow 0
               "model.layers.0.self_attn"%string
               Samples.llama_config (Samples.weights 2) Samples.id_rotary
               "llama"%string l)
  end.
  - reflexivity.
  - discriminate.
  - discriminate.
Defined.

(** * The stack of decoder layers *)

Lemma in_py_range (a b x : Z) : In x (py_range a b) <-> a <= x < b.
Proof.
  unfold py_range. rewrite in_map_iff. split.
  - intros (i & <- & Hi). apply in_seq in Hi. lia.
  - intros Hx. exists (Z.to_nat (x - a)). split; [lia|]. apply in_seq. lia.
Qed.

Lemma py_range_split (a b c : Z) :
  a <= b <= c -> py_range a c = py_range a b ++ py_range b c.
Proof.
  intros H. unfold py_range.
  replace (Z.to_nat (c - a)) with (Z.to_nat (b - a) + Z.to_nat (c - b))%nat by lia.
  rewrite seq_app, map_app. f_equal. cbn [Nat.add].
  rewrite (seq_offset (Z.to_nat (b - a))), map_map.
  apply map_ext. intros i. lia.
Qed.

Lemma py_range_one (a : Z) : py_range a (a + 1) = [a].
Proof.
  unfold py_range. replace (a + 1 - a) with 1 by lia.
  change (Z.to_nat 1) with 1%nat. cbn [seq map]. f_equal. lia.
Qed.

(** X17.  [FlashLlamaModel.__init__] always builds a first and a last layer:
    the stack has [max(num_hidden_layers, 2)] layers.  From two layers on the
    layer indices are [0 .. num_hidden_layers - 1] in order; with fewer, the
    two layers have the indices [0] and [num_hidden_layers - 1].  A
    cross-attention layer is only built for an index strictly between the
    first and the last that is listed in [cross_attention_layers], and only
    the first and the last layer are built with fp8 conversion switched off
    at the level of the model. *)
Theorem layer_calls_cover (num_hidden_layers : Z) (cross_attention_layers : list Z) :
  let calls := layer_calls num_hidden_layers cross_attention_layers in
  Z.of_nat (length calls) = Z.max num_hidden_layers 2
  /\ (2 <= num_hidden_layers ->
      map layer_id calls = py_range 0 num_hidden_layers)
  /\ (num_hidden_layers < 2 -> map layer_id calls = [0; num_hidden_layers - 1])
  /\ Forall (fun c =>
               layer_cls c = FlashLlamaCrossLayerClass ->
               0 < layer_id c < num_hidden_layers - 1
               /\ In (layer_id c) cross_attention_layers)
            calls
  /\ Forall (fun c =>
               skips_fp8 c = true ->
               layer_id c = 0 \/ layer_id c = num_hidden_layers - 1)
            calls.
Proof.
  cbn zeta. unfold layer_calls.
  set (middle := map _ (py_range 1 (num_hidden_layers - 1))).
  assert (Hids : map layer_id middle = py_range 1 (num_hidden_layers - 1)).
  { unfold middle. rewrite map_map. rewrite <- (map_id (py_range _ _)) at 2.
    apply map_ext. intros i. now destruct (existsb _ _). }
  repeat split.
  - rewrite !length_app. cbn [length]. unfold middle, py_range.
    rewrite !length_map, length_seq. lia.
  - intros Hn. rewrite !map_app, Hids. cbn [map layer_id].
    rewrite (py_range_split 0 1 num_hidden_layers) by lia.
    rewrite (py_range_split 1 (num_hidden_layers - 1) num_hidden_layers) by lia.
    change (py_range 0 1) with [0].
    replace (py_range (num_hidden_layers - 1) num_hidden_layers)
      with [num_hidden_layers - 1]; [reflexivity|].
    rewrite <- (py_range_one (num_hidden_layers - 1)). f_equal. lia.
  - intros Hn. rewrite !map_app, Hids. cbn [map layer_id].
    unfold py_range. replace (Z.to_nat (num_hidden_layers - 1 - 1)) with 0%nat by lia.
    reflexivity.
  - apply Forall_app. split; [constructor; [discriminate|constructor]|].
    apply Forall_app. split; [|constructor; [discriminate|constructor]].
    unfold middle. apply Forall_forall. intros c Hc.
    apply in_map_iff in Hc as (i & <- & Hi). apply in_py_range in Hi.
    destruct (existsb (Z.eqb i) cross_attention_layers) eqn:E; [|discriminate].
    intros _. cbn [layer_id]. split; [lia|].
    apply existsb_exists in E as (x & Hx & Hix). apply Z.eqb_eq in Hix. now subst.
  - apply Forall_app. split; [constructor; [now left|constructor]|].
    apply Forall_app. split; [|constructor; [now right|constructor]].
    unfold middle. apply Forall_forall. intros c Hc.
    apply in_map_iff in Hc as (i & <- & Hi).
    destruct (existsb _ _); discriminate.
Qed.

Section StackProperties.

Context {Tensor KVCache Seqlen AdapterData Meta Scales : Type}.

Variable K : Kernels Tensor KVCache Seqlen Meta Scales.

(** What one decoder layer does to its cache: the cache it returns is the
    result of [kv_store] on the cache it is given, with the slots of the
    call and the scales of its attention. *)
Lemma self_attention_layer_stores
    (layer : FlashLlamaLayer Tensor AdapterData Scales)
    (hidden_states : Tensor) (residual : option Tensor) (cos sin : Tensor)
    (cu_seqlen_prefill : option Tensor) (cache : KVCache) (slots : Tensor)
    (seqlen : Seqlen) (adapter_data : AdapterData)
    (cross_attention_states : option Tensor) (hpu_attention_meta : option Meta) :
  exists out res key value trace,
    self_attention_layer K layer hidden_states residual cos sin cu_seqlen_prefill
      cache slots seqlen adapter_data cross_attention_states hpu_attention_meta
    = ((out, res),
       kv_store K cache key value slots (kv_scales (self_attn layer)),
       trace).
Proof.
  unfold self_attention_layer, FlashLlamaLayer_forward, FlashLlamaAttention_forward.
  destruct (input_layernorm layer hidden_states residual) as [normed res].
  destruct (split_qkv K _ _ _ _) as [[query key] value].
  destruct (rotary_emb (self_attn layer) query key cos sin) as [query' key'].
  destruct cu_seqlen_prefill;
    destruct (post_attention_layernorm layer _ _) as [normed2 attn_res];
    do 5 eexists; reflexivity.
Qed.

(** The loop from layer [i] on: the caches before [i] and from
    [i + len(layers)] on are not touched, cache [i + j] is the result of the
    store of layer [j] whenever the layer and the cache exist, and the loop
    ends without exception when every layer has a cache and in [IndexError]
    otherwise. *)
Lemma run_layers_stores
    (layers : list (FlashLlamaLayer Tensor AdapterData Scales)) :
  forall (i : nat) (hidden_states : Tensor) (residual : option Tensor)
         (cos sin : Tensor) (cu_seqlen_prefill : option Tensor)
         (kv_cache : list KVCache) (slots : Tensor) (seqlen : Seqlen)
         (adapter_data : AdapterData) (cross_attention_states : option Tensor)
         (hpu_attention_meta : option Meta),
    exists r caches trace,
      run_layers (map (self_attention_layer K) layers) i hidden_states residual
        cos sin cu_seqlen_prefill kv_cache slots seqlen adapter_data
        cross_attention_states hpu_attention_meta
      = (r, caches, trace)
      /\ length caches = length kv_cache
      /\ (forall j, (j < i)%nat -> nth_error caches j = nth_error kv_cache j)
      /\ (forall j, (i + length layers <= j)%nat ->
            nth_error caches j = nth_error kv_cache j)
      /\ (forall j layer cache,
            nth_error layers j = Some layer ->
            nth_error kv_cache (i + j) = Some cache ->
            exists key value,
              nth_error caches (i + j)
              = Some (kv_store K cache key value slots
                               (kv_scales (self_attn layer))))
      /\ ((i + length layers <= length kv_cache)%nat -> exists out, r = inr out)
      /\ ((i <= length kv_cache < i + length layers)%nat -> r = inl IndexError).
Proof.
  induction layers as [|layer layers IH]; intros i hidden_states residual cos sin
    cu kv_cache slots seqlen adapter_data cross meta.
  - cbn [map run_layers length].
    exists (ret (hidden_states, residual)), kv_cache, [].
    split; [reflexivity|]. split; [reflexivity|].
    split; [reflexivity|]. split; [reflexivity|]. split; [|split].
    + intros [|j] l c Hl; discriminate Hl.
    + intros _. eexists. reflexivity.
    + lia.
  - cbn [map run_layers length].
    destruct (nth_error kv_cache i) as [cache|] eqn:Ecache.
    + assert (Hi : (i < length kv_cache)%nat)
        by (apply nth_error_Some; congruence).
      destruct (self_attention_layer_stores layer hidden_states residual cos sin
                  cu cache slots seqlen adapter_data cross meta)
        as (out & res & key & value & trace0 & Hcall).
      rewrite Hcall.
      set (stored := kv_store K cache key value slots (kv_scales (self_attn layer))).
      destruct (IH (S i) out (Some res) cos sin cu
                   (Qwen2Vision.set_item kv_cache i stored) slots seqlen
                   adapter_data cross meta)
        as (r & caches & trace & Hrun & Hlen & Hbefore & Hafter & Hstores
            & Hok & Hshort).
      rewrite Hrun. rewrite length_set_item in Hlen, Hok, Hshort.
      exists r, caches, (trace0 ++ trace).
      split; [reflexivity|]. split; [assumption|]. split; [|split; [|split]].
      * intros j Hj. rewrite Hbefore by lia.
        apply nth_error_set_item_other. lia.
      * intros j Hj. rewrite Hafter by lia.
        apply nth_error_set_item_other. lia.
      * intros [|j] l c Hl Hc.
        -- cbn in Hl. injection Hl as <-.
           rewrite Nat.add_0_r in *. rewrite Ecache in Hc. injection Hc as <-.
           exists key, value. rewrite Hbefore by lia.
           apply nth_error_set_item_same. assumption.
        -- cbn [nth_error] in Hl.
           replace (i + S j)%nat with (S i + j)%nat in * by lia.
           apply (Hstores j l c Hl).
           rewrite nth_error_set_item_other by lia. assumption.
      * split.
        -- intros H. apply Hok. lia.
        -- intros H. apply Hshort. lia.
    + apply nth_error_None in Ecache.
      exists (raise IndexError), kv_cache, [].
      split; [reflexivity|]. split; [reflexivity|].
      split; [reflexivity|]. split; [reflexivity|]. split; [|split].
      * intros j l c _ Hc.
        assert ((i + j < length kv_cache)%nat)
          by (apply nth_error_Some; congruence).
        lia.
      * lia.
      * intros _. reflexivity.
Qed.

Variables (set_block_mapping : Meta -> Tensor -> Meta)
          (get_cos_sin : Tensor -> Tensor * Tensor)
          (norm : Norm Tensor).

(** X18.  A forward call of a stack of decoder layers that is given at
    least one cache per layer returns without exception, and layer [i] has
    stored into cache [i] and into no other: for every kernel, the cache
    returned at position [i] is the result of [kv_store] on the cache given
    at position [i], with the slots of the call and the scales of layer
    [i], and the caches beyond the layers are returned as they were
    given. *)
Theorem model_forward_layer_caches
    (layers : list (FlashLlamaLayer Tensor AdapterData Scales))
    (inputs_embeds position_ids : Tensor) (cu_seqlen_prefill : option Tensor)
    (kv_cache : list KVCache) (slots : Tensor) (seqlen : Seqlen)
    (adapter_data : AdapterData) (hpu_attention_meta : option Meta)
    (cross_attention_states : option Tensor) :
  layers <> [] ->
  (length layers <= length kv_cache)%nat ->
  exists hidden_states caches trace,
    FlashLlamaModel_forward set_block_mapping get_cos_sin
      (map (self_attention_layer K) layers) norm inputs_embeds position_ids
      cu_seqlen_prefill kv_cache slots seqlen adapter_data hpu_attention_meta
      cross_attention_states
    = (inr hidden_states, caches, trace)
    /\ length caches = length kv_cache
    /\ (forall i layer cache,
          nth_error layers i = Some layer ->
          nth_error kv_cache i = Some cache ->
          exists key value,
            nth_error caches i
            = Some (kv_store K cache key value slots
                             (kv_scales (self_attn layer))))
    /\ (forall i, (length layers <= i)%nat ->
          nth_error caches i = nth_error kv_cache i).
Proof.
  intros Hne Hlen. unfold FlashLlamaModel_forward.
  destruct layers as [|layer layers]; [contradiction|].
  change (map (self_attention_layer K) (layer :: layers))
    with (self_attention_layer K layer :: map (self_attention_layer K) layers).
  cbv iota.
  change (self_attention_layer K layer :: map (self_attention_layer K) layers)
    with (map (self_attention_layer K) (layer :: layers)).
  destruct (get_cos_sin position_ids) as [cos sin].
  destruct (run_layers_stores (layer :: layers) 0 inputs_embeds None cos sin
              cu_seqlen_prefill kv_cache slots seqlen adapter_data
              cross_attention_states
              (match hpu_attention_meta with
               | Some meta => Some (set_block_mapping meta inputs_embeds)
               | None => None
               end))
    as (r & caches & trace & Hrun & Hl & _ & Hafter & Hstores & Hok & _).
  rewrite Hrun. destruct (Hok Hlen) as [[h res] ->].
  exists (fst (norm h res)), caches, trace.
  split; [reflexivity|]. split; [assumption|]. split.
  - intros i l c Hl' Hc. exact (Hstores i l c Hl' Hc).
  - intros i Hi. apply Hafter. exact Hi.
Qed.

(** X19.  With fewer caches than layers the forward call raises
    [IndexError], but only after the layers that do have a cache have run:
    for every kernel, every cache that was given is returned as the result
    of the [kv_store] of the layer at its position. *)
Theorem model_forward_short_cache
    (layers : list (FlashLlamaLayer Tensor AdapterData Scales))
    (inputs_embeds position_ids : Tensor) (cu_seqlen_prefill : option Tensor)
    (kv_cache : list KVCache) (slots : Tensor) (seqlen : Seqlen)
    (adapter_data : AdapterData) (hpu_attention_meta : option Meta)
    (cross_attention_states : option Tensor) :
  (length kv_cache < length layers)%nat ->
  exists caches trace,
    FlashLlamaModel_forward set_block_mapping get_cos_sin
      (map (self_attention_layer K) layers) norm inputs_embeds position_ids
      cu_seqlen_prefill kv_cache slots seqlen adapter_data hpu_attention_meta
      cross_attention_states
    = (inl IndexError, caches, trace)
    /\ length caches = length kv_cache
    /\ (forall i cache,
          nth_error kv_cache i = Some cache ->
          exists layer key value,
            nth_error layers i = Some layer
            /\ nth_error caches i
               = Some (kv_store K cache key value slots
                                (kv_scales (self_attn layer)))).
Proof.
  intros Hlen. unfold FlashLlamaModel_forward.
  destruct layers as [|layer layers]; [cbn in Hlen; lia|].
  change (map (self_attention_layer K) (layer :: layers))
    with (self_attention_layer K layer :: map (self_attention_layer K) layers).
  cbv iota.
  change (self_attention_layer K layer :: map (self_attention_layer K) layers)
    with (map (self_attention_layer K) (layer :: layers)).
  destruct (get_cos_sin position_ids) as [cos sin].
  destruct (run_layers_stores (layer :: layers) 0 inputs_embeds None cos sin
              cu_seqlen_prefill kv_cache slots seqlen adapter_data
              cross_attention_states
              (match hpu_attention_meta with
               | Some meta => Some (set_block_mapping meta inputs_embeds)
               | None => None
               end))
    as (r & caches & trace & Hrun & Hl & _ & _ & Hstores & _ & Hshort).
  rewrite Hrun. rewrite Hshort by lia.
  exists caches, trace.
  split; [reflexivity|]. split; [assumption|].
  intros i cache Hc.
  assert (Hi : (i < length kv_cache)%nat) by (apply nth_error_Some; congruence).
  destruct (nth_error (layer :: layers) i) as [l|] eqn:El;
    [|apply nth_error_None in El; lia].
  destruct (Hstores i l cache El Hc) as (key & value & Hstored).
  exists l, key, value. split; [reflexivity|exact Hstored].
Qed.

End StackProperties.

Lemma model_forward_layer_caches_witness :
  exists layer : FlashLlamaLayer Z unit unit,
    FlashLlamaLayer_init Samples.int_pow 0 "model.layers.0"%string
      Samples.llama_config (Samples.weights 2) Samples.id_rotary = inr layer
    /\ exists hidden_states caches trace,
         FlashLlamaModel_forward (fun (meta : unit) (_ : Z) => meta)
           (fun position_ids => (position_ids, position_ids))
           (map (self_attention_layer Samples.kernels) [layer; layer])
           Samples.id_norm 7 0 None [[]; []; [5]] 0 tt tt None None
         = (inr hidden_states, caches, trace)
         /\ length caches = length [[]; []; [5]]
         /\ (forall i l cache,
               nth_error [layer; layer] i = Some l ->
               nth_error [[]; []; [5]] i = Some cache ->
               exists key value,
                 nth_error caches i
                 = Some (kv_store Samples.kernels cache key value 0
                                  (kv_scales (self_attn l))))
         /\ (forall i, (length [layer; layer] <= i)%nat ->
               nth_error caches i = nth_error [[]; []; [5]] i).
Proof.
  eexists. split; [reflexivity|].
  match goal with
  | |- context [map (self_attention_layer _) [?l; ?l]] =>
      apply (model_forward_layer_caches Samples.kernels
               (fun (meta : unit) (_ : Z) => meta)
               (fun position_ids => (position_ids, position_ids))
               Samples.id_norm [l; l] 7 0 None [[]; []; [5]] 0 tt tt None None)
  end.
  - discriminate.
  - cbn [length]. lia.
Defined.

Lemma model_forward_short_cache_witness :
  exists layer : FlashLlamaLayer Z unit unit,
    FlashLlamaLayer_init Samples.int_pow 0 "model.layers.0"%string
      Samples.llama_config (Samples.weights 2) Samples.id_rotary = inr layer
    /\ exists caches trace,
         FlashLlamaModel_forward (fun (meta : unit) (_ : Z) => meta)
           (fun position_ids => (position_ids, position_ids))
           (map (self_attention_layer Samples.kernels) [layer; layer; layer])
           Samples.id_norm 7 0 None [[]; [5]] 0 tt tt None None
         = (inl IndexError, caches, trace)
         /\ length caches = length [[]; [5]]
         /\ (forall i cache,
               nth_error [[]; [5]] i = Some cache ->
               exists l key value,
                 nth_error [layer; layer; layer] i = Some l
                 /\ nth_error caches i
                    = Some (kv_store Samples.kernels cache key value 0
                                     (kv_scales (self_attn l)))).
Proof.
  eexists. split; [reflexivity|].
  match goal with
  | |- context [map (self_attention_layer _) [?l; ?l; ?l]] =>
      apply (model_forward_short_cache Samples.kernels
               (fun (meta : unit) (_ : Z) => meta)
               (fun position_ids => (position_ids, position_ids))
               Samples.id_norm [l; l; l] 7 0 None [[]; [5]] 0 tt tt None None)
  end.
  cbn [length]. lia.
Defined.

(** ** Model set-up: quantization, speculation and adapters *)

Import ModelSetup.

Ltac split_method_tests :=
  repeat match goal with
         | |- context [String.eqb ?a ?b] =>
             destruct (String.eqb_spec a b); subst;
             cbn [orb fst snd app In]
         end.

(** X20.  A quantization method the caller asks for is never replaced
    and nothing is logged about it; one that is selected from the checkpoint's
    configuration is one of five names. *)
Theorem select_quantize_choice
    (quantization_config compression_config : option (option string))
    (quantize : option string) :
  (forall given, quantize = Some given ->
     select_quantize quantization_config compression_config quantize
     = (Some given, []))
  /\ (quantize = None ->
      forall chosen,
        fst (select_quantize quantization_config compression_config quantize)
        = Some chosen ->
        In chosen ["gptq"; "awq"; "exl2"; "fp8"; "compressed-tensors"]%string).
Proof.
  split.
  - intros given ->. unfold select_quantize.
    destruct quantization_config as [c|]; [reflexivity|].
    destruct compression_config; reflexivity.
  - intros -> chosen. unfold select_quantize.
    assert (Hmethod : forall method,
      fst (let '(quantize, logs) :=
             if method_eq method "gptq" || method_eq method "awq"
                || method_eq method "exl2"
             then (method,
                   [LogInfo ("Auto selecting quantization method "
                             ++ format_method method)%string])
             else if method_eq method "fbgemm_fp8" || method_eq method "fp8"
             then (Some "fp8"%string,
                   [LogInfo "Auto selecting quantization method fp8"])
             else (None, []) in
           if method_eq method "compressed-tensors"
           then (Some "compressed-tensors"%string,
                 logs ++ [LogInfo "Auto selecting quantization method compressed-tensors"])
           else (quantize,
                 logs ++ [LogWarning ("Unknown quantization method "
                                      ++ format_method method)%string]))
      = Some chosen ->
      In chosen ["gptq"; "awq"; "exl2"; "fp8"; "compressed-tensors"]%string).
    { intros [m|]; unfold method_eq; [|cbn; discriminate].
      split_method_tests; cbn; intros Heq; inversion Heq; subst; cbn; tauto. }
    destruct quantization_config as [c|]; [apply Hmethod|].
    destruct compression_config as [c|]; [apply Hmethod|].
    cbn. discriminate.
Qed.

(** X21.  When the method is taken from the checkpoint's configuration,
    the warning about an unknown method is logged for every method other
    than compressed-tensors, the ones that were just selected included. *)
Theorem select_quantize_warning
    (quantization_config compression_config : option (option string))
    (method : option string) :
  match quantization_config with
  | Some c => Some c
  | None => compression_config
  end = Some method ->
  method_eq method "compressed-tensors" = false ->
  In (LogWarning ("Unknown quantization method " ++ format_method method)%string)
     (snd (select_quantize quantization_config compression_config None)).
Proof.
  intros Hconfig Hother. unfold select_quantize. rewrite Hconfig, Hother.
  destruct (method_eq method "gptq" || method_eq method "awq"
            || method_eq method "exl2");
    [|destruct (method_eq method "fbgemm_fp8" || method_eq method "fp8")];
    cbn [snd]; apply in_or_app; right; left; reflexivity.
Qed.

Lemma select_quantize_warning_witness :
  fst (select_quantize (Some (Some "gptq"%string)) None None) = Some "gptq"%string
  /\ In (LogWarning "Unknown quantization method gptq")
        (snd (select_quantize (Some (Some "gptq"%string)) None None)).
Proof.
  split; [reflexivity|].
  apply (select_quantize_warning (Some (Some "gptq"%string)) None
           (Some "gptq"%string)); reflexivity.
Defined.

Section SpeculationProperties.

Context {Speculator : Type}.

Variable get_config_dict : string -> raised + SpeculatorConfig.
Variable fetch_speculator : string -> string -> raised + Speculator.

Lemma check_heads_ok (speculate : option Z) (heads global g : Z) :
  check_heads speculate heads global = (inr tt, g) ->
  g <= heads /\ g = match speculate with Some s => s | None => heads end.
Proof.
  unfold check_heads. destruct speculate as [s|].
  - destruct (Z.ltb_spec heads s) as [Hlt|Hge]; intros Heq; inversion Heq; subst.
    lia.
  - intros Heq; inversion Heq; subst. lia.
Qed.

Lemma load_speculator_ok (kind base model_id : string) (g g' : Z)
    (method base' : string) (config_dict : SpeculatorConfig)
    (speculator : option Speculator) :
  load_speculator get_config_dict fetch_speculator kind base model_id g
  = (inr (method, base', config_dict, speculator), g') ->
  method = kind /\ base' = base /\ g' = g /\ speculator <> None
  /\ get_config_dict base = inr config_dict.
Proof.
  unfold load_speculator.
  destruct (get_config_dict base) as [e|c]; [discriminate|].
  destruct (fetch_speculator kind model_id) as [e|sp]; [discriminate|].
  intros H; inversion H; subst. repeat split; discriminate.
Qed.

(** X22.  When the set-up of a speculator checkpoint (medusa or
    mlp_speculator) goes through, the speculation setting left behind is the
    requested one if there is one and the checkpoint's number of heads
    otherwise, and never more than that number; the model continues from the
    base model's id and configuration. *)
Theorem resolve_speculation_bound (model_id : string)
    (config_dict : SpeculatorConfig) (speculate : option Z)
    (method base : string) (base_config : SpeculatorConfig)
    (speculator : option Speculator) (global heads : Z) :
  resolve_speculation get_config_dict fetch_speculator model_id config_dict
    speculate
  = (inr (method, base, base_config, speculator), global) ->
  speculator_heads config_dict = Some heads ->
  global <= heads
  /\ global = match speculate with Some s => s | None => heads end
  /\ method <> "n-gram"%string
  /\ speculator <> None
  /\ base_model_name_or_path config_dict = Some base
  /\ get_config_dict base = inr base_config.
Proof.
  unfold resolve_speculation, speculator_heads.
  destruct (medusa_num_heads config_dict) as [h|].
  - intros Hres Hheads. inversion Hheads; subst h.
    destruct (base_model_name_or_path config_dict) as [b|]; [|discriminate].
    destruct (check_heads speculate heads _) as [[e|[]] g] eqn:Hcheck;
      [discriminate|].
    apply check_heads_ok in Hcheck. apply load_speculator_ok in Hres.
    destruct Hres as (-> & -> & -> & Hsp & Hcfg), Hcheck as [Hle Hg].
    repeat split; try assumption. discriminate.
  - destruct (match model_type config_dict with
              | Some t => String.eqb t "mlp_speculator"
              | None => false
              end); [|discriminate].
    intros Hres Hheads. rewrite Hheads in Hres.
    destruct (base_model_name_or_path config_dict) as [b|]; [|discriminate].
    destruct (check_heads speculate heads _) as [[e|[]] g] eqn:Hcheck;
      [discriminate|].
    apply check_heads_ok in Hcheck. apply load_speculator_ok in Hres.
    destruct Hres as (-> & -> & -> & Hsp & Hcfg), Hcheck as [Hle Hg].
    repeat split; try assumption. discriminate.
Qed.

(** X23.  Asking for more speculated tokens than the speculator
    checkpoint has heads raises [RuntimeError], whatever the base model is,
    and the rejected number is what the speculation setting is left at. *)
Theorem resolve_speculation_too_many (model_id : string)
    (config_dict : SpeculatorConfig) (requested heads : Z) :
  speculator_heads config_dict = Some heads ->
  base_model_name_or_path config_dict <> None ->
  heads < requested ->
  resolve_speculation get_config_dict fetch_speculator model_id config_dict
    (Some requested)
  = (inl (Builtin RuntimeError), requested).
Proof.
  unfold resolve_speculation, speculator_heads. intros Hheads Hbase Hlt.
  assert (Hcheck : check_heads (Some requested) heads requested
                   = (inl (Builtin RuntimeError), requested)).
  { unfold check_heads. destruct (Z.ltb_spec heads requested); [reflexivity|lia]. }
  destruct (medusa_num_heads config_dict) as [h|].
  - inversion Hheads; subst h.
    destruct (base_model_name_or_path config_dict); [|congruence].
    rewrite Hcheck. reflexivity.
  - destruct (match model_type config_dict with
              | Some t => String.eqb t "mlp_speculator"
              | None => false
              end); [|discriminate].
    rewrite Hheads.
    destruct (base_model_name_or_path config_dict); [|congruence].
    rewrite Hcheck. reflexivity.
Qed.

End SpeculationProperties.

Lemma resolve_speculation_bound_witness :
  let config_dict :=
    mk_speculator_config (Some "mlp_speculator"%string) None (Some 4)
                         (Some "base/model"%string) in
  let base_config :=
    mk_speculator_config (Some "llama"%string) None None None in
  resolve_speculation (fun _ => inr base_config) (fun _ path => inr path)
    "speculator/model" config_dict (Some 3)
  = (inr ("mlp_speculator"%string, "base/model"%string, base_config,
          Some "speculator/model"%string), 3)
  /\ 3 <= 4.
Proof.
  intros config_dict base_config. split; [reflexivity|].
  apply (resolve_speculation_bound (fun _ => inr base_config)
           (fun _ path => inr path) "speculator/model" config_dict (Some 3)
           "mlp_speculator" "base/model" base_config
           (Some "speculator/model"%string) 3 4); reflexivity.
Defined.

Lemma resolve_speculation_too_many_witness :
  resolve_speculation (Speculator := string)
    (fun _ => inl (KeyError "unused")) (fun _ path => inr path)
    "medusa/model"
    (mk_speculator_config None (Some 3) None (Some "base/model"%string))
    (Some 5)
  = (inl (Builtin RuntimeError), 5).
Proof.
  apply (resolve_speculation_too_many (Speculator := string)
           (fun _ => inl (KeyError "unused")) (fun _ path => inr path)
           "medusa/model"
           (mk_speculator_config None (Some 3) None (Some "base/model"%string))
           5 3).
  - reflexivity.
  - discriminate.
  - lia.
Defined.

Lemma select_quantize_choice_witness :
  select_quantize (Some (Some "awq"%string)) None (Some "gptq"%string)
  = (Some "gptq"%string, [])
  /\ In "fp8"%string ["gptq"; "awq"; "exl2"; "fp8"; "compressed-tensors"]%string.
Proof.
  split.
  - apply (proj1 (select_quantize_choice (Some (Some "awq"%string)) None
                    (Some "gptq"%string))).
    reflexivity.
  - apply (proj2 (select_quantize_choice None (Some (Some "fbgemm_fp8"%string))
                    None)); reflexivity.
Defined.

(** *** Adapters *)

Lemma dict_get_set_same (d : list (string * Z)) (key : string) (value : Z) :
  dict_get (dict_set d key value) key = Some value.
Proof.
  induction d as [|[k v] r IH]; cbn [dict_set dict_get].
  - rewrite String.eqb_refl. reflexivity.
  - destruct (String.eqb_spec k key) as [->|Hne]; cbn [dict_get].
    + rewrite String.eqb_refl. reflexivity.
    + destruct (String.eqb_spec k key); [contradiction|]. exact IH.
Qed.

Lemma dict_get_set_other (d : list (string * Z)) (key other : string) (value : Z) :
  key <> other -> dict_get (dict_set d key value) other = dict_get d other.
Proof.
  intros Hne. induction d as [|[k v] r IH]; cbn [dict_set dict_get].
  - destruct (String.eqb_spec key other); [contradiction|]. reflexivity.
  - destruct (String.eqb_spec k key) as [->|Hk]; cbn [dict_get].
    + destruct (String.eqb_spec key other); [contradiction|]. reflexivity.
    + destruct (String.eqb_spec k other); [reflexivity|]. exact IH.
Qed.

Section AdapterProperties.

Context {Loaded Weights Unused : Type}.

Variable load_and_merge_adapters : string -> Z -> raised + Loaded.
Variable adapter_weight_names : Loaded -> Unused.

Lemma add_adapter_layers_ext
    (prepare_weights prepare_weights' :
       Loaded -> string -> Z -> Unused -> raised + (option Weights * Unused))
    (num_layers : Z) (layer_names : list string) :
  (forall loaded layer_name unused,
     prepare_weights loaded layer_name num_layers unused
     = prepare_weights' loaded layer_name num_layers unused) ->
  ~ In "lm_head"%string layer_names ->
  forall loaded adapter_index unused added,
    add_adapter_layers prepare_weights layer_names loaded num_layers
      adapter_index unused added
    = add_adapter_layers prepare_weights' layer_names loaded num_layers
        adapter_index unused added.
Proof.
  intros Hsame. induction layer_names as [|name rest IH]; intros Hnot.
  - reflexivity.
  - intros loaded adapter_index unused added. cbn [add_adapter_layers].
    destruct (String.eqb_spec name "lm_head") as [->|_].
    + exfalso. apply Hnot. left. reflexivity.
    + rewrite Hsame.
      destruct (prepare_weights' loaded name num_layers unused)
        as [e|[[w|] u]]; [reflexivity| |];
        apply IH; intros Hin; apply Hnot; right; exact Hin.
Qed.

Lemma lm_head_not_adapter_layer : ~ In "lm_head"%string adapter_layers.
Proof.
  unfold adapter_layers. cbn [In].
  intros H. repeat (destruct H as [H|H]; [discriminate H|]). exact H.
Qed.

(** X24.  The [nlayers = 1] case for [lm_head] is never taken:
    [lm_head] is not among the adapter layers, so what the adapter loop does
    depends on [prepare_weights] only through the calls with the model's
    number of layers. *)
Theorem load_adapters_nlayers
    (prepare_weights prepare_weights' :
       Loaded -> string -> Z -> Unused -> raised + (option Weights * Unused))
    (num_layers : Z) (lora_adapters : list string) (index : Z)
    (st : adapter_state) :
  (forall loaded layer_name unused,
     prepare_weights loaded layer_name num_layers unused
     = prepare_weights' loaded layer_name num_layers unused) ->
  load_adapters load_and_merge_adapters adapter_weight_names prepare_weights
    lora_adapters index num_layers st
  = load_adapters load_and_merge_adapters adapter_weight_names prepare_weights'
      lora_adapters index num_layers st.
Proof.
  intros Hsame. revert index st.
  induction lora_adapters as [|adapter_id rest IH]; intros index st.
  - reflexivity.
  - cbn [load_adapters].
    destruct (load_and_merge_adapters adapter_id (index + 1)) as [e|loaded];
      [reflexivity|].
    rewrite (add_adapter_layers_ext prepare_weights prepare_weights' num_layers
               adapter_layers Hsame lm_head_not_adapter_layer).
    destruct (add_adapter_layers prepare_weights' adapter_layers loaded num_layers
                (index + 1) (adapter_weight_names loaded) _) as [[e|u] added];
      [reflexivity|].
    apply IH.
Qed.

Variable prepare_weights :
  Loaded -> string -> Z -> Unused -> raised + (option Weights * Unused).

(** The state after the loop, stopped or not: [k] adapters are loaded, with
    the indices that follow [index]; the ids registered are those of the
    adapters reached, the one the loop stopped at included, each under the
    index of its last occurrence. *)
Lemma load_adapters_inv (num_layers : Z) (lora_adapters : list string) :
  forall (index : Z) (st : adapter_state) (r : raised + unit)
         (st' : adapter_state),
    load_adapters load_and_merge_adapters adapter_weight_names prepare_weights
      lora_adapters index num_layers st = (r, st') ->
    exists k : nat,
      match r with
      | inr _ => k = length lora_adapters
      | inl _ => (k < length lora_adapters)%nat
      end
      /\ loaded_adapters st'
         = loaded_adapters st ++ map (fun i => index + 1 + Z.of_nat i) (seq 0 k)
      /\ let reached :=
           firstn (match r with inr _ => k | inl _ => S k end) lora_adapters in
         (forall id, ~ In id reached ->
            dict_get (adapter_to_index st') id = dict_get (adapter_to_index st) id)
         /\ (forall j id,
               nth_error reached j = Some id ->
               (forall j', (j < j')%nat -> nth_error reached j' <> Some id) ->
               dict_get (adapter_to_index st') id = Some (index + 1 + Z.of_nat j)).
Proof.
  induction lora_adapters as [|adapter_id rest IH]; intros index st r st' Hrun.
  - cbn in Hrun. inversion Hrun; subst. exists 0%nat.
    cbn. rewrite app_nil_r. repeat split; try reflexivity.
    intros [|j] id Hj; discriminate Hj.
  - cbn [load_adapters] in Hrun.
    assert (Hstop : forall e added,
      (inl e : raised + unit,
       mk_adapter_state
         (dict_set (adapter_to_index st) adapter_id (index + 1))
         (loaded_adapters st) added) = (r, st') ->
      exists k : nat,
        match r with
        | inr _ => k = length (adapter_id :: rest)
        | inl _ => (k < length (adapter_id :: rest))%nat
        end
        /\ loaded_adapters st'
           = loaded_adapters st ++ map (fun i => index + 1 + Z.of_nat i) (seq 0 k)
        /\ let reached :=
             firstn (match r with inr _ => k | inl _ => S k end)
                    (adapter_id :: rest) in
           (forall id, ~ In id reached ->
              dict_get (adapter_to_index st') id
              = dict_get (adapter_to_index st) id)
           /\ (forall j id,
                 nth_error reached j = Some id ->
                 (forall j', (j < j')%nat -> nth_error reached j' <> Some id) ->
                 dict_get (adapter_to_index st') id
                 = Some (index + 1 + Z.of_nat j))).
    { intros e added Heq. inversion Heq; subst. exists 0%nat.
      cbn [length seq map firstn adapter_to_index loaded_adapters].
      rewrite app_nil_r. split; [lia|]. split; [reflexivity|]. split.
      - intros id Hnot. apply dict_get_set_other.
        intros ->. apply Hnot. left. reflexivity.
      - intros [|j] id Hj _.
        + cbn in Hj. inversion Hj; subst.
          rewrite dict_get_set_same. f_equal. cbn. lia.
        + destruct j; discriminate Hj. }
    destruct (load_and_merge_adapters adapter_id (index + 1)) as [e|loaded].
    { apply (Hstop e (added_adapters st)). exact Hrun. }
    cbn [adapter_to_index loaded_adapters added_adapters] in Hrun.
    destruct (add_adapter_layers prepare_weights adapter_layers loaded num_layers
                (index + 1) (adapter_weight_names loaded) (added_adapters st))
      as [[e|u] added].
    { apply (Hstop e added). exact Hrun. }
    clear Hstop. apply IH in Hrun.
    destruct Hrun as (k & Hk & Hloaded & Hother & Hlast).
    cbn [adapter_to_index loaded_adapters] in Hloaded, Hother, Hlast.
    exists (S k). split; [destruct r; cbn [length] in Hk |- *; lia|]. split.
    + rewrite Hloaded, <- app_assoc. f_equal.
      cbn [seq map app]. f_equal; [cbn; lia|].
      rewrite <- seq_shift, map_map. apply map_ext. intros i. lia.
    + assert (Hreached :
        firstn (match r with inr _ => S k | inl _ => S (S k) end)
               (adapter_id :: rest)
        = adapter_id :: firstn (match r with inr _ => k | inl _ => S k end) rest).
      { destruct r; reflexivity. }
      cbv zeta. rewrite Hreached. split.
      * intros id Hnot. rewrite Hother.
        -- apply dict_get_set_other. intros ->. apply Hnot. left. reflexivity.
        -- intros Hin. apply Hnot. right. exact Hin.
      * intros [|j] id Hj Hafter.
        -- cbn in Hj. inversion Hj; subst. rewrite Hother.
           ++ rewrite dict_get_set_same. f_equal. cbn. lia.
           ++ intros Hin. apply In_nth_error in Hin. destruct Hin as [j' Hj'].
              apply (Hafter (S j')); [lia|exact Hj'].
        -- cbn [nth_error] in Hj. rewrite (Hlast j id Hj).
           ++ f_equal. lia.
           ++ intros j' Hlt. apply (Hafter (S j')). lia.
Qed.

(** X25.  When the adapter loop runs through, the model's loaded
    adapters gain exactly the indices [index + 1 .. index + n] in order, every
    adapter id is registered under one plus the position of its last
    occurrence in the list (so never under the base model's index), and the
    other entries of [adapter_to_index] are as before. *)
Theorem load_adapters_registers_all (num_layers : Z)
    (lora_adapters : list string) (index : Z) (st st' : adapter_state) :
  load_adapters load_and_merge_adapters adapter_weight_names prepare_weights
    lora_adapters index num_layers st = (inr tt, st') ->
  loaded_adapters st'
  = loaded_adapters st
    ++ py_range (index + 1) (index + 1 + Z.of_nat (length lora_adapters))
  /\ (forall id, ~ In id lora_adapters ->
        dict_get (adapter_to_index st') id = dict_get (adapter_to_index st) id)
  /\ (forall j id,
        nth_error lora_adapters j = Some id ->
        (forall j', (j < j')%nat -> nth_error lora_adapters j' <> Some id) ->
        dict_get (adapter_to_index st') id = Some (index + 1 + Z.of_nat j)).
Proof.
  intros Hrun. apply load_adapters_inv in Hrun.
  destruct Hrun as (k & -> & Hloaded & Hother & Hlast).
  rewrite firstn_all in Hother, Hlast. split; [|split; assumption].
  rewrite Hloaded. f_equal. unfold py_range.
  replace (Z.to_nat (index + 1 + Z.of_nat (length lora_adapters) - (index + 1)))
    with (length lora_adapters) by lia.
  apply map_ext. intros i. lia.
Qed.

(** X26.  When loading stops with an exception at some adapter, that
    adapter's id is already registered in [adapter_to_index] under its index,
    while the model's loaded adapters hold only the indices before it. *)
Theorem load_adapters_failure_registered (num_layers : Z)
    (lora_adapters : list string) (index : Z) (st st' : adapter_state)
    (e : raised) :
  load_adapters load_and_merge_adapters adapter_weight_names prepare_weights
    lora_adapters index num_layers st = (inl e, st') ->
  exists (k : nat) (id : string),
    nth_error lora_adapters k = Some id
    /\ dict_get (adapter_to_index st') id = Some (index + 1 + Z.of_nat k)
    /\ loaded_adapters st'
       = loaded_adapters st ++ py_range (index + 1) (index + 1 + Z.of_nat k).
Proof.
  intros Hrun. apply load_adapters_inv in Hrun.
  destruct Hrun as (k & Hk & Hloaded & _ & Hlast).
  destruct (nth_error lora_adapters k) as [id|] eqn:Hid;
    [|apply nth_error_None in Hid; lia].
  exists k, id. split; [exact Hid|]. split.
  - apply Hlast.
    + rewrite nth_error_firstn.
      destruct (Nat.ltb_spec k (S k)); [exact Hid|lia].
    + intros j' Hlt. rewrite nth_error_firstn.
      destruct (Nat.ltb_spec j' (S k)); [lia|discriminate].
  - rewrite Hloaded. f_equal. unfold py_range.
    replace (Z.to_nat (index + 1 + Z.of_nat k - (index + 1))) with k by lia.
    apply map_ext. intros i. lia.
Qed.

End AdapterProperties.

Lemma load_adapters_nlayers_witness :
  let prepare_weights :=
    fun (_ : string) (layer_name : string) (nlayers : Z) (unused : unit) =>
      inr (if String.eqb layer_name "q_proj" then Some nlayers else None, unused) in
  let prepare_weights' :=
    fun (loaded : string) (layer_name : string) (nlayers : Z) (unused : unit) =>
      if nlayers =? 32 then prepare_weights loaded layer_name nlayers unused
      else inl (KeyError "nlayers") in
  load_adapters (fun id _ => inr id) (fun _ => tt) prepare_weights
    ["a"; "b"]%string 0 32 (mk_adapter_state [] [] [])
  = load_adapters (fun id _ => inr id) (fun _ => tt) prepare_weights'
      ["a"; "b"]%string 0 32 (mk_adapter_state [] [] []).
Proof.
  intros prepare_weights prepare_weights'.
  apply (load_adapters_nlayers (Weights := Z) (fun id _ => inr id) (fun _ => tt)
           prepare_weights prepare_weights' 32 ["a"; "b"]%string 0
           (mk_adapter_state [] [] [])).
  intros loaded layer_name unused. reflexivity.
Defined.

Lemma load_adapters_registers_all_witness :
  let run :=
    load_adapters (Weights := Z) (fun id _ => inr id) (fun _ => tt)
      (fun _ layer_name nlayers unused =>
         inr (if String.eqb layer_name "q_proj" then Some nlayers else None,
              unused))
      ["a"; "b"; "a"]%string 0 32 (mk_adapter_state [] [1] []) in
  fst run = inr tt
  /\ loaded_adapters (snd run) = [1; 1; 2; 3]
  /\ dict_get (adapter_to_index (snd run)) "a" = Some 3
  /\ dict_get (adapter_to_index (snd run)) "b" = Some 2.
Proof.
  intros run. split; [reflexivity|].
  destruct (load_adapters_registers_all (Weights := Z)
              (fun id _ => inr id) (fun _ => tt)
              (fun _ layer_name nlayers unused =>
                 inr (if String.eqb layer_name "q_proj" then Some nlayers
                      else None, unused))
              32 ["a"; "b"; "a"]%string 0 (mk_adapter_state [] [1] []) (snd run)
              eq_refl)
    as (Hloaded & _ & Hlast).
  split; [exact Hloaded|]. split.
  - apply (Hlast 2%nat "a"%string eq_refl).
    intros j' Hlt. do 3 (destruct j' as [|j']; [lia|]).
    destruct j'; discriminate.
  - apply (Hlast 1%nat "b"%string eq_refl).
    intros j' Hlt. do 2 (destruct j' as [|j']; [lia|]).
    destruct j' as [|j']; [discriminate|]. destruct j'; discriminate.
Defined.

Lemma load_adapters_failure_registered_witness :
  let run :=
    load_adapters (Weights := Z)
      (fun id _ =>
         if String.eqb id "broken" then inl (Builtin RuntimeError) else inr id)
      (fun _ => tt)
      (fun _ layer_name nlayers unused =>
         inr (if String.eqb layer_name "q_proj" then Some nlayers else None,
              unused))
      ["a"; "broken"; "c"]%string 0 32 (mk_adapter_state [] [] []) in
  exists (k : nat) (id : string),
    nth_error ["a"; "broken"; "c"]%string k = Some id
    /\ dict_get (adapter_to_index (snd run)) id = Some (0 + 1 + Z.of_nat k)
    /\ loaded_adapters (snd run) = [] ++ py_range (0 + 1) (0 + 1 + Z.of_nat k).
Proof.
  intros run.
  apply (load_adapters_failure_registered (Weights := Z)
           (fun id _ =>
              if String.eqb id "broken" then inl (Builtin RuntimeError)
              else inr id)
           (fun _ => tt)
           (fun _ layer_name nlayers unused =>
              inr (if String.eqb layer_name "q_proj" then Some nlayers else None,
                   unused))
           32 ["a"; "broken"; "c"]%string 0 (mk_adapter_state [] [] []) (snd run)
           (Builtin RuntimeError)).
  reflexivity.
Defined.
